(** * Plama turn pipeline: a shallow embedding of the chat store and of the
      prompt assembler, with the properties of its specification.

    Sources embedded here:
    - [src/utils/messageUtils.ts]  (stripInternalContextBlocks,
      mergeConsecutiveRoles, buildOllamaRequestBody)
    - [src/stores/chat.ts]         (addMessage, updateMessage, sendMessage and
      the closures updateThinkStateFromChunk, startThinkTimeUpdates, cleanup,
      escapeHtml, truncateText and toDetailsBlock; fetchChatById, renameChat,
      generateChatTitle, editMessage, deleteMessage, regenerateMessage)
    - [src/utils/markdown.ts]      (removeThinkBlocks)
    - [src/types/chats.ts], [src/types/settings.ts] (data model)

    JavaScript strings are sequences of UTF-16 code units; they are modelled
    as [list N], so that [length], [slice] and the regular expressions of the
    source count what the source counts.  JavaScript numbers that are not
    integers are binary64 values, rounded as IEEE 754 rounds them. *)

From Stdlib Require Import String Ascii.
From Stdlib Require Import List NArith ZArith QArith Qpower Bool Lia Lqa.
From Stdlib Require Import Sorted Permutation.
Import ListNotations.

Set Implicit Arguments.

(* ================================================================== *)
(** ** JavaScript strings *)
(* ================================================================== *)

Module Js.

Definition jsstring := list N.

(** A literal: every character of a Rocq string is one code unit. *)
Definition str (s : string) : jsstring :=
  map N_of_ascii (list_ascii_of_string s).

Definition quote : N := 34.        (* the double quote character *)
Definition lt_char : N := 60.      (* the character < *)
Definition newline : N := 10.

Definition N_in (lo hi c : N) : bool := (lo <=? c)%N && (c <=? hi)%N.

(** WhiteSpace and LineTerminator of ECMAScript: what [\s] matches and what
    [String.prototype.trim] removes. *)
Definition isWhiteSpace (c : N) : bool :=
  N_in 9 13 c || (c =? 32)%N || (c =? 160)%N || (c =? 5760)%N
  || N_in 8192 8202 c || (c =? 8232)%N || (c =? 8233)%N || (c =? 8239)%N
  || (c =? 8287)%N || (c =? 12288)%N || (c =? 65279)%N.

Fixpoint skip_while (f : N -> bool) (s : jsstring) : jsstring :=
  match s with
  | c :: t => if f c then skip_while f t else s
  | [] => []
  end.

Definition trimStart (s : jsstring) : jsstring := skip_while isWhiteSpace s.
Definition trimEnd (s : jsstring) : jsstring := rev (trimStart (rev s)).
Definition trim (s : jsstring) : jsstring := trimEnd (trimStart s).

(** Truthiness of a string: [Boolean(s)]. *)
Definition truthy (s : jsstring) : bool :=
  match s with [] => false | _ :: _ => true end.

Fixpoint eqb (a b : jsstring) : bool :=
  match a, b with
  | [], [] => true
  | x :: a', y :: b' => (x =? y)%N && eqb a' b'
  | _, _ => false
  end.

Fixpoint startsWith (p s : jsstring) : bool :=
  match p, s with
  | [], _ => true
  | a :: p', c :: s' => (a =? c)%N && startsWith p' s'
  | _ :: _, [] => false
  end.

(** [s.includes(p)] *)
Fixpoint includes (p s : jsstring) : bool :=
  startsWith p s ||
  match s with
  | [] => false
  | _ :: t => includes p t
  end.

(** [xs.slice(start)] for an integer [start]: a negative start counts from
    the end, and both ends are clamped. *)
Definition slice_from {A} (start : Z) (xs : list A) : list A :=
  let len := Z.of_nat (length xs) in
  let k := if (start <? 0)%Z then Z.max (len + start) 0 else Z.min start len in
  skipn (Z.to_nat k) xs.

(** [xs.join(sep)] on strings *)
Fixpoint join (sep : jsstring) (xs : list jsstring) : jsstring :=
  match xs with
  | [] => []
  | [x] => x
  | x :: rest => x ++ sep ++ join sep rest
  end.

(** Case folding of a regular expression with the [i] flag and without the
    [u] flag: only the ASCII letters are folded onto one another, because a
    character above 127 is never canonicalised to one below 128. *)
Definition toUpperAscii (c : N) : N :=
  if N_in 97 122 c then (c - 32)%N else c.

Definition eq_ci (a c : N) : bool := (toUpperAscii a =? toUpperAscii c)%N.

(** Match the literal [p] at the head of [s], ignoring ASCII case; the
    result is what follows the match. *)
Fixpoint lit_ci (p s : jsstring) : option jsstring :=
  match p with
  | [] => Some s
  | a :: p' =>
      match s with
      | c :: s' => if eq_ci a c then lit_ci p' s' else None
      | [] => None
      end
  end.

(** The lazy [[\s\S]*?] followed by the literal [p]: the text after the first
    occurrence of [p]. *)
Fixpoint find_ci (p s : jsstring) : option jsstring :=
  match lit_ci p s with
  | Some r => Some r
  | None =>
      match s with
      | [] => None
      | _ :: t => find_ci p t
      end
  end.

End Js.

Import Js.

(* ================================================================== *)
(** ** JavaScript numbers *)
(* ================================================================== *)

Module JsNumber.

(** A Number is an IEEE 754 binary64 value.  A finite one is carried as the
    rational it denotes; the result of an operation is the exact result
    rounded to the nearest binary64 value, ties to the even significand.
    The sign of a zero is not kept: it shows only in a division by a zero
    that was reached from below, which the code embedded here never does. *)
Inductive Number :=
| Finite (q : Q)
| Infinity (negative : bool)
| NaN.

(** The fraction [n/d * 2^s], for positive [n] and [d]. *)
Definition scale (n d s : Z) : Z * Z :=
  if (0 <=? s)%Z then (n * 2 ^ s, d)%Z else (n, d * 2 ^ (- s))%Z.

(** The exponent [e] with [2^e <= n/d < 2^(e+1)], for positive [n] and [d]. *)
Definition binade (n d : Z) : Z :=
  let e := (Z.log2 n - Z.log2 d)%Z in
  let (a, b) := scale n d (- e) in
  if (b <=? a)%Z then e else (e - 1)%Z.

(** The integer nearest to [a/b]; of two that are as near, the even one. *)
Definition nearest_even (a b : Z) : Z :=
  let m := (a / b)%Z in
  match (2 * (a mod b) ?= b)%Z with
  | Lt => m
  | Gt => (m + 1)%Z
  | Eq => if Z.even m then m else (m + 1)%Z
  end.

(** Rounding of a positive fraction: a significand of 53 bits, the last of
    them worth no less than [2^-1074] (below [2^-1022] the values are
    subnormal), and infinity from [2^1024] on. *)
Definition round_positive (n d : Z) : Number :=
  let k := Z.max (binade n d - 52) (-1074) in
  let (a, b) := scale n d (- k) in
  let r := Qred (inject_Z (nearest_even a b) * 2 ^ k) in
  if Qle_bool (2 ^ 1024) r then Infinity false else Finite r.

Definition opp (x : Number) : Number :=
  match x with
  | Finite q => Finite (Qred (- q))
  | Infinity s => Infinity (negb s)
  | NaN => NaN
  end.

Definition round (q : Q) : Number :=
  match Qnum q with
  | Z0 => Finite 0
  | Zpos n => round_positive (Zpos n) (Zpos (Qden q))
  | Zneg n => opp (round_positive (Zpos n) (Zpos (Qden q)))
  end.

(** The Number of an integer expression. *)
Definition of_int (z : Z) : Number := round (inject_Z z).

Definition negative (q : Q) : bool := (Qnum q <? 0)%Z.

(** [x / y] *)
Definition div (x y : Number) : Number :=
  match x, y with
  | NaN, _ | _, NaN => NaN
  | Infinity _, Infinity _ => NaN
  | Infinity s, Finite b => Infinity (xorb s (negative b))
  | Finite _, Infinity _ => Finite 0
  | Finite a, Finite b =>
      if Qeq_bool b 0
      then if Qeq_bool a 0 then NaN else Infinity (negative a)
      else round (a / b)
  end.

(** [Math.max(x, y)] *)
Definition Math_max (x y : Number) : Number :=
  match x, y with
  | NaN, _ | _, NaN => NaN
  | Infinity false, _ | _, Infinity false => Infinity false
  | Infinity true, z | z, Infinity true => z
  | Finite a, Finite b => if Qle_bool a b then Finite b else Finite a
  end.

End JsNumber.

Import JsNumber.

(* ================================================================== *)
(** ** Data model ([types/chats.ts], [types/settings.ts]) *)
(* ================================================================== *)

Inductive Role := user | assistant | system.

Definition Role_eqb (a b : Role) : bool :=
  match a, b with
  | user, user | assistant, assistant | system, system => true
  | _, _ => false
  end.

Inductive AttachmentType := TEXT | IMAGE.

Record AttachmentMeta := {
  meta_name : jsstring;
  meta_size : Z;
  meta_lastModified : Z }.

Record Attachment := {
  att_content : jsstring;
  att_type : AttachmentType;
  att_meta : option AttachmentMeta }.

(** The attachment parameter of addMessage, an object type of its own:
    [{ content: string; type: AttachmentType; timestamp: number; meta: File }].
    Its File is not optional. *)
Record AddedAttachment := {
  added_content : jsstring;
  added_type : AttachmentType;
  added_timestamp : Z;
  added_meta : AttachmentMeta }.

(** [Message] of [types/chats.ts]; an optional field is an [option]. *)
Record Message := {
  msg_id : jsstring;
  msg_content : jsstring;
  msg_role : Role;
  msg_timestamp : Z;
  attachmentMeta : option (AttachmentType * AttachmentMeta);
  attachmentContent : option jsstring;
  isLoading : option bool;
  thinkTime : option Z;
  isThinking : option bool;
  firstTokenMs : option Z;
  responseMs : option Z;
  outputChars : option Z;
  speedCps : option Number }.

(** The system prompt of a chat is a string, an object with a [content]
    field, or absent. *)
Inductive SystemPromptField :=
| SPString (s : jsstring)
| SPObject (content : jsstring)
| SPNull.

Record Chat := {
  chat_id : jsstring;
  chat_title : jsstring;
  chat_timestamp : Z;
  systemPrompt : SystemPromptField;
  messages : list Message }.

(** [type MaxMessages = 5 | 10 | 20 | 50 | 100] *)
Definition MaxMessages (m : Z) : Prop :=
  m = 5%Z \/ m = 10%Z \/ m = 20%Z \/ m = 50%Z \/ m = 100%Z.

(* ================================================================== *)
(** ** [utils/messageUtils.ts] *)
(* ================================================================== *)

Module MessageUtils.

Record ChatMessage := { role : Role; content : jsstring }.

Definition details_open : jsstring := str "<details".
Definition details_class : jsstring :=
  str "class=" ++ [quote] ++ str "internal-context" ++ [quote].
Definition details_close : jsstring := str "</details>".
Definition gt : N := 62.

(** One match of
    [/<details\s+class="internal-context"[^>]*>[\s\S]*?<\/details>/i] at the
    head of [s]; the result is the text after the match.  The greedy [\s+]
    and [[^>]*] cannot give characters back: the character that follows
    them in the pattern is outside their class. *)
Definition match_internal_context (s : jsstring) : option jsstring :=
  match lit_ci details_open s with
  | Some (c :: r1) =>
      if isWhiteSpace c then
        match lit_ci details_class (skip_while isWhiteSpace r1) with
        | Some r3 =>
            match skip_while (fun x => negb (x =? gt)%N) r3 with
            | x :: r5 => if (x =? gt)%N then find_ci details_close r5 else None
            | [] => None
            end
        | None => None
        end
      else None
  | _ => None
  end.

(** [content.replace(re, '')] with the [g] flag: scan from the left; a match
    is removed and the scan resumes after it.  [skip] counts the characters
    of the current match still to be dropped. *)
Fixpoint replace_internal_context (skip : nat) (s : jsstring) : jsstring :=
  match s with
  | [] => []
  | c :: t =>
      match skip with
      | S k => replace_internal_context k t
      | O =>
          match match_internal_context s with
          | Some rest =>
              replace_internal_context (length t - length rest) t
          | None => c :: replace_internal_context 0 t
          end
      end
  end.

Definition stripInternalContextBlocks (content : jsstring) : jsstring :=
  if negb (truthy content) then []
  else trim (replace_internal_context 0 content).

Definition blank_line : jsstring := [newline; newline].

Definition last_opt {A} (xs : list A) : option A :=
  match rev xs with
  | [] => None
  | x :: _ => Some x
  end.

(** The body of the [for] loop of mergeConsecutiveRoles. *)
Definition merge_step (merged : list ChatMessage) (msg : ChatMessage)
  : list ChatMessage :=
  let c := content msg in
  if negb (truthy (trim c)) then merged
  else
    match last_opt merged with
    | Some prev =>
        if Role_eqb (role prev) (role msg) then
          removelast merged ++
            [ {| role := role prev;
                 content := join blank_line (filter truthy [content prev; c]) |} ]
        else merged ++ [ {| role := role msg; content := c |} ]
    | None => merged ++ [ {| role := role msg; content := c |} ]
    end.

Definition mergeConsecutiveRoles (msgs : list ChatMessage) : list ChatMessage :=
  fold_left merge_step msgs [].

Inductive ThinkOption := ThinkBool (b : bool) | ThinkLevel (l : jsstring).

Record Options := { think : option ThinkOption }.

(** The request body: [prompt]/[images] for an image, [messages] otherwise. *)
Inductive Body :=
| GenerateBody (model : jsstring) (prompt : jsstring) (images : list jsstring)
               (think : option ThinkOption)
| ChatBody (model : jsstring) (msgs : list ChatMessage)
           (think : option ThinkOption).

Inductive BuildError :=
| InvalidChat | NoModelSelected | InvalidUserMessageId
| InvalidImageAttachment | UserMessageNotFound.

Definition systemPromptContent (c : Chat) : option jsstring :=
  match systemPrompt c with
  | SPString s => Some s
  | SPObject s => Some s
  | SPNull => None
  end.

Definition truthy_opt (o : option jsstring) : bool :=
  match o with Some s => truthy s | None => false end.

(** [[a, b, ...].filter(Boolean)] on possibly absent strings *)
Definition filter_Boolean (xs : list (option jsstring)) : list jsstring :=
  flat_map (fun o => match o with
                     | Some s => if truthy s then [s] else []
                     | None => []
                     end) xs.

(** [settings.maxMessages || 20] *)
Definition effectiveMaxMessages (maxMessages : Z) : Z :=
  if (maxMessages =? 0)%Z then 20%Z else maxMessages.

Definition reservedSlots (sys mem : option jsstring) : Z :=
  ((if truthy_opt sys || truthy_opt mem then 1 else 0) + 1)%Z.

Definition availableSlots (maxMessages : Z) (sys mem : option jsstring) : Z :=
  Z.max 0 (effectiveMaxMessages maxMessages - reservedSlots sys mem).

Definition think_of (o : option Options) : option ThinkOption :=
  match o with Some x => think x | None => None end.

Definition history_entry (m : Message) : ChatMessage :=
  {| role := msg_role m; content := stripInternalContextBlocks (msg_content m) |}.

Definition is_history (userMessageId : jsstring) (m : Message) : bool :=
  negb (Js.eqb (msg_id m) userMessageId) && negb (Role_eqb (msg_role m) system).

(** The system entry, when there is one (lines 85-90). *)
Definition systemEntry (chat : Chat) (memoryContent : option jsstring)
  : list ChatMessage :=
  let systemContent :=
    join [newline] (filter_Boolean [systemPromptContent chat; memoryContent]) in
  if truthy systemContent
  then [ {| role := system; content := systemContent |} ] else [].

(** The messages of the chat that go into the prompt (lines 97-99). *)
Definition selectedHistory (chat : Chat) (userMessageId : jsstring)
    (memoryContent : option jsstring) (maxMessages : Z) : list Message :=
  slice_from
    (- availableSlots maxMessages (systemPromptContent chat) memoryContent)
    (filter (is_history userMessageId) (messages chat)).

(** The [messages] array before normalisation (lines 85-109). *)
Definition rawMessages (chat : Chat) (userMessageId finalContent : jsstring)
    (memoryContent : option jsstring) (maxMessages : Z) : list ChatMessage :=
  systemEntry chat memoryContent
  ++ map history_entry
       (selectedHistory chat userMessageId memoryContent maxMessages)
  ++ [ {| role := user; content := finalContent |} ].

(** [chat] is [None] for a null chat or a chat without a message list. *)
Definition buildOllamaRequestBody
    (chat : option Chat) (selectedModel userMessageId finalContent : jsstring)
    (attachmentContent : option Attachment) (memoryContent : option jsstring)
    (maxMessages : Z) (options : option Options) : BuildError + Body :=
  match chat with
  | None => inl InvalidChat
  | Some chat =>
      if negb (truthy selectedModel) then inl NoModelSelected
      else if negb (truthy userMessageId) then inl InvalidUserMessageId
      else
        let sys := systemPromptContent chat in
        match attachmentContent with
        | Some {| att_content := img; att_type := IMAGE |} =>
            if negb (truthy img) then inl InvalidImageAttachment
            else inr (GenerateBody selectedModel
                        (join [newline]
                           (filter_Boolean [sys; memoryContent; Some finalContent]))
                        [img] (think_of options))
        | _ =>
            if negb (existsb (fun m => Js.eqb (msg_id m) userMessageId)
                       (messages chat))
            then inl UserMessageNotFound
            else inr (ChatBody selectedModel
                        (mergeConsecutiveRoles
                           (rawMessages chat userMessageId finalContent
                              memoryContent maxMessages))
                        (think_of options))
        end
  end.

End MessageUtils.

Import MessageUtils.

(* ================================================================== *)
(** ** [stores/chat.ts] *)
(* ================================================================== *)

Module ChatStore.

(** *** State of the store and of its surroundings *)

Record OllamaModel := { model_name : jsstring }.

(** The settings and toggles [sendMessage] reads and never writes. *)
Record Config := {
  models : list OllamaModel;
  settings_selectedModel : jsstring;
  settings_systemModel : jsstring;
  settings_maxMessages : Z;
  settings_defaultChatTitle : jsstring;
  getMemoryContent : option jsstring;
  thinkOptions : option Options }.

(** The [extra] argument of updateMessage. *)
Record Extra := {
  e_firstTokenMs : option Z;
  e_responseMs : option Z;
  e_outputChars : option Z;
  e_speedCps : option Number }.

Inductive PersistTask :=
| SaveMessage (chatId : jsstring) (m : Message)
| ReplaceChatMessages (chatId : jsstring) (ms : list Message)
| SaveChatMeta (id : jsstring) (title : option jsstring) (timestamp : option Z).

(** What the store does to its surroundings, oldest first: the calls of
    updateMessage (the per-fragment update observers see), the submissions
    to the throttled writers, and the requests sent out. *)
Inductive IO :=
| IoUpdateMessage (chatId : jsstring) (messageId : option jsstring)
    (content : jsstring) (isLoading : option bool) (thinkTime : option Z)
    (isThinking : option bool) (extra : option Extra)
| IoPersist (task : PersistTask)
| IoSidePipelines
| IoFetch (body : Body)
| IoTitleRequest.

Record AbortController := { aborted : bool }.

Record World := {
  cfg : Config;
  chats : list Chat;
  activeChatId : jsstring;
  activeChat : option Chat;
  isGeneratingTitle : bool;
  isSending : bool;
  abortController : option AbortController;
  error : option jsstring;
  clock_reads : nat;             (* calls of Date.now() so far *)
  uuids_drawn : nat;             (* calls of crypto.randomUUID() so far *)
  timers_created : nat;          (* calls of setInterval so far *)
  live_timers : list nat;        (* intervals set and not cleared *)
  io : list IO }.

Definition set_chats (v : list Chat) (w : World) : World :=
  {| cfg := cfg w; chats := v; activeChatId := activeChatId w;
     activeChat := activeChat w; isGeneratingTitle := isGeneratingTitle w;
     isSending := isSending w; abortController := abortController w;
     error := error w; clock_reads := clock_reads w;
     uuids_drawn := uuids_drawn w; timers_created := timers_created w;
     live_timers := live_timers w; io := io w |}.

Definition set_activeChat (v : option Chat) (w : World) : World :=
  {| cfg := cfg w; chats := chats w; activeChatId := activeChatId w;
     activeChat := v; isGeneratingTitle := isGeneratingTitle w;
     isSending := isSending w; abortController := abortController w;
     error := error w; clock_reads := clock_reads w;
     uuids_drawn := uuids_drawn w; timers_created := timers_created w;
     live_timers := live_timers w; io := io w |}.

Definition set_isGeneratingTitle (v : bool) (w : World) : World :=
  {| cfg := cfg w; chats := chats w; activeChatId := activeChatId w;
     activeChat := activeChat w; isGeneratingTitle := v;
     isSending := isSending w; abortController := abortController w;
     error := error w; clock_reads := clock_reads w;
     uuids_drawn := uuids_drawn w; timers_created := timers_created w;
     live_timers := live_timers w; io := io w |}.

Definition set_isSending (v : bool) (w : World) : World :=
  {| cfg := cfg w; chats := chats w; activeChatId := activeChatId w;
     activeChat := activeChat w; isGeneratingTitle := isGeneratingTitle w;
     isSending := v; abortController := abortController w;
     error := error w; clock_reads := clock_reads w;
     uuids_drawn := uuids_drawn w; timers_created := timers_created w;
     live_timers := live_timers w; io := io w |}.

Definition set_abortController (v : option AbortController) (w : World) : World :=
  {| cfg := cfg w; chats := chats w; activeChatId := activeChatId w;
     activeChat := activeChat w; isGeneratingTitle := isGeneratingTitle w;
     isSending := isSending w; abortController := v;
     error := error w; clock_reads := clock_reads w;
     uuids_drawn := uuids_drawn w; timers_created := timers_created w;
     live_timers := live_timers w; io := io w |}.

Definition set_error (v : option jsstring) (w : World) : World :=
  {| cfg := cfg w; chats := chats w; activeChatId := activeChatId w;
     activeChat := activeChat w; isGeneratingTitle := isGeneratingTitle w;
     isSending := isSending w; abortController := abortController w;
     error := v; clock_reads := clock_reads w;
     uuids_drawn := uuids_drawn w; timers_created := timers_created w;
     live_timers := live_timers w; io := io w |}.

Definition set_clock_reads (v : nat) (w : World) : World :=
  {| cfg := cfg w; chats := chats w; activeChatId := activeChatId w;
     activeChat := activeChat w; isGeneratingTitle := isGeneratingTitle w;
     isSending := isSending w; abortController := abortController w;
     error := error w; clock_reads := v;
     uuids_drawn := uuids_drawn w; timers_created := timers_created w;
     live_timers := live_timers w; io := io w |}.

Definition set_uuids_drawn (v : nat) (w : World) : World :=
  {| cfg := cfg w; chats := chats w; activeChatId := activeChatId w;
     activeChat := activeChat w; isGeneratingTitle := isGeneratingTitle w;
     isSending := isSending w; abortController := abortController w;
     error := error w; clock_reads := clock_reads w;
     uuids_drawn := v; timers_created := timers_created w;
     live_timers := live_timers w; io := io w |}.

Definition set_timers (created : nat) (live : list nat) (w : World) : World :=
  {| cfg := cfg w; chats := chats w; activeChatId := activeChatId w;
     activeChat := activeChat w; isGeneratingTitle := isGeneratingTitle w;
     isSending := isSending w; abortController := abortController w;
     error := error w; clock_reads := clock_reads w;
     uuids_drawn := uuids_drawn w; timers_created := created;
     live_timers := live; io := io w |}.

Definition set_io (v : list IO) (w : World) : World :=
  {| cfg := cfg w; chats := chats w; activeChatId := activeChatId w;
     activeChat := activeChat w; isGeneratingTitle := isGeneratingTitle w;
     isSending := isSending w; abortController := abortController w;
     error := error w; clock_reads := clock_reads w;
     uuids_drawn := uuids_drawn w; timers_created := timers_created w;
     live_timers := live_timers w; io := v |}.

Definition emit (e : IO) (w : World) : World := set_io (io w ++ [e]) w.

(** The variables [sendMessage] declares for one turn and its closures
    share (lines 1329-1335 and 1402). *)
Record Turn := {
  thinkStartTime : option Z;
  isInThinkBlock : bool;
  thinkTagBuffer : jsstring;
  assistantMessageId : option jsstring;
  assistantContent : jsstring;
  thinkTimeInterval : option nat;
  firstTokenTime : option Z;
  usesThinkingField : bool }.

Definition initialTurn : Turn :=
  {| thinkStartTime := None; isInThinkBlock := false; thinkTagBuffer := [];
     assistantMessageId := None; assistantContent := [];
     thinkTimeInterval := None; firstTokenTime := None;
     usesThinkingField := false |}.

Definition set_thinkStartTime (v : option Z) (t : Turn) : Turn :=
  {| thinkStartTime := v; isInThinkBlock := isInThinkBlock t;
     thinkTagBuffer := thinkTagBuffer t;
     assistantMessageId := assistantMessageId t;
     assistantContent := assistantContent t;
     thinkTimeInterval := thinkTimeInterval t;
     firstTokenTime := firstTokenTime t;
     usesThinkingField := usesThinkingField t |}.

Definition set_isInThinkBlock (v : bool) (t : Turn) : Turn :=
  {| thinkStartTime := thinkStartTime t; isInThinkBlock := v;
     thinkTagBuffer := thinkTagBuffer t;
     assistantMessageId := assistantMessageId t;
     assistantContent := assistantContent t;
     thinkTimeInterval := thinkTimeInterval t;
     firstTokenTime := firstTokenTime t;
     usesThinkingField := usesThinkingField t |}.

Definition set_thinkTagBuffer (v : jsstring) (t : Turn) : Turn :=
  {| thinkStartTime := thinkStartTime t; isInThinkBlock := isInThinkBlock t;
     thinkTagBuffer := v;
     assistantMessageId := assistantMessageId t;
     assistantContent := assistantContent t;
     thinkTimeInterval := thinkTimeInterval t;
     firstTokenTime := firstTokenTime t;
     usesThinkingField := usesThinkingField t |}.

Definition set_assistantMessageId (v : option jsstring) (t : Turn) : Turn :=
  {| thinkStartTime := thinkStartTime t; isInThinkBlock := isInThinkBlock t;
     thinkTagBuffer := thinkTagBuffer t;
     assistantMessageId := v;
     assistantContent := assistantContent t;
     thinkTimeInterval := thinkTimeInterval t;
     firstTokenTime := firstTokenTime t;
     usesThinkingField := usesThinkingField t |}.

Definition set_assistantContent (v : jsstring) (t : Turn) : Turn :=
  {| thinkStartTime := thinkStartTime t; isInThinkBlock := isInThinkBlock t;
     thinkTagBuffer := thinkTagBuffer t;
     assistantMessageId := assistantMessageId t;
     assistantContent := v;
     thinkTimeInterval := thinkTimeInterval t;
     firstTokenTime := firstTokenTime t;
     usesThinkingField := usesThinkingField t |}.

Definition set_thinkTimeInterval (v : option nat) (t : Turn) : Turn :=
  {| thinkStartTime := thinkStartTime t; isInThinkBlock := isInThinkBlock t;
     thinkTagBuffer := thinkTagBuffer t;
     assistantMessageId := assistantMessageId t;
     assistantContent := assistantContent t;
     thinkTimeInterval := v;
     firstTokenTime := firstTokenTime t;
     usesThinkingField := usesThinkingField t |}.

Definition set_firstTokenTime (v : option Z) (t : Turn) : Turn :=
  {| thinkStartTime := thinkStartTime t; isInThinkBlock := isInThinkBlock t;
     thinkTagBuffer := thinkTagBuffer t;
     assistantMessageId := assistantMessageId t;
     assistantContent := assistantContent t;
     thinkTimeInterval := thinkTimeInterval t;
     firstTokenTime := v;
     usesThinkingField := usesThinkingField t |}.

Definition set_usesThinkingField (v : bool) (t : Turn) : Turn :=
  {| thinkStartTime := thinkStartTime t; isInThinkBlock := isInThinkBlock t;
     thinkTagBuffer := thinkTagBuffer t;
     assistantMessageId := assistantMessageId t;
     assistantContent := assistantContent t;
     thinkTimeInterval := thinkTimeInterval t;
     firstTokenTime := firstTokenTime t;
     usesThinkingField := v |}.

(** One parsed line of the response stream. *)
Record Data := {
  message_thinking : option jsstring;    (* data.message?.thinking *)
  message_content : option jsstring;     (* data.message?.content *)
  response : option jsstring }.          (* data.response *)

(** What reaches the turn while the stream is read: a parsed line, or the
    100 ms interval of startThinkTimeUpdates firing between two lines. *)
Inductive Event := Chunk (d : Data) | Tick.

Inductive JsError := AbortError | Error (message : string).

(** How the reading of the stream ends.  A call of
    [abortController.abort()] runs the listener [cleanup] and makes the
    pending read reject with an AbortError, the error the [catch] of
    sendMessage lets pass; a failure of the transport rejects with another
    error. *)
Inductive StreamEnd :=
| StreamDone                       (* the body was read to its end *)
| StreamAborted                    (* abortController.abort() was called *)
| StreamFailed (e : JsError).      (* the transport failed *)

(** The answers of the collaborators of one turn.  The side pipelines (link
    fetch, search, retrieval) and the rendering of what they return are
    outside the turn pipeline: they either hand over the two context texts
    appended to the user message, or throw (searchRagFiles is called
    outside any [try]). *)
Inductive SideOutcome :=
| SideContext (contextForUi contextForModel : jsstring)
| SideThrows (e : JsError).

Inductive FetchOutcome :=
| FetchThrows (e : JsError)
| FetchResponse (events : list Event) (ending : StreamEnd).

Record Collaborators := {
  side : SideOutcome;          (* link fetch, search and retrieval, rendered *)
  fetched : FetchOutcome;      (* fetch(...) and the stream it opens *)
  title : option jsstring }.   (* the title the title request came back with *)

(** *** Helpers on the data *)

Definition set_messages (ms : list Message) (c : Chat) : Chat :=
  {| chat_id := chat_id c; chat_title := chat_title c;
     chat_timestamp := chat_timestamp c; systemPrompt := systemPrompt c;
     messages := ms |}.

Definition set_chat_timestamp (ts : Z) (c : Chat) : Chat :=
  {| chat_id := chat_id c; chat_title := chat_title c;
     chat_timestamp := ts; systemPrompt := systemPrompt c;
     messages := messages c |}.

Definition set_chat_title (t : jsstring) (c : Chat) : Chat :=
  {| chat_id := chat_id c; chat_title := t;
     chat_timestamp := chat_timestamp c; systemPrompt := systemPrompt c;
     messages := messages c |}.

(** [findById] comes from utils/helpers.ts, which is not among the sources;
    it is read as the lookup the store also writes out in full,
    [this.chats.find(c => c.id === chatId)]. *)
Definition findById {A} (id_of : A -> jsstring) (xs : list A) (id : jsstring)
  : option A :=
  find (fun x => Js.eqb (id_of x) id) xs.

(** Assignment through the reference [find] returned: the first element that
    satisfies [p] is replaced. *)
Fixpoint update_first {A} (p : A -> bool) (f : A -> A) (xs : list A) : list A :=
  match xs with
  | [] => []
  | x :: r => if p x then f x :: r else x :: update_first p f r
  end.

Definition has_id {A} (id_of : A -> jsstring) (id : jsstring) (x : A) : bool :=
  Js.eqb (id_of x) id.

(** [this.chats.sort((a, b) => b.timestamp - a.timestamp)]: a stable sort,
    most recent first. *)
Fixpoint insert_chat (c : Chat) (sorted : list Chat) : list Chat :=
  match sorted with
  | [] => [c]
  | d :: r =>
      if (chat_timestamp c <? chat_timestamp d)%Z
      then d :: insert_chat c r
      else c :: sorted
  end.

Definition sort_chats (cs : list Chat) : list Chat :=
  fold_right insert_chat [] cs.

(** Truthiness of a number that may be null, and its value in arithmetic. *)
Definition truthy_num (o : option Z) : bool :=
  match o with Some t => negb (t =? 0)%Z | None => false end.

Definition num (o : option Z) : Z :=
  match o with Some t => t | None => 0%Z end.

(** The seconds since the first fragment, no less than the literal 0.001:
    [Math.max(0.001, (now - firstTokenTime) / 1000)]. *)
Definition elapsed_seconds (now firstTokenTime : Z) : Number :=
  Math_max (round (1 # 1000))
           (div (of_int (now - firstTokenTime)) (of_int 1000)).

(** The metrics block that sendMessage repeats before each updateMessage
    (lines 1377-1382, 1431-1436, 1484-1489, 1511-1516).  The times are
    integers, and so is the length of the answer, a Number as it stands;
    the speed is a quotient of Numbers. *)
Definition metrics (requestStartTime : Z) (firstTokenTime : option Z) (now : Z)
    (assistantContent : jsstring) : Extra :=
  let outputChars := Z.of_nat (length assistantContent) in
  {| e_firstTokenMs :=
       if truthy_num firstTokenTime
       then Some (num firstTokenTime - requestStartTime)%Z else None;
     e_responseMs := Some (now - requestStartTime)%Z;
     e_outputChars := Some outputChars;
     e_speedCps :=
       if truthy_num firstTokenTime
       then Some (div (Finite (inject_Z outputChars))
                      (elapsed_seconds now (num firstTokenTime)))
       else None |}.

Definition num_str (o : option jsstring) : jsstring :=
  match o with Some s => s | None => [] end.

Definition or_else {A} (new old : option A) : option A :=
  match new with Some _ => new | None => old end.

Definition extra_field {A} (f : Extra -> option A) (extra : option Extra)
  : option A :=
  match extra with Some e => f e | None => None end.

(** The assignments of updateMessage on the message it found. *)
Definition apply_update (content : jsstring) (il : option bool)
    (tt : option Z) (it : option bool) (extra : option Extra) (m : Message)
  : Message :=
  {| msg_id := msg_id m;
     msg_content := content;
     msg_role := msg_role m;
     msg_timestamp := msg_timestamp m;
     attachmentMeta := attachmentMeta m;
     attachmentContent := attachmentContent m;
     isLoading := or_else il (isLoading m);
     thinkTime := or_else tt (thinkTime m);
     isThinking := or_else it (isThinking m);
     firstTokenMs := or_else (extra_field e_firstTokenMs extra) (firstTokenMs m);
     responseMs := or_else (extra_field e_responseMs extra) (responseMs m);
     outputChars := or_else (extra_field e_outputChars extra) (outputChars m);
     speedCps := or_else (extra_field e_speedCps extra) (speedCps m) |}.

(** The message addMessage builds (lines 1039-1052): the fields given, the
    new id and, with an attachment, its type, its File data and its
    content. *)
Definition with_id (id : jsstring) (att : option AddedAttachment)
    (m : Message) : Message :=
  {| msg_id := id;
     msg_content := msg_content m;
     msg_role := msg_role m;
     msg_timestamp := msg_timestamp m;
     attachmentMeta :=
       match att with
       | Some a => Some (added_type a, added_meta a)
       | None => attachmentMeta m
       end;
     attachmentContent :=
       match att with
       | Some a => Some (added_content a)
       | None => attachmentContent m
       end;
     isLoading := isLoading m;
     thinkTime := thinkTime m;
     isThinking := isThinking m;
     firstTokenMs := firstTokenMs m;
     responseMs := responseMs m;
     outputChars := outputChars m;
     speedCps := speedCps m |}.

(** [value.replace(/c/g, rep)] for a single character [c] *)
Definition replace_char (c : N) (rep : jsstring) (value : jsstring) : jsstring :=
  flat_map (fun x => if (x =? c)%N then rep else [x]) value.

(** escapeHtml (lines 1161-1167): five replacements, one after the other. *)
Definition escapeHtml (value : jsstring) : jsstring :=
  replace_char 39 (str "&#39;")
    (replace_char quote (str "&quot;")
       (replace_char 62 (str "&gt;")
          (replace_char 60 (str "&lt;")
             (replace_char 38 (str "&amp;") value)))).

(** toDetailsBlock (lines 1175-1179): the collapsible block the user message
    keeps for display. *)
Definition toDetailsBlock (title body : jsstring) : jsstring :=
  str "<details class=" ++ [quote] ++ str "internal-context" ++ [quote]
  ++ str "><summary>" ++ escapeHtml title
  ++ str "</summary><pre>" ++ escapeHtml body ++ str "</pre></details>".

Definition ellipsis : N := 8230.   (* the character "..." in one code unit *)

(** [value.slice(0, end)] for an integer [end] that is not negative *)
Definition slice_to {A} (finish : Z) (xs : list A) : list A :=
  firstn (Z.to_nat (Z.min finish (Z.of_nat (length xs)))) xs.

(** truncateText (lines 1169-1173) *)
Definition truncateText (value : jsstring) (maxChars : Z) : jsstring :=
  if negb (truthy value) then []
  else if (Z.of_nat (length value) <=? maxChars)%Z then value
  else slice_to (Z.max 0 (maxChars - 1)) value ++ [ellipsis].

(** The context the user message keeps for display: one collapsible block
    for each side result, each after a blank line (lines 1253, 1262, 1270,
    1277). *)
Definition contextForUi_of (blocks : list (jsstring * jsstring)) : jsstring :=
  concat (map (fun tb => [newline; newline] ++ toDetailsBlock (fst tb) (snd tb))
              blocks).

(** [xs.findIndex(p)]; [None] stands for -1. *)
Fixpoint findIndex {A} (p : A -> bool) (xs : list A) : option nat :=
  match xs with
  | [] => None
  | x :: r =>
      if p x then Some 0%nat
      else match findIndex p r with
           | Some i => Some (S i)
           | None => None
           end
  end.

Definition THINK_OPEN_TAGS : list jsstring := [str "<think>"; str "<analysis>"].
Definition THINK_CLOSE_TAGS : list jsstring := [str "</think>"; str "</analysis>"].

(** [TAGS.some(t => combined.includes(t))] *)
Definition some_included (tags : list jsstring) (combined : jsstring) : bool :=
  existsb (fun t => includes t combined) tags.

(** *** The actions of the store *)

Section Actions.

(** The readings of [Date.now()] and the results of [crypto.randomUUID()],
    in the order they are asked for; and [handleError] of
    utils/helpers.ts, which turns an exception into the text kept in
    [this.error]. *)
Variable now_at : nat -> Z.
Variable uuid_at : nat -> jsstring.
Variable handleError : JsError -> string -> jsstring.

Definition Date_now (w : World) : Z * World :=
  (now_at (clock_reads w), set_clock_reads (S (clock_reads w)) w).

Definition randomUUID (w : World) : jsstring * World :=
  (uuid_at (uuids_drawn w), set_uuids_drawn (S (uuids_drawn w)) w).

Definition setInterval (w : World) : nat * World :=
  let h := S (timers_created w) in
  (h, set_timers h (h :: live_timers w) w).

Definition clearInterval (h : nat) (w : World) : World :=
  set_timers (timers_created w)
             (filter (fun x => negb (Nat.eqb x h)) (live_timers w)) w.

(** [if (thinkTimeInterval) clearInterval(thinkTimeInterval)] *)
Definition clear_if_set (h : option nat) (w : World) : World :=
  match h with Some n => clearInterval n w | None => w end.

Definition syncActiveChat (w : World) : World :=
  set_activeChat (findById chat_id (chats w) (activeChatId w)) w.

Definition persistMessage (chatId : jsstring) (m : Message) (w : World) : World :=
  emit (IoPersist (SaveMessage chatId m)) w.

Definition persistChatMessages (chatId : jsstring) (w : World) : World :=
  match findById chat_id (chats w) chatId with
  | Some c => emit (IoPersist (ReplaceChatMessages chatId (messages c))) w
  | None => w
  end.

Definition persistChatMeta (id : jsstring) (title : option jsstring)
    (timestamp : option Z) (w : World) : World :=
  emit (IoPersist (SaveChatMeta id title timestamp)) w.

Definition selectedModel (c : Config) : jsstring :=
  if truthy (settings_selectedModel c) then settings_selectedModel c
  else if truthy (settings_systemModel c) then settings_systemModel c
  else match models c with
       | m :: _ => model_name m
       | [] => []
       end.

Definition shouldGenerateTitle (w : World) (c : Chat) : bool :=
  negb (truthy (chat_title c))
  || Js.eqb (chat_title c) (settings_defaultChatTitle (cfg w)).

Definition addMessage (chatId : jsstring) (message : Message)
    (attachment : option AddedAttachment) (w : World)
  : option jsstring * World :=
  match findById chat_id (chats w) chatId with
  | None => (None, w)
  | Some _ =>
      match msg_role message with
      | system => (None, w)
      | _ =>
          let (id, w1) := randomUUID w in
          let newMessage := with_id id attachment message in
          let (ts, w2) := Date_now w1 in
          let push c := set_chat_timestamp ts
                          (set_messages (messages c ++ [newMessage]) c) in
          let w3 := set_chats
                      (sort_chats (update_first (has_id chat_id chatId) push (chats w2)))
                      w2 in
          (Some id, syncActiveChat w3)
      end
  end.

Definition find_message (c : Chat) (messageId : option jsstring) : option Message :=
  match messageId with
  | Some id => findById msg_id (messages c) id
  | None => None
  end.

Definition updateMessage (chatId : jsstring) (messageId : option jsstring)
    (content : jsstring) (il : option bool) (tt : option Z) (it : option bool)
    (extra : option Extra) (w : World) : World :=
  let w0 := emit (IoUpdateMessage chatId messageId content il tt it extra) w in
  match findById chat_id (chats w0) chatId with
  | None => w0
  | Some chat =>
      match messageId, find_message chat messageId with
      | Some id, Some m =>
          let m' := apply_update content il tt it extra m in
          let assign c :=
            set_messages (update_first (has_id msg_id id) (fun _ => m') (messages c)) c in
          let w1 := set_chats (update_first (has_id chat_id chatId) assign (chats w0)) w0 in
          syncActiveChat (persistMessage chatId m' w1)
      | _, _ => w0
      end
  end.

Definition renameChat (chatId newTitle : jsstring) (w : World) : World :=
  match findById chat_id (chats w) chatId with
  | Some _ =>
      let w1 := set_chats
                  (update_first (has_id chat_id chatId) (set_chat_title newTitle) (chats w))
                  w in
      syncActiveChat (persistChatMeta chatId (Some newTitle) None w1)
  | None => w
  end.

(** [content.split(' ')] *)
Fixpoint split_spaces (cur : jsstring) (s : jsstring) : list jsstring :=
  match s with
  | [] => [rev cur]
  | c :: r =>
      if (c =? 32)%N then rev cur :: split_spaces [] r
      else split_spaces (c :: cur) r
  end.

(** [generateDefaultTitle]: the first five words, or the default title. *)
Definition generateDefaultTitle (w : World) (content : option jsstring) : jsstring :=
  let words :=
    match content with
    | Some c => join [32%N] (firstn 5 (split_spaces [] c))
    | None => []
    end in
  if truthy words then words else settings_defaultChatTitle (cfg w).

(** generateChatTitle.  [reply] is the title its request came back with,
    after the checks of the [try] block; [None] when the request failed. *)
Definition generateChatTitle (chatId : jsstring) (reply : option jsstring)
    (w : World) : World :=
  match findById chat_id (chats w) chatId with
  | None => w
  | Some c =>
      match messages c with
      | [] => w
      | m0 :: _ =>
          let fallback := generateDefaultTitle w (Some (msg_content m0)) in
          if negb (truthy (settings_systemModel (cfg w)))
             && negb (truthy (settings_selectedModel (cfg w)))
          then renameChat chatId fallback w
          else
            let w1 := emit IoTitleRequest w in
            match reply with
            | Some t => renameChat chatId t w1
            | None => renameChat chatId fallback w1
            end
      end
  end.

(** *** The closures of one turn *)

Section Closures.

(** What the closures capture from [sendMessage]: the chat, the time the
    request was sent, and whether the attachment is an image. *)
Variable chatId : jsstring.
Variable requestStartTime : Z.
Variable isImage : bool.

Definition startThinkTimeUpdates (t : Turn) (w : World) : Turn * World :=
  let w1 := clear_if_set (thinkTimeInterval t) w in
  let (h, w2) := setInterval w1 in
  (set_thinkTimeInterval (Some h) t, w2).

Definition updateThinkStateFromChunk (chunk : jsstring) (t : Turn) (w : World)
  : Turn * World :=
  let t1 := set_thinkTagBuffer (slice_from (-64) (thinkTagBuffer t ++ chunk)) t in
  let combined := thinkTagBuffer t1 in
  let (t2, w2) :=
    if negb (isInThinkBlock t1) && some_included THINK_OPEN_TAGS combined
    then
      let (n, w1) := Date_now w in
      startThinkTimeUpdates
        (set_isInThinkBlock true (set_thinkStartTime (Some n) t1)) w1
    else (t1, w) in
  if isInThinkBlock t2 && some_included THINK_CLOSE_TAGS combined
  then (set_thinkTimeInterval None (set_isInThinkBlock false t2),
        clear_if_set (thinkTimeInterval t2) w2)
  else (t2, w2).

(** The callback startThinkTimeUpdates hands to setInterval. *)
Definition onInterval (t : Turn) (w : World) : World :=
  if isInThinkBlock t && truthy_num (thinkStartTime t)
     && truthy_opt (assistantMessageId t)
  then
    let (n, w1) := Date_now w in
    updateMessage chatId (assistantMessageId t) (assistantContent t)
      (Some true) (Some (n - num (thinkStartTime t))%Z) (Some true) None w1
  else w.

Definition elapsed_thinking (now : Z) (t : Turn) : option Z :=
  if truthy_num (thinkStartTime t)
  then Some (now - num (thinkStartTime t))%Z else None.

Definition cleanup (t : Turn) (w : World) : World :=
  let w1 := clear_if_set (thinkTimeInterval t) w in
  if truthy_opt (assistantMessageId t) && isInThinkBlock t
  then
    let (now, w2) := Date_now w1 in
    updateMessage chatId (assistantMessageId t) (assistantContent t)
      (Some false) (elapsed_thinking now t) (Some false)
      (Some (metrics requestStartTime (firstTokenTime t) now (assistantContent t)))
      w2
  else w1.

(** [firstTokenTime ??= Date.now()] *)
Definition stamp_first_token (t : Turn) (w : World) : Turn * World :=
  match firstTokenTime t with
  | Some _ => (t, w)
  | None =>
      let (n, w1) := Date_now w in
      (set_firstTokenTime (Some n) t, w1)
  end.

Definition firstTokenMs_of (t : Turn) : option Z :=
  if truthy_num (firstTokenTime t)
  then Some (num (firstTokenTime t) - requestStartTime)%Z else None.

(** The object both branches pass to addMessage for the assistant. *)
Definition new_assistant (tt : option Z) (it : bool) (ftm : option Z)
    (timestamp : Z) : Message :=
  {| msg_id := []; msg_content := []; msg_role := assistant;
     msg_timestamp := timestamp; attachmentMeta := None;
     attachmentContent := None; isLoading := Some true; thinkTime := tt;
     isThinking := Some it; firstTokenMs := ftm; responseMs := None;
     outputChars := None; speedCps := None |}.

(** Lines 1413-1418: the reasoning channel opens a block. *)
Definition open_think_block (t : Turn) (w : World) : Turn * World :=
  if negb (isInThinkBlock t)
  then
    let ta := set_assistantContent (assistantContent t ++ str "<think>") t in
    let (n, wa) := Date_now w in
    startThinkTimeUpdates
      (set_isInThinkBlock true (set_thinkStartTime (Some n) ta)) wa
  else (t, w).

(** Lines 1420-1428: [assistantMessageId ??= await this.addMessage(...)].
    The message, and the clock readings in it, are only built when the id is
    still null. *)
Definition create_assistant_thinking (t : Turn) (w : World) : Turn * World :=
  match assistantMessageId t with
  | Some _ => (t, w)
  | None =>
      let (n1, wa) := Date_now w in
      let (n2, wb) := Date_now wa in
      let (id, wc) :=
        addMessage chatId
          (new_assistant (Some (n1 - num (thinkStartTime t))%Z) true
             (firstTokenMs_of t) n2)
          None wb in
      (set_assistantMessageId id t, wc)
  end.

(** The branch for a line with a [thinking] field (lines 1409-1453). *)
Definition onThinking (thinkingChunk : jsstring) (t0 : Turn) (w0 : World)
  : Turn * World :=
  let t1 := set_usesThinkingField true t0 in
  let (t2, w2) := stamp_first_token t1 w0 in
  let (t3, w3) := open_think_block t2 w2 in
  let (t4, w4) := create_assistant_thinking t3 w3 in
  let t5 := set_assistantContent (assistantContent t4 ++ thinkingChunk) t4 in
  let (now, w5) := Date_now w4 in
  (t5,
   updateMessage chatId (assistantMessageId t5) (assistantContent t5)
     (Some true) (elapsed_thinking now t5) (Some true)
     (Some (metrics requestStartTime (firstTokenTime t5) now (assistantContent t5)))
     w5).

(** Lines 1460-1466: content after the reasoning channel closes the block. *)
Definition close_think_block (t : Turn) (w : World) : Turn * World :=
  if usesThinkingField t && isInThinkBlock t
  then (set_thinkTimeInterval None
          (set_isInThinkBlock false
             (set_assistantContent (assistantContent t ++ str "</think>") t)),
        clear_if_set (thinkTimeInterval t) w)
  else (t, w).

(** Lines 1468-1471: inline tags are looked for only while no [thinking]
    field has been seen. *)
Definition detect_tags (chunkContent : jsstring) (t : Turn) (w : World)
  : Turn * World :=
  if negb (usesThinkingField t)
  then updateThinkStateFromChunk chunkContent t w
  else (t, w).

(** Lines 1473-1481: [assistantMessageId ??= await this.addMessage(...)]. *)
Definition create_assistant_content (t : Turn) (w : World) : Turn * World :=
  match assistantMessageId t with
  | Some _ => (t, w)
  | None =>
      let (tt, wa) :=
        if truthy_num (thinkStartTime t) && isInThinkBlock t
        then let (n1, w') := Date_now w in
             (Some (n1 - num (thinkStartTime t))%Z, w')
        else (None, w) in
      let (n2, wb) := Date_now wa in
      let (id, wc) :=
        addMessage chatId
          (new_assistant tt (isInThinkBlock t) (firstTokenMs_of t) n2)
          None wb in
      (set_assistantMessageId id t, wc)
  end.

(** The branch for regular content (lines 1455-1504). *)
Definition onContent (chunkContent : jsstring) (t0 : Turn) (w0 : World)
  : Turn * World :=
  let (t1, w1) := stamp_first_token t0 w0 in
  let (t2, w2) := close_think_block t1 w1 in
  let (t3, w3) := detect_tags chunkContent t2 w2 in
  let (t4, w4) := create_assistant_content t3 w3 in
  let t5 := set_assistantContent (assistantContent t4 ++ chunkContent) t4 in
  let (now, w5) := Date_now w4 in
  (t5,
   updateMessage chatId (assistantMessageId t5) (assistantContent t5)
     (Some true)
     (match thinkTimeInterval t5 with
      | Some _ => if isInThinkBlock t5 then elapsed_thinking now t5 else None
      | None => None
      end)
     (Some (isInThinkBlock t5))
     (Some (metrics requestStartTime (firstTokenTime t5) now (assistantContent t5)))
     w5).

(** The callback [sendMessage] hands to processStream. *)
Definition onData (d : Data) (t : Turn) (w : World) : Turn * World :=
  let thinkingChunk := message_thinking d in
  let chunkContent := if isImage then response d else message_content d in
  if truthy_opt thinkingChunk then onThinking (num_str thinkingChunk) t w
  else if truthy_opt chunkContent then onContent (num_str chunkContent) t w
  else (t, w).

Definition interval_live (t : Turn) (w : World) : bool :=
  match thinkTimeInterval t with
  | Some h => existsb (Nat.eqb h) (live_timers w)
  | None => false
  end.

Definition onEvent (tw : Turn * World) (e : Event) : Turn * World :=
  let (t, w) := tw in
  match e with
  | Chunk d => onData d t w
  | Tick => (t, if interval_live t w then onInterval t w else w)
  end.

(** Modelled from the spec: processStream of utils/helpers.ts is not among
    the sources.  Section 6 gives the transport as an ordered sequence of
    fragments until the stream ends, with mid-stream abort; section 5 has
    each fragment processed to completion before the next is read.  So the
    callback is run on the events in order; how the stream ends is the
    [StreamEnd] that comes with them. *)
Definition processStream (events : list Event) (t : Turn) (w : World)
  : Turn * World :=
  fold_left onEvent events (t, w).

(** Lines 1507-1526: the last update of the assistant message. *)
Definition finalize (t : Turn) (w : World) : World :=
  if truthy_opt (assistantMessageId t)
  then
    let (finalThinkTime, wa) :=
      if isInThinkBlock t && truthy_num (thinkStartTime t)
      then let (n, w') := Date_now w in
           (Some (n - num (thinkStartTime t))%Z, w')
      else (match findById chat_id (chats w) chatId with
            | Some c =>
                match find_message c (assistantMessageId t) with
                | Some m => thinkTime m
                | None => None
                end
            | None => None
            end, w) in
    let wb := clear_if_set (thinkTimeInterval t) wa in
    let (now, wc) := Date_now wb in
    let wd :=
      updateMessage chatId (assistantMessageId t) (assistantContent t)
        (Some false) finalThinkTime (Some false)
        (Some (metrics requestStartTime (firstTokenTime t) now (assistantContent t)))
        wc in
    syncActiveChat (persistChatMessages chatId wd)
  else w.

End Closures.

(** Lines 1528-1535: the title follow-up and the re-sort. *)
Definition followUp (chatId : jsstring) (reply : option jsstring) (w : World)
  : World :=
  let w1 :=
    match findById chat_id (chats w) chatId with
    | Some c =>
        if shouldGenerateTitle w c
        then set_isGeneratingTitle false
               (generateChatTitle chatId reply (set_isGeneratingTitle true w))
        else w
    | None => w
    end in
  syncActiveChat (set_chats (sort_chats (chats w1)) w1).

Definition build_error_message (e : BuildError) : string :=
  match e with
  | InvalidChat => "Invalid chat object"
  | NoModelSelected => "No model selected"
  | InvalidUserMessageId => "Invalid user message ID"
  | InvalidImageAttachment => "Invalid image attachment content"
  | UserMessageNotFound => "User message not found in chat"
  end.

Definition is_image (a : option Attachment) : bool :=
  match a with
  | Some {| att_type := IMAGE |} => true
  | _ => false
  end.

(** The message [sendMessage] adds for the user (lines 1284-1295). *)
Definition user_message (content : jsstring) (timestamp : Z)
    (a : option Attachment) : Message :=
  {| msg_id := []; msg_content := content; msg_role := user;
     msg_timestamp := timestamp;
     attachmentMeta :=
       match a with
       | Some x => match att_meta x with
                   | Some f => Some (att_type x, f)
                   | None => None
                   end
       | None => None
       end;
     attachmentContent :=
       match a with
       | Some x => if truthy (att_content x) then Some (att_content x) else None
       | None => None
       end;
     isLoading := None; thinkTime := None; isThinking := None;
     firstTokenMs := None; responseMs := None; outputChars := None;
     speedCps := None |}.

Definition chat_timestamp_of (chatId : jsstring) (w : World) : option Z :=
  match findById chat_id (chats w) chatId with
  | Some c => Some (chat_timestamp c)
  | None => None
  end.

(** The [try] block of sendMessage.  [chat], the reference the source takes
    at line 1141, is read here as the chat of that id in [this.chats]: ids
    are UUIDs and nothing removes a chat during the turn.  The controller
    line 1150 aborts belongs to an earlier turn; one turn is followed here,
    from its first line to its last. *)
Definition sendMessage_try (chatId content : jsstring)
    (attachmentContent : option Attachment) (env : Collaborators) (w : World)
  : (JsError + unit) * World :=
  match findById chat_id (chats w) chatId with
  | None => (inl (Error "No active chat"), w)
  | Some _ =>
  match models (cfg w) with
  | [] => (inl (Error "No models available"), w)
  | _ :: _ =>
  if negb (truthy (trim content))
     && match attachmentContent with None => true | Some _ => false end
  then (inl (Error "Message content or attachment is required"), w)
  else
    let w1 := set_abortController (Some {| aborted := false |})
                (set_isSending true w) in
    let finalContent := trim content in
    let w2 := emit IoSidePipelines w1 in
    match side env with
    | SideThrows e => (inl e, w2)
    | SideContext contextForUi contextForModel =>
    let finalContentForUi := trim (finalContent ++ contextForUi) in
    let finalContentForModel := trim (finalContent ++ contextForModel) in
    let (ts, w3) := Date_now w2 in
    let (userMessageId, w4) :=
      addMessage chatId (user_message finalContentForUi ts attachmentContent)
        None w3 in
    if negb (truthy_opt userMessageId)
    then (inl (Error "Failed to add user message"), w4)
    else
    let w5 := persistChatMessages chatId w4 in
    let w6 := persistChatMeta chatId None (chat_timestamp_of chatId w5) w5 in
    let w7 := syncActiveChat w6 in
    match buildOllamaRequestBody (findById chat_id (chats w7) chatId)
            (selectedModel (cfg w7)) (num_str userMessageId)
            finalContentForModel attachmentContent
            (getMemoryContent (cfg w7)) (settings_maxMessages (cfg w7))
            (thinkOptions (cfg w7)) with
    | inl e => (inl (Error (build_error_message e)), w7)
    | inr body =>
    let (requestStartTime, w8) := Date_now w7 in
    let w9 := emit (IoFetch body) w8 in
    match fetched env with
    | FetchThrows e => (inl e, w9)
    | FetchResponse events ending =>
    let isImage := is_image attachmentContent in
    let (t, w10) :=
      processStream chatId requestStartTime isImage events initialTurn w9 in
    match ending with
    | StreamFailed e => (inl e, w10)
    | StreamAborted =>
        (inl AbortError,
         cleanup chatId requestStartTime t
           (set_abortController (Some {| aborted := true |}) w10))
    | StreamDone =>
        (inr tt,
         followUp chatId (title env) (finalize chatId requestStartTime t w10))
    end end end end end end.

Inductive Settled := Resolved | Rejected (e : JsError).

(** sendMessage: the [try] block, then [catch] and [finally]
    (lines 1536-1544). *)
Definition sendMessage (chatId content : jsstring)
    (attachmentContent : option Attachment) (env : Collaborators) (w : World)
  : Settled * World :=
  let (r, w1) := sendMessage_try chatId content attachmentContent env w in
  let (res, w2) :=
    match r with
    | inr _ => (Resolved, w1)
    | inl AbortError => (Resolved, w1)
    | inl e =>
        (Rejected e,
         set_error (Some (handleError e "Failed to stream message from Ollama")) w1)
    end in
  (res, set_abortController None (set_isSending false w2)).

(** *** Editing, deleting and regenerating *)

(** The call [deleteMessage(chatId, messageIds)] of api/chats.ts, as the
    store issues it. *)
Record DeleteRequest := {
  del_chatId : jsstring;
  del_messageIds : list jsstring }.

(** fetchChatById: a chat is added, without its messages, unless one of its
    id is there. *)
Definition fetchChatById (chat : Chat) (w : World) : World :=
  match find (fun c => Js.eqb (chat_id c) (chat_id chat)) (chats w) with
  | Some _ => w
  | None =>
      syncActiveChat
        (set_chats (sort_chats (set_messages [] chat :: chats w)) w)
  end.

(** The lines editMessage, deleteMessage and regenerateMessage share
    (1576-1584, 1620-1628, 1660-1668): the messages of [chat] from [index]
    on are cut off, the backend is told to delete them, the rest is
    persisted.  [api] is the error the backend call throws, if it throws;
    the result is that error and the request the backend received. *)
Definition dropFrom (chatId : jsstring) (chat : Chat) (index : nat)
    (api : option JsError) (w : World)
  : (option JsError * DeleteRequest) * World :=
  let messageIdsToDelete := map msg_id (skipn index (messages chat)) in
  let request := {| del_chatId := chatId;
                    del_messageIds := messageIdsToDelete |} in
  let (ts, w1) := Date_now w in
  let cut c := set_chat_timestamp ts
                 (set_messages (firstn index (messages c)) c) in
  let w2 := set_chats
              (sort_chats (update_first (has_id chat_id chatId) cut (chats w1)))
              w1 in
  match api with
  | Some e => ((Some e, request), w2)
  | None =>
      let w3 := persistChatMessages chatId w2 in
      let w4 := persistChatMeta chatId None (Some ts) w3 in
      ((None, request), syncActiveChat w4)
  end.

(** What an action of the store hands back: how its promise settles, and
    the deletion it asked of the backend, if any. *)
Definition Outcome : Type := (Settled * option DeleteRequest)%type.

(** [catch (error) { this.error = handleError(error, ...); throw error; }] *)
Definition caught (e : JsError) (fallback : string) (req : DeleteRequest)
    (w : World) : Outcome * World :=
  ((Rejected e, Some req), set_error (Some (handleError e fallback)) w).

(** [this.error = '...'; return;] *)
Definition refused (message : string) (w : World) : Outcome * World :=
  ((Resolved, None), set_error (Some (str message)) w).

(** deleteMessage of the store (lines 1606-1633). *)
Definition deleteMessage (chatId messageId : jsstring) (api : option JsError)
    (w : World) : Outcome * World :=
  match findById chat_id (chats w) chatId with
  | None => refused "Chat not found" w
  | Some chat =>
      match findIndex (has_id msg_id messageId) (messages chat) with
      | None => refused "Message not found" w
      | Some index =>
          match dropFrom chatId chat index api w with
          | ((None, req), w1) => ((Resolved, Some req), w1)
          | ((Some e, req), w1) =>
              caught e "Failed to delete message and subsequent messages"
                req w1
          end
      end
  end.

(** The attachment a stored message is sent again with
    ([cachedAttachmentMeta && cachedAttachmentContent ? {...} : null]). *)
Definition cached_attachment (m : Message) : option Attachment :=
  match attachmentMeta m, attachmentContent m with
  | Some (ty, meta), Some c =>
      if truthy c
      then Some {| att_content := c; att_type := ty; att_meta := Some meta |}
      else None
  | _, _ => None
  end.

(** The end the two resending actions share: the messages are cut off, then
    sendMessage is awaited; whatever is thrown reaches the [catch] of the
    action. *)
Definition drop_and_resend (chatId : jsstring) (chat : Chat) (index : nat)
    (content : jsstring) (att : option Attachment) (api : option JsError)
    (env : Collaborators) (fallback : string) (w : World)
  : Outcome * World :=
  match dropFrom chatId chat index api w with
  | ((Some e, req), w1) => caught e fallback req w1
  | ((None, req), w1) =>
      match sendMessage chatId content att env w1 with
      | (Rejected e, w2) => caught e fallback req w2
      | (Resolved, w2) => ((Resolved, Some req), w2)
      end
  end.

(** editMessage (lines 1547-1604). *)
Definition editMessage (chatId messageId newContent : jsstring)
    (dropFollowing : bool) (api : option JsError) (env : Collaborators)
    (w : World) : Outcome * World :=
  match findById chat_id (chats w) chatId with
  | None => refused "Chat not found" w
  | Some chat =>
      match findIndex (has_id msg_id messageId) (messages chat) with
      | None => refused "Message not found" w
      | Some index =>
          match nth_error (messages chat) index with
          | None => refused "Message not found" w
          | Some message =>
              match msg_role message with
              | user =>
                  if dropFollowing
                  then drop_and_resend chatId chat index newContent
                         (cached_attachment message) api env
                         "Failed to edit message" w
                  else
                    let edited :=
                      apply_update newContent None None None None message in
                    let assign c :=
                      set_messages
                        (update_first (has_id msg_id messageId)
                           (fun _ => edited) (messages c)) c in
                    let w1 := set_chats
                                (update_first (has_id chat_id chatId) assign
                                   (chats w)) w in
                    ((Resolved, None),
                     syncActiveChat (persistMessage chatId edited w1))
              | _ => refused "Cannot edit non-user message" w
              end
          end
      end
  end.


End Actions.

End ChatStore.

Import ChatStore.

(* ================================================================== *)
(** ** The throttled writers ([stores/chat.ts], lines 801-804) *)
(* ================================================================== *)

Module Throttle.

(** The four writers the store wraps, with the window each is given. *)
Inductive Kind := SaveChat | SaveMessageKind | SaveChatMetaKind | ReplaceMessages.

Definition window (k : Kind) : Z :=
  match k with
  | SaveChat => 2000
  | SaveMessageKind => 800
  | SaveChatMetaKind => 800
  | ReplaceMessages => 800
  end.

Section Writer.

Variable Snapshot : Type.

(** One throttled writer: the snapshot waiting to be written and the time
    its window closes, the content of the backing store, and the writes
    performed so far, oldest first. *)
Record Throttled := {
  pending : option (Snapshot * Z);
  stored : option Snapshot;
  writes : list Snapshot }.

Definition idle : Throttled :=
  {| pending := None; stored := None; writes := [] |}.

Definition write (s : Snapshot) (th : Throttled) : Throttled :=
  {| pending := None; stored := Some s; writes := writes th ++ [s] |}.

(** Modelled from the spec: createThrottledFunction of utils/helpers.ts is
    not among the sources.  Section 4.4: each kind is throttled with
    trailing-edge coalescing; the submissions of one window collapse to a
    single write of the most recent snapshot.  The first submission opens
    the window; a later one replaces the waiting snapshot and leaves the
    window as it is. *)
Definition submit (k : Kind) (now : Z) (s : Snapshot) (th : Throttled)
  : Throttled :=
  match pending th with
  | None =>
      {| pending := Some (s, (now + window k)%Z); stored := stored th;
         writes := writes th |}
  | Some (_, closes) =>
      {| pending := Some (s, closes); stored := stored th;
         writes := writes th |}
  end.

(** Modelled from the spec: the trailing edge of createThrottledFunction.
    When the window has closed the waiting snapshot is written. *)
Definition elapse (now : Z) (th : Throttled) : Throttled :=
  match pending th with
  | Some (s, closes) => if (closes <=? now)%Z then write s th else th
  | None => th
  end.

(** Modelled from the spec: [flush] of section 4.4 writes the waiting
    snapshot at once. *)
Definition flush (th : Throttled) : Throttled :=
  match pending th with
  | Some (s, _) => write s th
  | None => th
  end.

(** A burst: each submission arrives at its time, after the writer has
    been brought up to that time. *)
Definition burst (k : Kind) (subs : list (Z * Snapshot)) (th : Throttled)
  : Throttled :=
  fold_left (fun acc ts => submit k (fst ts) (snd ts) (elapse (fst ts) acc))
            subs th.

End Writer.

End Throttle.

(* ================================================================== *)
(** ** [utils/markdown.ts]: what the renderer does with the think tags *)
(* ================================================================== *)

Module Markdown.

Definition gt : N := 62.

(** [<name[^>]*>] at the head of [s], ignoring case; the result is what
    follows the closing [>]. *)
Definition match_open (name s : jsstring) : option jsstring :=
  match lit_ci (lt_char :: name) s with
  | Some r =>
      match skip_while (fun x => negb (x =? gt)%N) r with
      | x :: r' => if (x =? gt)%N then Some r' else None
      | [] => None
      end
  | None => None
  end.

Definition close_tag (name : jsstring) : jsstring :=
  str "</" ++ name ++ [gt].

(** [/<name[^>]*>[\s\S]*?<\/name>/i] at the head of [s]: a completed
    block. *)
Definition match_block (name s : jsstring) : option jsstring :=
  match match_open name s with
  | Some r => find_ci (close_tag name) r
  | None => None
  end.

(** [/<name[^>]*>[\s\S]*/i] at the head of [s]: an open tag and all that
    follows it. *)
Definition match_unclosed (name s : jsstring) : option jsstring :=
  match match_open name s with
  | Some _ => Some []
  | None => None
  end.

(** [text.replace(re, '')] with the [g] flag, for a pattern given by its
    match at the head of a string; [skip] counts the characters of the
    current match still to be dropped. *)
Fixpoint remove_matches (m : jsstring -> option jsstring) (skip : nat)
    (s : jsstring) : jsstring :=
  match s with
  | [] => []
  | c :: t =>
      match skip with
      | S k => remove_matches m k t
      | O =>
          match m s with
          | Some rest => remove_matches m (length t - length rest) t
          | None => c :: remove_matches m 0 t
          end
      end
  end.

Definition think : jsstring := str "think".
Definition analysis : jsstring := str "analysis".

(** removeThinkBlocks: completed blocks first, then what a block still
    streaming has left open. *)
Definition removeThinkBlocks (html : jsstring) : jsstring :=
  let r1 := remove_matches (match_block think) 0 html in
  let r2 := remove_matches (match_block analysis) 0 r1 in
  let r3 := remove_matches (match_unclosed think) 0 r2 in
  remove_matches (match_unclosed analysis) 0 r3.

End Markdown.

(* ================================================================== *)
(** * Vocabulary of the properties *)
(* ================================================================== *)

(** ** Prompt assembly *)

Definition notWhiteSpace (c : N) : bool := negb (isWhiteSpace c).

(** The loop of mergeConsecutiveRoles passes over an entry that is empty or
    white space only ([if (!content.trim()) continue]). *)
Definition nonblank (m : ChatMessage) : bool := truthy (trim (content m)).

(** No two neighbours of the list have the same role. *)
Fixpoint alternating (l : list ChatMessage) : Prop :=
  match l with
  | a :: (b :: _) as t => role a <> role b /\ alternating t
  | _ => True
  end.

Definition count_role (r : Role) (l : list ChatMessage) : nat :=
  length (filter (fun e => Role_eqb (role e) r) l).

(** What the loop keeps true of [merged]. *)
Definition merged_ok (acc : list ChatMessage) : Prop :=
  alternating acc /\ Forall (fun e => nonblank e = true) acc.

(** The merge as the specification words it: each run of neighbours with
    one role becomes one entry, its contents joined by a blank line. *)
Fixpoint merge_runs (l : list ChatMessage) : list ChatMessage :=
  match l with
  | [] => []
  | m :: rest =>
      match merge_runs rest with
      | q :: qs =>
          if Role_eqb (role m) (role q)
          then {| role := role m;
                  content := content m ++ blank_line ++ content q |} :: qs
          else {| role := role m; content := content m |} :: q :: qs
      | [] => [ {| role := role m; content := content m |} ]
      end
  end.

(** ** Stream interpretation *)

(** The part of a turn that classifies the stream: the mode, the rolling
    buffer, the accumulated text and the encoding latch. *)
Record View := {
  v_inThink : bool;
  v_buffer : jsstring;
  v_content : jsstring;
  v_channel : bool }.

Definition view (t : Turn) : View :=
  {| v_inThink := isInThinkBlock t; v_buffer := thinkTagBuffer t;
     v_content := assistantContent t; v_channel := usesThinkingField t |}.

(** The mode after updateThinkStateFromChunk has looked at the buffer. *)
Definition next_mode (inThink : bool) (combined : jsstring) : bool :=
  let opened := inThink || some_included THINK_OPEN_TAGS combined in
  if opened && some_included THINK_CLOSE_TAGS combined then false else opened.

(** The stages of the callback, on the view. *)
Definition open_view (v : View) : View :=
  {| v_inThink := true; v_buffer := v_buffer v;
     v_content := if v_inThink v then v_content v
                  else v_content v ++ str "<think>";
     v_channel := v_channel v |}.

Definition close_view (v : View) : View :=
  if v_channel v && v_inThink v
  then {| v_inThink := false; v_buffer := v_buffer v;
          v_content := v_content v ++ str "</think>";
          v_channel := v_channel v |}
  else v.

Definition detect_view (chunk : jsstring) (v : View) : View :=
  if v_channel v then v
  else
    let buffer := slice_from (-64) (v_buffer v ++ chunk) in
    {| v_inThink := next_mode (v_inThink v) buffer; v_buffer := buffer;
       v_content := v_content v; v_channel := v_channel v |}.

Definition append_view (chunk : jsstring) (v : View) : View :=
  {| v_inThink := v_inThink v; v_buffer := v_buffer v;
     v_content := v_content v ++ chunk; v_channel := v_channel v |}.

Definition latch_view (v : View) : View :=
  {| v_inThink := v_inThink v; v_buffer := v_buffer v;
     v_content := v_content v; v_channel := true |}.

(** What a fragment of regular content does to the view. *)
Definition content_view (chunk : jsstring) (v : View) : View :=
  if v_channel v
  then {| v_inThink := false; v_buffer := v_buffer v;
          v_content :=
            (if v_inThink v then v_content v ++ str "</think>" else v_content v)
            ++ chunk;
          v_channel := true |}
  else
    let buffer := slice_from (-64) (v_buffer v ++ chunk) in
    {| v_inThink := next_mode (v_inThink v) buffer; v_buffer := buffer;
       v_content := v_content v ++ chunk; v_channel := false |}.

(** What a fragment of the reasoning channel does to the view. *)
Definition thinking_view (chunk : jsstring) (v : View) : View :=
  {| v_inThink := true; v_buffer := v_buffer v;
     v_content :=
       (if v_inThink v then v_content v else v_content v ++ str "<think>")
       ++ chunk;
     v_channel := true |}.

(** A line of the stream as the fragment the callback takes it for, if any:
    the [thinking] field wins over the content. *)
Inductive Fragment := Reasoning (text : jsstring) | Answer (text : jsstring).

Definition classify (isImage : bool) (d : Data) : option Fragment :=
  if truthy_opt (message_thinking d)
  then Some (Reasoning (num_str (message_thinking d)))
  else
    let chunk := if isImage then response d else message_content d in
    if truthy_opt chunk then Some (Answer (num_str chunk)) else None.

Definition fragments (isImage : bool) (events : list Event) : list Fragment :=
  flat_map (fun e => match e with
                     | Chunk d => match classify isImage d with
                                  | Some f => [f]
                                  | None => []
                                  end
                     | Tick => []
                     end) events.

Definition fragment_view (f : Fragment) (v : View) : View :=
  match f with
  | Reasoning c => thinking_view c v
  | Answer c => content_view c v
  end.

Definition run_view (fs : list Fragment) (v : View) : View :=
  fold_left (fun acc f => fragment_view f acc) fs v.

(** The text of a stream in the tag encoding, as the specification has it:
    reasoning stands between an open and a close marker, the close marker
    coming where the answer takes over.  [inThink] tells whether a block is
    open where the fragments start. *)
Fixpoint tagged (inThink : bool) (fs : list Fragment) : jsstring :=
  match fs with
  | [] => []
  | Reasoning c :: rest =>
      (if inThink then [] else str "<think>") ++ c ++ tagged true rest
  | Answer c :: rest =>
      (if inThink then str "</think>" else []) ++ c ++ tagged false rest
  end.

Definition content_event (c : jsstring) : Event :=
  Chunk {| message_thinking := None; message_content := Some c;
           response := None |}.

Definition thinking_event (c : jsstring) : Event :=
  Chunk {| message_thinking := Some c; message_content := None;
           response := None |}.

(** The view of a turn that has read [text] as regular content, tag
    encoding, all of it still in the rolling buffer. *)
Definition tag_view (text : jsstring) : View :=
  {| v_inThink := next_mode false text; v_buffer := text;
     v_content := text; v_channel := false |}.

(** ** Metrics and the record of a turn *)

(** The number is no less than the literal 0.001, which is above zero. *)
Definition at_least_epsilon (x : Number) : Prop :=
  match x, round (1 # 1000) with
  | Finite d, Finite epsilon => (0 < epsilon)%Q /\ (epsilon <= d)%Q
  | Infinity false, _ => True
  | _, _ => False
  end.

(** Half a unit in the last place of a binary64 value, as a part of the
    value: 2^-53. *)
Definition roundoff : Q := 1 # 9007199254740992.

(** The part of a value that the roundings of the speed can move it by:
    2^-51. *)
Definition tolerance : Q := 1 # 2251799813685248.

(** [x] is [ideal] to within the tolerance. *)
Definition within (ideal x : Q) : Prop :=
  (ideal * (1 - tolerance) <= x)%Q /\ (x <= ideal * (1 + tolerance))%Q.

(** The speed reported with a count of characters that a string can have
    (its length is below 2^53) is finite and not negative. *)
Definition speed_ok (e : Extra) : Prop :=
  forall v n, e_speedCps e = Some v -> e_outputChars e = Some n ->
    (n < 2 ^ 53)%Z -> exists q, v = Finite q /\ (0 <= q)%Q.

Definition latency_ok (e : Extra) : Prop :=
  forall a b, e_firstTokenMs e = Some a -> e_responseMs e = Some b ->
    (a <= b)%Z.

(** Every update sent with metrics carries sound metrics. *)
Definition metrics_ok (e : IO) : Prop :=
  match e with
  | IoUpdateMessage _ _ _ _ _ _ (Some x) => speed_ok x /\ latency_ok x
  | _ => True
  end.

(** [w'] comes after [w]: the clock has not been set back, and what was
    done in between satisfies [P]. *)
Definition follows (P : IO -> Prop) (w w' : World) : Prop :=
  (clock_reads w <= clock_reads w')%nat
  /\ exists done, io w' = io w ++ done /\ Forall P done.

Definition monotone (now_at : nat -> Z) : Prop :=
  forall i j, (i <= j)%nat -> (now_at i <= now_at j)%Z.

(** The first fragment was stamped with a reading of the clock already
    taken. *)
Definition stamped_before (now_at : nat -> Z) (t : Turn) (w : World) : Prop :=
  forall f, firstTokenTime t = Some f -> (f <= now_at (clock_reads w))%Z.

(** ** Preconditions of a turn *)

(** No model is available: the guard [!this.models.length]. *)
Definition no_model_available (c : Config) : Prop := models c = [].

Definition nothing_to_send (content : jsstring) (att : option Attachment)
  : Prop :=
  truthy (trim content) = false /\ att = None.

(** ** Sample data for the worked examples *)

(** A stored message with none of its optional fields set. *)
Definition plain_message (id : string) (r : Role) (c : string) (ts : Z)
  : Message :=
  {| msg_id := str id; msg_content := str c; msg_role := r;
     msg_timestamp := ts; attachmentMeta := None; attachmentContent := None;
     isLoading := None; thinkTime := None; isThinking := None;
     firstTokenMs := None; responseMs := None; outputChars := None;
     speedCps := None |}.

Definition plain_chat (sp : SystemPromptField) (ms : list Message) : Chat :=
  {| chat_id := str "c1"; chat_title := str "Trip"; chat_timestamp := 5;
     systemPrompt := sp; messages := ms |}.

Definition sample_clock (n : nat) : Z := (1000 + 10 * Z.of_nat n)%Z.

Definition sample_uuid (n : nat) : jsstring := str "id-" ++ [N.of_nat (48 + n)].

Definition sample_handleError (e : JsError) (fallback : string) : jsstring :=
  match e with
  | Error m => str m
  | AbortError => str fallback
  end.

Definition sample_config : Config :=
  {| models := [ {| model_name := str "qwen3" |} ];
     settings_selectedModel := []; settings_systemModel := [];
     settings_maxMessages := 20;
     settings_defaultChatTitle := str "New chat";
     getMemoryContent := None; thinkOptions := None |}.

(** A store with one chat, titled and empty, and nothing in flight. *)
Definition sample_world : World :=
  {| cfg := sample_config; chats := [plain_chat SPNull []];
     activeChatId := str "c1"; activeChat := None;
     isGeneratingTitle := false; isSending := false;
     abortController := None; error := None; clock_reads := 0;
     uuids_drawn := 0; timers_created := 0; live_timers := []; io := [] |}.

Definition example_text : jsstring := str "<think>reasoning</think> answer".

Definition example_fragments : list jsstring :=
  [str "<th"; str "ink>reasoning</th"; str "ink> answer"].

(** A reasoning block longer than the rolling buffer, not yet closed. *)
Definition long_reasoning : jsstring := str "<think>" ++ repeat 120%N 64.

(** A turn whose stream breaks after the fragment "partial". *)
Definition sample_transport_error : Collaborators :=
  {| side := SideContext [] [];
     fetched := FetchResponse [content_event (str "partial")]
                  (StreamFailed (Error "network error"));
     title := None |}.

(** A turn the user stops after the fragment "partial". *)
Definition sample_abort_answering : Collaborators :=
  {| side := SideContext [] [];
     fetched := FetchResponse [content_event (str "partial")] StreamAborted;
     title := None |}.

(** A turn the user stops in the middle of the reasoning. *)
Definition sample_abort_reasoning : Collaborators :=
  {| side := SideContext [] [];
     fetched := FetchResponse [content_event (str "<think>hm")] StreamAborted;
     title := None |}.

(** A turn that runs to the end of its stream. *)
Definition sample_completion : Collaborators :=
  {| side := SideContext [] [];
     fetched := FetchResponse [content_event (str "partial")] StreamDone;
     title := None |}.

(** The content and the loading flag of the last message of the first
    chat. *)
Definition last_message_state (w : World) : option (Role * jsstring * option bool) :=
  match chats w with
  | c :: _ =>
      match last_opt (messages c) with
      | Some m => Some (msg_role m, msg_content m, isLoading m)
      | None => None
      end
  | [] => None
  end.

(** A turn whose stream carries reasoning, then the answer. *)
Definition sample_answers : Collaborators :=
  {| side := SideContext [] [];
     fetched := FetchResponse
                  [thinking_event (str "plan"); Tick;
                   content_event (str "done")] StreamDone;
     title := None |}.

(** ** Vocabulary of the further properties *)

(** The text has no character [<]. *)
Definition no_lt (s : jsstring) : Prop := Forall (fun c => c <> lt_char) s.

(** [a] is the beginning of [b]. *)
Definition prefix_of {A} (a b : list A) : Prop := exists rest, b = a ++ rest.

(** The ids of the chats are pairwise distinct. *)
Definition unique_chat_ids (cs : list Chat) : Prop := NoDup (map chat_id cs).

(** Most recent first. *)
Definition recent_first (a b : Chat) : Prop :=
  (chat_timestamp b <= chat_timestamp a)%Z.

(** The messages of all chats, counted. *)
Definition total_messages (cs : list Chat) : nat :=
  list_sum (map (fun c => length (messages c)) cs).

Definition is_image_attachment (a : option Attachment) : Prop :=
  exists img meta,
    a = Some {| att_content := img; att_type := IMAGE; att_meta := meta |}.

(** The ids of the messages of a chat, in their order; [None] when the
    store has no chat of that id. *)
Definition message_ids (chatId : jsstring) (w : World)
  : option (list jsstring) :=
  option_map (fun c => map msg_id (messages c))
             (findById chat_id (chats w) chatId).

(** [w'] has the settings, the active id and the error text of [w]; its
    chats have distinct ids, and every chat but [chatId] is as it is in
    [w]. *)
Definition keeps_but (chatId : jsstring) (w w' : World) : Prop :=
  cfg w' = cfg w /\ activeChatId w' = activeChatId w /\ error w' = error w
  /\ unique_chat_ids (chats w')
  /\ (forall other, other <> chatId ->
        findById chat_id (chats w') other = findById chat_id (chats w) other).

(** Where a turn on the chat [chatId] that started in [w0] stands in [w]:
    nothing but that chat has changed, and its messages have the ids
    [ids]. *)
Definition turn_state (chatId : jsstring) (w0 : World) (ids : list jsstring)
    (w : World) : Prop :=
  keeps_but chatId w0 w /\ message_ids chatId w = Some ids.

(** A step that leaves a turn where it stands. *)
Definition steady (chatId : jsstring) (w w' : World) : Prop :=
  forall w0 ids, turn_state chatId w0 ids w -> turn_state chatId w0 ids w'.

(** The id of the assistant message of the turn, once it has one. *)
Definition assistant_ids (t : Turn) : list jsstring :=
  match assistantMessageId t with Some id => [id] | None => [] end.

(** The intervals of the store while a turn runs: the handles in use are
    handles that have been given out, and they are those that were live
    when the turn started, [before], and the interval of the turn if it
    has one. *)
Definition timers_settled (before : list nat) (t : Turn) (w : World) : Prop :=
  Forall (fun h => (h <= timers_created w)%nat) (live_timers w)
  /\ match thinkTimeInterval t with
     | Some h => live_timers w = h :: before /\ ~ In h before
     | None => live_timers w = before
     end.

(** The assistant message of the turn, if it has one, has an id that
    [crypto.randomUUID] returned. *)
Definition drawn_id (uuid_at : nat -> jsstring) (t : Turn) : Prop :=
  match assistantMessageId t with
  | Some id => exists k, id = uuid_at k
  | None => True
  end.

(** ** Samples for the preconditions and for the clock *)

(** A clock that is set back by 10 ms before every reading: [Date.now()]
    reads the clock of the system, which its user or a time service may
    move. *)
Definition clock_set_back (n : nat) : Z := (1000 - 10 * Z.of_nat n)%Z.

(** The first-token latency and the response time of the last message of
    the first chat. *)
Definition last_message_timing (w : World) : option (option Z * option Z) :=
  match chats w with
  | c :: _ =>
      match last_opt (messages c) with
      | Some m => Some (firstTokenMs m, responseMs m)
      | None => None
      end
  | [] => None
  end.

(** The first-token latency and the response time of the updates in which
    the latency is above the response time. *)
Definition out_of_order (log : list IO) : list (Z * Z) :=
  flat_map (fun e =>
              match e with
              | IoUpdateMessage _ _ _ _ _ _ (Some x) =>
                  match e_firstTokenMs x, e_responseMs x with
                  | Some a, Some b => if (b <? a)%Z then [(a, b)] else []
                  | _, _ => []
                  end
              | _ => []
              end) log.

(** The settings name no model, and the one model of the list has an empty
    name: the getter [selectedModel] yields the empty string. *)
Definition unnamed_model_config : Config :=
  {| models := [ {| model_name := [] |} ];
     settings_selectedModel := []; settings_systemModel := [];
     settings_maxMessages := 20;
     settings_defaultChatTitle := str "New chat";
     getMemoryContent := None; thinkOptions := None |}.

Definition unnamed_model_world : World :=
  {| cfg := unnamed_model_config; chats := [plain_chat SPNull []];
     activeChatId := str "c1"; activeChat := None;
     isGeneratingTitle := false; isSending := false;
     abortController := None; error := None; clock_reads := 0;
     uuids_drawn := 0; timers_created := 0; live_timers := []; io := [] |}.

(* END VOCABULARY *)

(* ================================================================== *)
(** * Properties *)
(* ================================================================== *)

Unset Implicit Arguments.

(** ** Strings *)

Lemma truthy_trim (c : jsstring) : truthy (trim c) = true -> truthy c = true.
Proof. destruct c; [discriminate | reflexivity]. Qed.

Lemma truthy_skip_while (f : N -> bool) (s : jsstring) :
  truthy (skip_while f s) = existsb (fun c => negb (f c)) s.
Proof.
  induction s as [|c t IH]; [reflexivity|].
  simpl. destruct (f c); [exact IH | reflexivity].
Qed.

Lemma existsb_skip_while (f : N -> bool) (s : jsstring) :
  existsb (fun c => negb (f c)) (skip_while f s)
  = existsb (fun c => negb (f c)) s.
Proof.
  induction s as [|c t IH]; [reflexivity|].
  simpl. destruct (f c) eqn:E; simpl; [exact IH | now rewrite E].
Qed.

Lemma truthy_rev (s : jsstring) : truthy (rev s) = truthy s.
Proof.
  destruct s as [|c t]; [reflexivity|].
  simpl. now destruct (rev t).
Qed.

Lemma existsb_rev' (f : N -> bool) (s : jsstring) :
  existsb f (rev s) = existsb f s.
Proof.
  induction s as [|c t IH]; [reflexivity|].
  simpl. rewrite existsb_app, IH. simpl. rewrite orb_false_r. apply orb_comm.
Qed.

(** A string survives [trim] exactly when it has a character that is not
    white space. *)
Lemma truthy_trim_existsb (s : jsstring) :
  truthy (trim s) = existsb notWhiteSpace s.
Proof.
  unfold trim, trimEnd, trimStart, notWhiteSpace.
  rewrite truthy_rev, truthy_skip_while, existsb_rev'.
  apply existsb_skip_while.
Qed.

(** ** mergeConsecutiveRoles *)

Lemma Role_eqb_eq (a b : Role) : Role_eqb a b = true <-> a = b.
Proof. destruct a, b; simpl; split; intros H; try reflexivity; discriminate. Qed.

Lemma Role_eqb_neq (a b : Role) : Role_eqb a b = false <-> a <> b.
Proof.
  destruct a, b; simpl; split; intros H; try reflexivity;
    try discriminate; try (exfalso; apply H; reflexivity).
Qed.

Lemma last_opt_snoc {A} (l : list A) (x : A) : last_opt (l ++ [x]) = Some x.
Proof. unfold last_opt. now rewrite rev_app_distr. Qed.

Lemma last_opt_inv {A} (l : list A) :
  match last_opt l with
  | None => l = []
  | Some p => exists l0, l = l0 ++ [p]
  end.
Proof.
  destruct l as [|x l'] using rev_ind; [reflexivity|].
  rewrite last_opt_snoc. now exists l'.
Qed.

Lemma alternating_snoc (l : list ChatMessage) (p m : ChatMessage) :
  alternating (l ++ [p]) -> role p <> role m -> alternating ((l ++ [p]) ++ [m]).
Proof.
  induction l as [|a l IH]; simpl.
  - intros _ H. split; [exact H | exact I].
  - destruct l as [|b l']; simpl in *.
    + intros [H1 _] H2. repeat split; assumption.
    + intros [H1 H2] H3. split; [exact H1 | now apply IH].
Qed.

Lemma alternating_replace_last (l : list ChatMessage) (p q : ChatMessage) :
  alternating (l ++ [p]) -> role q = role p -> alternating (l ++ [q]).
Proof.
  induction l as [|a l IH]; simpl; [trivial|].
  destruct l as [|b l']; simpl in *.
  - intros [H1 _] H2. rewrite H2. split; [exact H1 | exact I].
  - intros [H1 H2] H3. split; [exact H1 | now apply IH].
Qed.

(** The four cases of one turn of the loop. *)
Lemma merge_step_blank (acc : list ChatMessage) (m : ChatMessage) :
  nonblank m = false -> merge_step acc m = acc.
Proof. unfold merge_step, nonblank. now intros ->. Qed.

Lemma merge_step_first (m : ChatMessage) :
  nonblank m = true ->
  merge_step [] m = [ {| role := role m; content := content m |} ].
Proof. unfold merge_step, nonblank. now intros ->. Qed.

Lemma merge_step_same (l : list ChatMessage) (p m : ChatMessage) :
  nonblank m = true -> role p = role m -> truthy (content p) = true ->
  merge_step (l ++ [p]) m =
  l ++ [ {| role := role p;
            content := content p ++ blank_line ++ content m |} ].
Proof.
  unfold merge_step, nonblank. intros Hm Hr Hp.
  rewrite Hm, last_opt_snoc. simpl negb. cbv iota.
  apply Role_eqb_eq in Hr. rewrite Hr, removelast_last.
  simpl filter. rewrite Hp, (truthy_trim _ Hm). reflexivity.
Qed.

Lemma merge_step_other (l : list ChatMessage) (p m : ChatMessage) :
  nonblank m = true -> role p <> role m ->
  merge_step (l ++ [p]) m =
  (l ++ [p]) ++ [ {| role := role m; content := content m |} ].
Proof.
  unfold merge_step, nonblank. intros Hm Hr.
  rewrite Hm, last_opt_snoc. simpl negb. cbv iota.
  apply Role_eqb_neq in Hr. now rewrite Hr.
Qed.

Lemma merge_step_ok (acc : list ChatMessage) (m : ChatMessage) :
  merged_ok acc -> merged_ok (merge_step acc m).
Proof.
  intros [Ha Hn].
  destruct (nonblank m) eqn:Hm; [|now rewrite merge_step_blank].
  pose proof (last_opt_inv acc) as Hl.
  destruct (last_opt acc) as [p|].
  - destruct Hl as [l ->].
    assert (Hp : nonblank p = true).
    { rewrite Forall_app in Hn. destruct Hn as [_ Hn]. now inversion Hn. }
    destruct (Role_eqb (role p) (role m)) eqn:Hr.
    + apply Role_eqb_eq in Hr.
      rewrite merge_step_same by (auto; now apply truthy_trim).
      split.
      * now apply alternating_replace_last with (p := p).
      * rewrite Forall_app in *. split; [apply Hn|].
        constructor; [|constructor].
        unfold nonblank in *. simpl.
        rewrite truthy_trim_existsb in *. rewrite existsb_app, Hp.
        reflexivity.
    + apply Role_eqb_neq in Hr. rewrite merge_step_other by auto.
      split.
      * now apply alternating_snoc.
      * rewrite Forall_app. split; [exact Hn|]. now repeat constructor.
  - subst acc. rewrite merge_step_first by exact Hm.
    split; [exact I|]. now repeat constructor.
Qed.

Lemma merged_ok_fold (l acc : list ChatMessage) :
  merged_ok acc -> merged_ok (fold_left merge_step l acc).
Proof.
  revert acc. induction l as [|m l IH]; intros acc H; [exact H|].
  simpl. apply IH. now apply merge_step_ok.
Qed.

Lemma join_merge2 (sep : jsstring) (xs : list jsstring) (a b : jsstring)
    (rest : list jsstring) :
  join sep (xs ++ a :: b :: rest) = join sep (xs ++ (a ++ sep ++ b) :: rest).
Proof.
  induction xs as [|x xs IH].
  - destruct rest as [|r rs]; [reflexivity|].
    change (a ++ sep ++ b ++ sep ++ join sep (r :: rs)
            = (a ++ sep ++ b) ++ sep ++ join sep (r :: rs)).
    now rewrite <- !app_assoc.
  - destruct xs as [|y ys].
    + change (x ++ sep ++ join sep ([] ++ a :: b :: rest)
              = x ++ sep ++ join sep ([] ++ (a ++ sep ++ b) :: rest)).
      now rewrite IH.
    + change (x ++ sep ++ join sep ((y :: ys) ++ a :: b :: rest)
              = x ++ sep ++ join sep ((y :: ys) ++ (a ++ sep ++ b) :: rest)).
      now rewrite IH.
Qed.

(** One turn of the loop leaves the blank-line join of the contents what it
    would be had the entry simply been appended. *)
Lemma merge_step_join (acc : list ChatMessage) (m : ChatMessage)
    (rest : list jsstring) :
  merged_ok acc -> nonblank m = true ->
  join blank_line (map content (merge_step acc m) ++ rest)
  = join blank_line (map content acc ++ content m :: rest).
Proof.
  intros [_ Hn] Hm.
  pose proof (last_opt_inv acc) as Hl.
  destruct (last_opt acc) as [p|] eqn:E.
  - destruct Hl as [l ->].
    assert (Hp : nonblank p = true).
    { rewrite Forall_app in Hn. destruct Hn as [_ Hn]. now inversion Hn. }
    destruct (Role_eqb (role p) (role m)) eqn:Hr.
    + apply Role_eqb_eq in Hr.
      rewrite merge_step_same by (auto; now apply truthy_trim).
      rewrite !map_app. simpl map. rewrite <- !app_assoc. simpl app.
      symmetry. apply join_merge2.
    + apply Role_eqb_neq in Hr. rewrite merge_step_other by auto.
      rewrite !map_app. simpl map. now rewrite <- !app_assoc.
  - subst acc. now rewrite merge_step_first.
Qed.

Lemma merge_fold_join (l acc : list ChatMessage) :
  merged_ok acc ->
  join blank_line (map content (fold_left merge_step l acc))
  = join blank_line (map content acc ++ map content (filter nonblank l)).
Proof.
  revert acc. induction l as [|m l IH]; intros acc H.
  - simpl. now rewrite app_nil_r.
  - simpl. destruct (nonblank m) eqn:Hm.
    + rewrite IH by now apply merge_step_ok.
      simpl map. now apply merge_step_join.
    + rewrite merge_step_blank by exact Hm. now apply IH.
Qed.

Lemma merged_ok_nil : merged_ok [].
Proof. split; [exact I | constructor]. Qed.

(** A blank entry leaves no trace in the result, wherever it stands. *)
Lemma merge_skips_blank (l1 l2 : list ChatMessage) (e : ChatMessage) :
  nonblank e = false ->
  mergeConsecutiveRoles (l1 ++ e :: l2) = mergeConsecutiveRoles (l1 ++ l2).
Proof.
  intros He. unfold mergeConsecutiveRoles.
  rewrite !fold_left_app. simpl. now rewrite merge_step_blank.
Qed.

Lemma merge_filter_nonblank (l : list ChatMessage) :
  mergeConsecutiveRoles (filter nonblank l) = mergeConsecutiveRoles l.
Proof.
  unfold mergeConsecutiveRoles. generalize (@nil ChatMessage).
  induction l as [|m l IH]; intros acc; [reflexivity|].
  simpl. destruct (nonblank m) eqn:Hm; simpl.
  - apply IH.
  - rewrite merge_step_blank by exact Hm. apply IH.
Qed.

(** The loop never lengthens [merged] by more than the entry it reads. *)
Lemma merge_step_length (acc : list ChatMessage) (m : ChatMessage) :
  (length (merge_step acc m) <= S (length acc))%nat.
Proof.
  unfold merge_step.
  destruct (negb (truthy (trim (content m)))); [lia|].
  pose proof (last_opt_inv acc) as Hl.
  destruct (last_opt acc) as [p|].
  - destruct Hl as [l ->].
    destruct (Role_eqb (role p) (role m)).
    + rewrite removelast_last, !length_app. simpl. lia.
    + rewrite !length_app. simpl. lia.
  - subst acc. simpl. lia.
Qed.

Lemma merge_fold_length (l acc : list ChatMessage) :
  (length (fold_left merge_step l acc) <= length acc + length l)%nat.
Proof.
  revert acc. induction l as [|m l IH]; intros acc; simpl; [lia|].
  specialize (IH (merge_step acc m)).
  pose proof (merge_step_length acc m). lia.
Qed.

Lemma merge_length (l : list ChatMessage) :
  (length (mergeConsecutiveRoles l) <= length l)%nat.
Proof. apply (merge_fold_length l []). Qed.

Lemma count_role_app (r : Role) (a b : list ChatMessage) :
  count_role r (a ++ b) = (count_role r a + count_role r b)%nat.
Proof. unfold count_role. now rewrite filter_app, length_app. Qed.

Lemma merge_step_count (r : Role) (acc : list ChatMessage) (m : ChatMessage) :
  (count_role r (merge_step acc m) <= count_role r acc + count_role r [m])%nat.
Proof.
  unfold merge_step.
  destruct (negb (truthy (trim (content m)))); [lia|].
  pose proof (last_opt_inv acc) as Hl.
  destruct (last_opt acc) as [p|].
  - destruct Hl as [l ->].
    destruct (Role_eqb (role p) (role m)) eqn:Hr.
    + rewrite removelast_last, !count_role_app.
      unfold count_role. simpl.
      apply Role_eqb_eq in Hr. rewrite Hr.
      destruct (Role_eqb (role m) r); simpl; lia.
    + rewrite !count_role_app. unfold count_role. simpl.
      destruct (Role_eqb (role m) r); simpl; lia.
  - subst acc. unfold count_role. simpl.
    destruct (Role_eqb (role m) r); simpl; lia.
Qed.

Lemma merge_fold_count (r : Role) (l acc : list ChatMessage) :
  (count_role r (fold_left merge_step l acc)
   <= count_role r acc + count_role r l)%nat.
Proof.
  revert acc. induction l as [|m l IH]; intros acc; simpl; [lia|].
  specialize (IH (merge_step acc m)).
  pose proof (merge_step_count r acc m).
  change (m :: l) with ([m] ++ l). rewrite count_role_app. lia.
Qed.

Lemma merge_count (r : Role) (l : list ChatMessage) :
  (count_role r (mergeConsecutiveRoles l) <= count_role r l)%nat.
Proof. apply (merge_fold_count r l []). Qed.

(** *** The loop against the merge of runs *)

Lemma ChatMessage_eta (p : ChatMessage) :
  {| role := role p; content := content p |} = p.
Proof. now destruct p. Qed.

Lemma merge_runs_head (m : ChatMessage) (l : list ChatMessage) :
  exists h t, merge_runs (m :: l) = h :: t /\ role h = role m.
Proof.
  simpl. destruct (merge_runs l) as [|q qs]; [now eexists _, _|].
  destruct (Role_eqb (role m) (role q)); now eexists _, _.
Qed.

Lemma merge_runs_absorb (p m : ChatMessage) (l : list ChatMessage) :
  role p = role m ->
  merge_runs ({| role := role p;
                 content := content p ++ blank_line ++ content m |} :: l)
  = merge_runs (p :: m :: l).
Proof.
  intros Hr. simpl. destruct (merge_runs l) as [|q qs]; simpl.
  - apply Role_eqb_eq in Hr. now rewrite Hr.
  - rewrite <- Hr.
    destruct (Role_eqb (role p) (role q)) eqn:E; simpl.
    + rewrite (proj2 (Role_eqb_eq _ _) eq_refl).
      now rewrite <- !app_assoc.
    + now rewrite (proj2 (Role_eqb_eq _ _) eq_refl).
Qed.

Lemma merge_runs_keep (p m : ChatMessage) (l : list ChatMessage) :
  role p <> role m ->
  merge_runs (p :: m :: l) = p :: merge_runs (m :: l).
Proof.
  intros Hr. destruct (merge_runs_head m l) as (h & t & E & Hh).
  change (merge_runs (p :: m :: l))
    with (match merge_runs (m :: l) with
          | q :: qs =>
              if Role_eqb (role p) (role q)
              then {| role := role p;
                      content := content p ++ blank_line ++ content q |} :: qs
              else {| role := role p; content := content p |} :: q :: qs
          | [] => [ {| role := role p; content := content p |} ]
          end).
  rewrite E, Hh. apply Role_eqb_neq in Hr. rewrite Hr.
  now rewrite ChatMessage_eta.
Qed.

Lemma merge_fold_runs (l l0 : list ChatMessage) (p : ChatMessage) :
  truthy (content p) = true ->
  fold_left merge_step l (l0 ++ [p])
  = l0 ++ merge_runs (p :: filter nonblank l).
Proof.
  revert l0 p. induction l as [|m l IH]; intros l0 p Hp.
  - simpl. now rewrite ChatMessage_eta.
  - simpl fold_left. simpl filter. destruct (nonblank m) eqn:Hm.
    + destruct (Role_eqb (role p) (role m)) eqn:Hr.
      * apply Role_eqb_eq in Hr. rewrite merge_step_same by auto.
        rewrite IH by (simpl; now destruct (content p)).
        now rewrite merge_runs_absorb.
      * apply Role_eqb_neq in Hr. rewrite merge_step_other by auto.
        rewrite IH by (simpl; now apply truthy_trim).
        rewrite merge_runs_keep by exact Hr.
        now rewrite <- app_assoc.
    + rewrite merge_step_blank by exact Hm. now apply IH.
Qed.

Lemma merge_is_merge_runs (l : list ChatMessage) :
  mergeConsecutiveRoles l = merge_runs (filter nonblank l).
Proof.
  unfold mergeConsecutiveRoles.
  induction l as [|m l IH]; [reflexivity|].
  simpl fold_left. simpl filter. destruct (nonblank m) eqn:Hm.
  - rewrite merge_step_first by exact Hm.
    apply (merge_fold_runs l []). simpl. now apply truthy_trim.
  - rewrite merge_step_blank by exact Hm. exact IH.
Qed.

(** C3, as stated, fails: an entry of white space is dropped, so its content
    is in no entry of the result. *)
Lemma C3_blank_entry_dropped :
  let input := [ {| role := user; content := str " " |} ] in
  ~ (forall m, In m input ->
       exists e, In e (mergeConsecutiveRoles input)
                 /\ role e = role m
                 /\ includes (content m) (content e) = true).
Proof.
  intros input H.
  destruct (H _ (or_introl eq_refl)) as (e & He & _).
  exact He.
Qed.

(** C3, amended: for every input list, no two neighbours of the result of
    mergeConsecutiveRoles have one role; the result is the input without its
    blank entries (empty or white space only), each run of one role merged
    into one entry by joining the contents with a blank line; and of the
    other entries nothing is lost: the blank-line join of the contents of the
    result is that of the non-blank entries of the input. *)
Theorem C3_merge_alternates_and_keeps_content (msgs : list ChatMessage) :
  alternating (mergeConsecutiveRoles msgs)
  /\ mergeConsecutiveRoles msgs = merge_runs (filter nonblank msgs)
  /\ join blank_line (map content (mergeConsecutiveRoles msgs))
     = join blank_line (map content (filter nonblank msgs)).
Proof.
  split; [|split].
  - apply (merged_ok_fold msgs [] merged_ok_nil).
  - apply merge_is_merge_runs.
  - apply (merge_fold_join msgs [] merged_ok_nil).
Qed.

(** ** buildOllamaRequestBody *)

Lemma build_chat_body (chat : Chat) (model uid final : jsstring)
    (att : option Attachment) (mem : option jsstring) (M : Z)
    (opts : option Options) (model' : jsstring) (msgs : list ChatMessage)
    (th : option ThinkOption) :
  buildOllamaRequestBody (Some chat) model uid final att mem M opts
  = inr (ChatBody model' msgs th) ->
  msgs = mergeConsecutiveRoles (rawMessages chat uid final mem M).
Proof.
  unfold buildOllamaRequestBody.
  destruct (negb (truthy model)); [discriminate|].
  destruct (negb (truthy uid)); [discriminate|].
  destruct att as [[img [|] meta]|].
  - destruct (negb (existsb _ _)); [discriminate|].
    intros H. now inversion H.
  - destruct (negb (truthy img)); discriminate.
  - destruct (negb (existsb _ _)); [discriminate|].
    intros H. now inversion H.
Qed.

Lemma slice_from_last_length {A} (k : Z) (xs : list A) :
  (0 < k)%Z -> (Z.of_nat (length (slice_from (- k) xs)) <= k)%Z.
Proof.
  intros Hk. unfold slice_from.
  destruct (Z.ltb_spec (- k) 0) as [_|H]; [|lia].
  rewrite length_skipn. lia.
Qed.

Lemma Forall_skipn' {A} (P : A -> Prop) (n : nat) (xs : list A) :
  Forall P xs -> Forall P (skipn n xs).
Proof.
  revert xs. induction n as [|n IH]; intros xs H; [exact H|].
  destruct xs as [|x xs]; [constructor|].
  simpl. apply IH. now inversion H.
Qed.

Lemma count_role_none (r : Role) (l : list ChatMessage) :
  Forall (fun e => role e <> r) l -> count_role r l = 0%nat.
Proof.
  unfold count_role. induction 1 as [|e l He _ IH]; [reflexivity|].
  simpl. apply Role_eqb_neq in He. now rewrite He.
Qed.

Lemma systemContent_truthy (sys mem : option jsstring) :
  truthy (join [newline] (filter_Boolean [sys; mem])) = true ->
  truthy_opt sys || truthy_opt mem = true.
Proof.
  unfold filter_Boolean. simpl.
  destruct sys as [s|], mem as [m|]; simpl;
    try destruct (truthy s); try destruct (truthy m); simpl;
    auto; discriminate.
Qed.

Lemma rawMessages_length (chat : Chat) (uid final : jsstring)
    (mem : option jsstring) (M : Z) :
  (0 < availableSlots M (systemPromptContent chat) mem)%Z ->
  (Z.of_nat (length (rawMessages chat uid final mem M))
   <= effectiveMaxMessages M)%Z.
Proof.
  intros Hs. unfold rawMessages, selectedHistory, systemEntry.
  rewrite !length_app, length_map.
  pose proof (slice_from_last_length _
                (filter (is_history uid) (messages chat)) Hs) as Hw.
  set (window := slice_from _ _) in *.
  unfold availableSlots, reservedSlots in *.
  destruct (truthy (join _ _)) eqn:E.
  - apply systemContent_truthy in E. rewrite E in *. simpl length. lia.
  - destruct (truthy_opt _ || truthy_opt _); simpl length; lia.
Qed.

Lemma rawMessages_one_system (chat : Chat) (uid final : jsstring)
    (mem : option jsstring) (M : Z) :
  (count_role system (rawMessages chat uid final mem M) <= 1)%nat.
Proof.
  unfold rawMessages. rewrite !count_role_app.
  assert (H1 : count_role system
                 (map history_entry (selectedHistory chat uid mem M)) = 0%nat).
  { apply count_role_none. rewrite Forall_map.
    unfold selectedHistory, slice_from. apply Forall_skipn'.
    rewrite Forall_forall. intros m Hm.
    apply filter_In in Hm. destruct Hm as [_ Hm].
    unfold is_history in Hm. apply andb_true_iff in Hm.
    destruct Hm as [_ Hm]. simpl.
    now destruct (msg_role m). }
  rewrite H1. unfold systemEntry.
  destruct (truthy _); unfold count_role; simpl; lia.
Qed.

(** C1, as stated, fails where no slot is left for the history: with a
    system prompt and [maxMessages = 1] the prompt has its two reserved
    entries. *)
Lemma C1_reserved_entries_exceed_one :
  let chat := plain_chat (SPString (str "be brief"))
                [plain_message "u1" user "hi" 0] in
  availableSlots 1 (systemPromptContent chat) None = 0%Z
  /\ exists msgs,
       buildOllamaRequestBody (Some chat) (str "m") (str "u1") (str "hi")
         None None 1 None
       = inr (ChatBody (str "m") msgs None)
       /\ ~ (Z.of_nat (length msgs) <= 1)%Z.
Proof.
  split; [reflexivity|].
  eexists. split; [vm_compute; reflexivity|].
  simpl. lia.
Qed.

(** Where no slot is left, [slice(-0)] is [slice(0)]: the whole history goes
    into the prompt. *)
Lemma no_slot_keeps_whole_history :
  let chat := plain_chat SPNull
                [ plain_message "h1" user "hi" 0;
                  plain_message "h2" assistant "hello" 1;
                  plain_message "u1" user "more" 2 ] in
  availableSlots 1 (systemPromptContent chat) None = 0%Z
  /\ buildOllamaRequestBody (Some chat) (str "m") (str "u1") (str "more")
       None None 1 None
     = inr (ChatBody (str "m")
              [ {| role := user; content := str "hi" |};
                {| role := assistant; content := str "hello" |};
                {| role := user; content := str "more" |} ] None).
Proof. split; vm_compute; reflexivity. Qed.

(** C1, amended: on the path without an image the prompt has at most one
    system entry; and whenever a slot is left for the history
    ([availableSlots >= 1], which every value of the type [MaxMessages]
    gives) it has at most [maxMessages || 20] entries, the new user entry
    included, where [reservedSlots] and [availableSlots] are computed as the
    claim says. *)
Theorem C1_prompt_within_maxMessages (chat : Chat) (model uid final : jsstring)
    (att : option Attachment) (mem : option jsstring) (M : Z)
    (opts : option Options) (model' : jsstring) (msgs : list ChatMessage)
    (th : option ThinkOption) :
  buildOllamaRequestBody (Some chat) model uid final att mem M opts
  = inr (ChatBody model' msgs th) ->
  let sys := systemPromptContent chat in
  reservedSlots sys mem
    = ((if truthy_opt sys || truthy_opt mem then 1 else 0) + 1)%Z
  /\ availableSlots M sys mem
    = Z.max 0 (effectiveMaxMessages M - reservedSlots sys mem)
  /\ (count_role system msgs <= 1)%nat
  /\ ((0 < availableSlots M sys mem)%Z ->
      (Z.of_nat (length msgs) <= effectiveMaxMessages M)%Z)
  /\ (MaxMessages M ->
      (0 < availableSlots M sys mem)%Z /\ (Z.of_nat (length msgs) <= M)%Z).
Proof.
  intros H sys. apply build_chat_body in H. subst msgs.
  assert (Hbound : (0 < availableSlots M sys mem)%Z ->
     (Z.of_nat (length (mergeConsecutiveRoles
                          (rawMessages chat uid final mem M)))
      <= effectiveMaxMessages M)%Z).
  { intros Hs.
    pose proof (rawMessages_length chat uid final mem M Hs).
    pose proof (merge_length (rawMessages chat uid final mem M)). lia. }
  split; [reflexivity|]. split; [reflexivity|]. split; [|split].
  - pose proof (rawMessages_one_system chat uid final mem M).
    pose proof (merge_count system (rawMessages chat uid final mem M)). lia.
  - exact Hbound.
  - intros HM.
    assert (Hs : (0 < availableSlots M sys mem)%Z
                 /\ effectiveMaxMessages M = M).
    { unfold availableSlots, effectiveMaxMessages, reservedSlots.
      destruct (truthy_opt sys || truthy_opt mem);
        destruct HM as [-> | [-> | [-> | [-> | ->]]]]; simpl; lia. }
    destruct Hs as [Hs He]. split; [exact Hs|].
    specialize (Hbound Hs). lia.
Qed.

Lemma C1_prompt_within_maxMessages_witness :
  let chat := plain_chat SPNull
                [ plain_message "h1" user "hi" 0;
                  plain_message "h2" assistant "hello" 1;
                  plain_message "u1" user "more" 2 ] in
  let msgs := [ {| role := user; content := str "hi" |};
                {| role := assistant; content := str "hello" |};
                {| role := user; content := str "more" |} ] in
  buildOllamaRequestBody (Some chat) (str "m") (str "u1") (str "more")
    None None 5 None
  = inr (ChatBody (str "m") msgs None)
  /\ (count_role system msgs <= 1)%nat /\ (Z.of_nat (length msgs) <= 5)%Z.
Proof.
  intros chat msgs.
  assert (E : buildOllamaRequestBody (Some chat) (str "m") (str "u1")
                (str "more") None None 5 None
              = inr (ChatBody (str "m") msgs None)) by (vm_compute; reflexivity).
  split; [exact E|].
  destruct (C1_prompt_within_maxMessages _ _ _ _ _ _ _ _ _ _ _ E)
    as (_ & _ & Hc & _ & Hm).
  split; [exact Hc|].
  apply Hm. unfold MaxMessages. left. reflexivity.
Defined.

(** ** stripInternalContextBlocks *)

Lemma replace_internal_context_all (t : jsstring) (k : nat) :
  (length t <= k)%nat -> replace_internal_context k t = [].
Proof.
  revert k. induction t as [|c t IH]; intros k Hk; [reflexivity|].
  simpl in Hk. destruct k as [|k]; [lia|].
  simpl. apply IH. lia.
Qed.

(** A string that is one match of the pattern is removed whole. *)
Lemma strip_whole_match (s : jsstring) :
  match_internal_context s = Some [] -> stripInternalContextBlocks s = [].
Proof.
  intros H. unfold stripInternalContextBlocks.
  destruct s as [|c t]; [reflexivity|].
  simpl negb. cbv iota.
  unfold replace_internal_context; fold replace_internal_context.
  rewrite H. simpl length. rewrite Nat.sub_0_r.
  now rewrite replace_internal_context_all.
Qed.

Lemma find_ci_skip (p a r : jsstring) :
  Forall (fun c => c <> lt_char) a ->
  find_ci (lt_char :: p) (a ++ r) = find_ci (lt_char :: p) r.
Proof.
  induction 1 as [|c a Hc _ IH]; [reflexivity|].
  simpl app.
  unfold find_ci; fold find_ci.
  assert (E : lit_ci (lt_char :: p) (c :: a ++ r) = None).
  { assert (F : eq_ci lt_char c = false).
    { apply N.eqb_neq. unfold toUpperAscii, N_in, lt_char in *.
      destruct (N.leb_spec 97 c); destruct (N.leb_spec c 122); simpl; lia. }
    simpl. now rewrite F. }
  rewrite E. exact IH.
Qed.

Lemma replace_char_keeps (P : N -> Prop) (c : N) (rep v : jsstring) :
  Forall P rep -> Forall P v -> Forall P (replace_char c rep v).
Proof.
  intros Hr. unfold replace_char. induction 1 as [|x v Hx _ IH]; [constructor|].
  simpl. apply Forall_app. split; [|exact IH].
  destruct (x =? c)%N; [exact Hr | now constructor].
Qed.

Lemma replace_char_removes (c : N) (rep v : jsstring) :
  Forall (fun x => x <> c) rep -> Forall (fun x => x <> c) (replace_char c rep v).
Proof.
  intros Hr. unfold replace_char. induction v as [|x v IH]; [constructor|].
  simpl. apply Forall_app. split; [|exact IH].
  destruct (N.eqb_spec x c); [exact Hr | now constructor].
Qed.

Lemma escapeHtml_no_lt (v : jsstring) :
  Forall (fun c => c <> lt_char) (escapeHtml v).
Proof.
  unfold escapeHtml.
  do 3 (apply replace_char_keeps;
        [repeat constructor; unfold lt_char; discriminate|]).
  apply replace_char_removes.
  repeat constructor; discriminate.
Qed.

Lemma find_ci_cons_fail (p : jsstring) (c : N) (s : jsstring) :
  lit_ci p (c :: s) = None -> find_ci p (c :: s) = find_ci p s.
Proof. intros H. unfold find_ci; fold find_ci. now rewrite H. Qed.

(** Every block toDetailsBlock writes is one match of the pattern. *)
Lemma toDetailsBlock_matches (title body : jsstring) :
  match_internal_context (toDetailsBlock title body) = Some [].
Proof.
  unfold toDetailsBlock, match_internal_context.
  cbn -[find_ci details_close escapeHtml].
  change details_close with (lt_char :: str "/details>").
  repeat first
    [ rewrite find_ci_cons_fail by reflexivity
    | rewrite (find_ci_skip _ _ _ (escapeHtml_no_lt _)) ].
  reflexivity.
Qed.

(** C10: a history entry whose content is empty or white space once the
    internal-context markup is stripped is left out of the prompt
    buildOllamaRequestBody assembles: the prompt is the one the selected
    history without that entry gives, and none of its entries is blank.  A
    message that is nothing but a block written by toDetailsBlock is such an
    entry: it strips to the empty string. *)
Theorem C10_blank_history_entry_omitted :
  (forall title body : jsstring,
     stripInternalContextBlocks (toDetailsBlock title body) = [])
  /\
  (forall (chat : Chat) (model uid final : jsstring) (att : option Attachment)
          (mem : option jsstring) (M : Z) (opts : option Options)
          (model' : jsstring) (msgs : list ChatMessage)
          (th : option ThinkOption) (h : Message) (before after : list Message),
     buildOllamaRequestBody (Some chat) model uid final att mem M opts
     = inr (ChatBody model' msgs th) ->
     selectedHistory chat uid mem M = before ++ h :: after ->
     truthy (trim (stripInternalContextBlocks (msg_content h))) = false ->
     msgs = mergeConsecutiveRoles
              (systemEntry chat mem
               ++ map history_entry (before ++ after)
               ++ [ {| role := user; content := final |} ])
     /\ Forall (fun e => nonblank e = true) msgs).
Proof.
  split.
  - intros title body. apply strip_whole_match, toDetailsBlock_matches.
  - intros chat model uid final att mem M opts model' msgs th h before after
           Hb Hsel Hblank.
    apply build_chat_body in Hb. subst msgs. split.
    + unfold rawMessages. rewrite Hsel, !map_app. simpl map.
      rewrite <- !app_assoc, (app_assoc (systemEntry chat mem)).
      simpl app.
      rewrite merge_skips_blank by exact Hblank.
      now rewrite <- !app_assoc.
    + apply (merged_ok_fold _ [] merged_ok_nil).
Qed.

Lemma C10_blank_history_entry_omitted_witness :
  let block := {| msg_id := str "h1";
                  msg_content := toDetailsBlock (str "Links (1)") (str "<b>x</b>");
                  msg_role := user; msg_timestamp := 0;
                  attachmentMeta := None; attachmentContent := None;
                  isLoading := None; thinkTime := None; isThinking := None;
                  firstTokenMs := None; responseMs := None;
                  outputChars := None; speedCps := None |} in
  let chat := plain_chat SPNull
                [ block; plain_message "h2" assistant "hello" 1;
                  plain_message "u1" user "more" 2 ] in
  let msgs := [ {| role := assistant; content := str "hello" |};
                {| role := user; content := str "more" |} ] in
  buildOllamaRequestBody (Some chat) (str "m") (str "u1") (str "more")
    None None 5 None
  = inr (ChatBody (str "m") msgs None)
  /\ msgs = mergeConsecutiveRoles
              (systemEntry chat None
               ++ map history_entry ([] ++ [plain_message "h2" assistant "hello" 1])
               ++ [ {| role := user; content := str "more" |} ]).
Proof.
  intros block chat msgs.
  assert (E : buildOllamaRequestBody (Some chat) (str "m") (str "u1")
                (str "more") None None 5 None
              = inr (ChatBody (str "m") msgs None)) by (vm_compute; reflexivity).
  split; [exact E|].
  refine (proj1 (proj2 C10_blank_history_entry_omitted
                   chat (str "m") (str "u1") (str "more") None None 5%Z None
                   (str "m") msgs None block []
                   [plain_message "h2" assistant "hello" 1] E _ _)).
  - vm_compute; reflexivity.
  - vm_compute; reflexivity.
Defined.

(** ** The stream interpreter *)

Section Interpreter.

Variable now_at : nat -> Z.
Variable uuid_at : nat -> jsstring.
Variable chatId : jsstring.
Variable requestStartTime : Z.

Ltac destruct_pair_in_goal :=
  match goal with
  | |- context [let (_, _) := ?e in _] => destruct e eqn:?
  end.

Lemma view_updateThinkStateFromChunk (c : jsstring) (t : Turn) (w : World) :
  view (fst (updateThinkStateFromChunk now_at c t w))
  = {| v_inThink := next_mode (isInThinkBlock t)
                      (slice_from (-64) (thinkTagBuffer t ++ c));
       v_buffer := slice_from (-64) (thinkTagBuffer t ++ c);
       v_content := assistantContent t;
       v_channel := usesThinkingField t |}.
Proof.
  destruct t as [st ib tb ai ac ti ft uf].
  unfold updateThinkStateFromChunk, next_mode, startThinkTimeUpdates.
  cbn -[slice_from some_included].
  set (buf := slice_from (-64) (tb ++ c)).
  destruct ib; cbn -[slice_from some_included];
    destruct (some_included THINK_OPEN_TAGS buf);
    cbn -[slice_from some_included];
    destruct (some_included THINK_CLOSE_TAGS buf); reflexivity.
Qed.

Lemma view_fields (t : Turn) (v : View) :
  view t = v ->
  isInThinkBlock t = v_inThink v /\ thinkTagBuffer t = v_buffer v
  /\ assistantContent t = v_content v /\ usesThinkingField t = v_channel v.
Proof. intros <-. now repeat split. Qed.

Lemma view_stamp_first_token (t : Turn) (w : World) :
  view (fst (stamp_first_token now_at t w)) = view t.
Proof. unfold stamp_first_token. now destruct (firstTokenTime t). Qed.

Lemma view_open_think_block (t : Turn) (w : World) :
  view (fst (open_think_block now_at t w)) = open_view (view t).
Proof.
  unfold open_think_block, open_view, view.
  destruct (isInThinkBlock t) eqn:E; cbn; now rewrite ?E.
Qed.

Lemma view_close_think_block (t : Turn) (w : World) :
  view (fst (close_think_block t w)) = close_view (view t).
Proof.
  unfold close_think_block, close_view, view.
  destruct (usesThinkingField t) eqn:Eu, (isInThinkBlock t) eqn:Ei; cbn;
    now rewrite ?Eu, ?Ei.
Qed.

Lemma view_detect_tags (c : jsstring) (t : Turn) (w : World) :
  view (fst (detect_tags now_at c t w)) = detect_view c (view t).
Proof.
  unfold detect_tags, detect_view.
  cbn [view v_channel v_inThink v_buffer v_content].
  destruct (usesThinkingField t) eqn:Eu; cbn [negb].
  - reflexivity.
  - now rewrite view_updateThinkStateFromChunk, Eu.
Qed.

Lemma view_create_assistant_content (t : Turn) (w : World) :
  view (fst (create_assistant_content now_at uuid_at chatId requestStartTime t w))
  = view t.
Proof.
  unfold create_assistant_content.
  destruct (assistantMessageId t); [reflexivity|].
  repeat destruct_pair_in_goal. reflexivity.
Qed.

Lemma view_create_assistant_thinking (t : Turn) (w : World) :
  view (fst (create_assistant_thinking now_at uuid_at chatId requestStartTime t w))
  = view t.
Proof.
  unfold create_assistant_thinking.
  destruct (assistantMessageId t); [reflexivity|].
  repeat destruct_pair_in_goal. reflexivity.
Qed.

Lemma view_append (c : jsstring) (t : Turn) :
  view (set_assistantContent (assistantContent t ++ c) t)
  = append_view c (view t).
Proof. reflexivity. Qed.

(** Name the result of the next stage of the callback and record what the
    lemma says of its view. *)
Ltac stage t' w' V lemma :=
  match goal with
  | |- context [let (_, _) := ?e in _] =>
      pose proof lemma as V;
      destruct e as [t' w']; cbn [fst] in V
  end.

Lemma view_onContent (c : jsstring) (t : Turn) (w : World) :
  view (fst (onContent now_at uuid_at chatId requestStartTime c t w))
  = content_view c (view t).
Proof.
  unfold onContent.
  stage t1 w1 V1 (view_stamp_first_token t w).
  stage t2 w2 V2 (view_close_think_block t1 w1).
  stage t3 w3 V3 (view_detect_tags c t2 w2).
  stage t4 w4 V4 (view_create_assistant_content t3 w3).
  destruct_pair_in_goal. cbn [fst].
  rewrite view_append, V4, V3, V2, V1.
  unfold content_view, append_view, detect_view, close_view.
  destruct (view t) as [i b a u]. now destruct u, i.
Qed.

Lemma view_onThinking (c : jsstring) (t : Turn) (w : World) :
  view (fst (onThinking now_at uuid_at chatId requestStartTime c t w))
  = thinking_view c (view t).
Proof.
  unfold onThinking.
  stage t2 w2 V2 (view_stamp_first_token (set_usesThinkingField true t) w).
  stage t3 w3 V3 (view_open_think_block t2 w2).
  stage t4 w4 V4 (view_create_assistant_thinking t3 w3).
  destruct_pair_in_goal. cbn [fst].
  rewrite view_append, V4, V3, V2.
  unfold thinking_view, append_view, open_view, view. cbn.
  now destruct (isInThinkBlock t).
Qed.

Variable isImage : bool.

Lemma view_onData (d : Data) (t : Turn) (w : World) :
  view (fst (onData now_at uuid_at chatId requestStartTime isImage d t w))
  = match classify isImage d with
    | Some f => fragment_view f (view t)
    | None => view t
    end.
Proof.
  unfold onData, classify.
  destruct (truthy_opt (message_thinking d)).
  - apply view_onThinking.
  - destruct (truthy_opt (if isImage then response d else message_content d)).
    + apply view_onContent.
    + reflexivity.
Qed.

(** The view of a turn after a stream depends on the fragments alone, not on
    the clock, the store or the interval. *)
Lemma view_processStream (events : list Event) (t : Turn) (w : World) :
  view (fst (processStream now_at uuid_at chatId requestStartTime isImage
               events t w))
  = run_view (fragments isImage events) (view t).
Proof.
  unfold processStream, run_view.
  revert t w. induction events as [|e events IH]; intros t w; [reflexivity|].
  cbn [fold_left fragments flat_map].
  destruct (onEvent now_at uuid_at chatId requestStartTime isImage (t, w) e)
    as [t' w'] eqn:E.
  rewrite IH. rewrite fold_left_app. f_equal.
  destruct e as [d|]; cbn [onEvent] in E.
  - pose proof (view_onData d t w) as V. rewrite E in V. cbn [fst] in V.
    rewrite V. now destruct (classify isImage d).
  - inversion E. reflexivity.
Qed.

End Interpreter.

(** *** The two encodings *)

Lemma run_view_channel (fs : list Fragment) (v : View) :
  v_channel v = true ->
  run_view fs v
  = {| v_inThink := match last_opt fs with
                    | Some (Reasoning _) => true
                    | Some (Answer _) => false
                    | None => v_inThink v
                    end;
       v_buffer := v_buffer v;
       v_content := v_content v ++ tagged (v_inThink v) fs;
       v_channel := true |}.
Proof.
  revert v. induction fs as [|f fs IH]; intros v Hc.
  - cbn. rewrite app_nil_r. destruct v; cbn in *. now subst.
  - cbn [run_view fold_left]. change (fold_left _ fs ?x) with (run_view fs x).
    assert (E : last_opt (f :: fs)
                = match last_opt fs with Some x => Some x | None => Some f end).
    { unfold last_opt. cbn [rev]. destruct (rev fs); reflexivity. }
    rewrite E. clear E.
    destruct f as [c|c]; cbn [fragment_view].
    + rewrite IH by reflexivity.
      unfold thinking_view. cbn [v_inThink v_buffer v_content tagged].
      f_equal.
      * now destruct (last_opt fs) as [[?|?]|].
      * destruct (v_inThink v); now rewrite <- ?app_assoc.
    + unfold content_view at 1. rewrite Hc.
      rewrite IH by reflexivity.
      cbn [v_inThink v_buffer v_content tagged].
      f_equal.
      * now destruct (last_opt fs) as [[?|?]|].
      * destruct (v_inThink v); now rewrite <- ?app_assoc.
Qed.

(** *** Tag encoding and the rolling buffer *)

Lemma startsWith_app (p s r : jsstring) :
  startsWith p s = true -> startsWith p (s ++ r) = true.
Proof.
  revert s. induction p as [|a p IH]; intros s H; [reflexivity|].
  destruct s as [|c s]; [discriminate|].
  cbn in *. apply andb_true_iff in H. destruct H as [H1 H2].
  now rewrite H1, IH.
Qed.

Lemma includes_app (p s r : jsstring) :
  includes p s = true -> includes p (s ++ r) = true.
Proof.
  induction s as [|c s IH]; intros H.
  - cbn in H. rewrite orb_false_r in H.
    destruct p; [|discriminate]. now destruct r.
  - cbn [includes] in H. apply orb_true_iff in H.
    change ((c :: s) ++ r) with (c :: (s ++ r)). cbn [includes].
    apply orb_true_iff. destruct H as [H|H].
    + left. now apply (startsWith_app p (c :: s) r).
    + right. now apply IH.
Qed.

Lemma some_included_app (tags : list jsstring) (s r : jsstring) :
  some_included tags s = true -> some_included tags (s ++ r) = true.
Proof.
  unfold some_included. rewrite !existsb_exists.
  intros (t & Ht & H). exists t. split; [exact Ht | now apply includes_app].
Qed.

(** Reading a text in two steps, the whole of it in the buffer, ends in the
    mode reading it at once ends in. *)
Lemma next_mode_prefix (pre rest : jsstring) :
  next_mode (next_mode false pre) (pre ++ rest)
  = next_mode false (pre ++ rest).
Proof.
  unfold next_mode. cbn [orb].
  destruct (some_included THINK_CLOSE_TAGS (pre ++ rest)) eqn:Ec.
  - rewrite !andb_true_r.
    now destruct (_ || _), (some_included THINK_OPEN_TAGS (pre ++ rest)).
  - rewrite !andb_false_r.
    destruct (some_included THINK_CLOSE_TAGS pre) eqn:Ecp.
    { apply (some_included_app _ _ rest) in Ecp. congruence. }
    rewrite andb_false_r.
    destruct (some_included THINK_OPEN_TAGS pre) eqn:Eop; [|reflexivity].
    apply (some_included_app _ _ rest) in Eop. now rewrite Eop.
Qed.

Lemma slice_from_short (s : jsstring) :
  (length s <= 64)%nat -> slice_from (-64) s = s.
Proof.
  intros H. unfold slice_from. cbn [Z.ltb Z.compare].
  replace (Z.to_nat (Z.max (Z.of_nat (length s) + -64) 0)) with 0%nat by lia.
  reflexivity.
Qed.

Lemma run_view_tag (fs : list jsstring) (pre : jsstring) :
  (length (pre ++ concat fs) <= 64)%nat ->
  run_view (map Answer fs) (tag_view pre) = tag_view (pre ++ concat fs).
Proof.
  revert pre. induction fs as [|c fs IH]; intros pre H.
  - cbn. now rewrite app_nil_r.
  - cbn [map run_view fold_left concat] in *.
    change (fold_left _ (map Answer fs) ?x) with (run_view (map Answer fs) x).
    rewrite app_assoc in *.
    assert (E : fragment_view (Answer c) (tag_view pre) = tag_view (pre ++ c)).
    { unfold fragment_view, content_view, tag_view.
      cbn [v_channel v_inThink v_buffer v_content].
      rewrite slice_from_short by (rewrite length_app in H; lia).
      now rewrite next_mode_prefix. }
    rewrite E. now apply IH.
Qed.

Lemma fragments_content_events (isImage : bool) (frags : list jsstring) :
  isImage = false ->
  fragments isImage (map content_event frags)
  = map Answer (filter truthy frags).
Proof.
  intros ->. induction frags as [|c frags IH]; [reflexivity|].
  unfold fragments in *. cbn [map flat_map filter]. rewrite IH.
  unfold classify. cbn. destruct c; reflexivity.
Qed.

Lemma concat_filter_truthy (frags : list jsstring) :
  concat (filter truthy frags) = concat frags.
Proof.
  induction frags as [|c frags IH]; [reflexivity|].
  destruct c; cbn; [exact IH | now rewrite IH].
Qed.

(** Every way of cutting a text of at most 64 code units into fragments
    leaves the turn with the view the text in one fragment leaves. *)
Lemma fragmentation_within_buffer
    (now_at : nat -> Z) (uuid_at : nat -> jsstring) (chatId : jsstring)
    (start : Z) (frags : list jsstring) (w : World) :
  (length (concat frags) <= 64)%nat ->
  view (fst (processStream now_at uuid_at chatId start false
               (map content_event frags) initialTurn w))
  = tag_view (concat frags).
Proof.
  intros H.
  rewrite view_processStream, fragments_content_events by reflexivity.
  change (view initialTurn) with (tag_view []).
  rewrite run_view_tag; rewrite concat_filter_truthy; [reflexivity | exact H].
Qed.

(** The view after the example text: Answering, with the text that tags the
    reasoning "reasoning" before the answer " answer". *)
Lemma example_view :
  tag_view example_text
  = {| v_inThink := false; v_buffer := example_text;
       v_content := tagged false [Reasoning (str "reasoning");
                                  Answer (str " answer")];
       v_channel := false |}.
Proof. reflexivity. Qed.

(** C4, as stated, fails beyond the rolling buffer: "<think>" followed by
    64 characters of reasoning is classified as reasoning when the marker
    comes as a fragment of its own, and as answer when all comes as one
    fragment, the marker then being out of the last 64 characters. *)
Lemma C4_marker_leaves_the_buffer :
  let cut := fst (processStream sample_clock sample_uuid (str "c1") 1000 false
                    [content_event (str "<think>");
                     content_event (repeat 120%N 64)]
                    initialTurn sample_world) in
  let whole := fst (processStream sample_clock sample_uuid (str "c1") 1000 false
                      [content_event long_reasoning]
                      initialTurn sample_world) in
  str "<think>" ++ repeat 120%N 64 = long_reasoning
  /\ isInThinkBlock cut = true /\ isInThinkBlock whole = false
  /\ ~ (view cut = view whole).
Proof.
  vm_compute. repeat split. intros H. discriminate H.
Qed.

(** C4, amended: for a text of at most 64 code units, the size of the
    rolling buffer, every way of cutting it into fragments leaves the
    interpreter in the state the text in one fragment leaves it in: the same
    mode, buffer, accumulated text and encoding.  For the text
    "<think>reasoning</think> answer", cut into "<th", "ink>reasoning</th",
    "ink> answer" or otherwise, that state is Answering with "reasoning"
    tagged as the reasoning and " answer" as the answer. *)
Theorem C4_fragmentation_invariant_within_buffer
    (now_at : nat -> Z) (uuid_at : nat -> jsstring) (chatId : jsstring)
    (start : Z) (w w' : World) (frags : list jsstring) :
  (length (concat frags) <= 64)%nat ->
  let cut := fst (processStream now_at uuid_at chatId start false
                    (map content_event frags) initialTurn w) in
  let whole := fst (processStream now_at uuid_at chatId start false
                      [content_event (concat frags)] initialTurn w') in
  view cut = view whole
  /\ view cut = tag_view (concat frags)
  /\ (concat frags = example_text ->
      isInThinkBlock cut = false
      /\ assistantContent cut
         = tagged false [Reasoning (str "reasoning"); Answer (str " answer")]).
Proof.
  intros H cut whole.
  assert (Hc : view cut = tag_view (concat frags))
    by now apply fragmentation_within_buffer.
  assert (Hw : view whole = tag_view (concat frags)).
  { pose proof (fragmentation_within_buffer now_at uuid_at chatId start
                  [concat frags] w') as Hw.
    cbn [concat] in Hw. rewrite app_nil_r in Hw. now apply Hw. }
  split; [now rewrite Hc, Hw|]. split; [exact Hc|].
  intros E. rewrite E, example_view in Hc. apply view_fields in Hc.
  destruct Hc as (Hi & _ & Ha & _). now split.
Qed.

Lemma C4_fragmentation_invariant_within_buffer_witness :
  let cut := fst (processStream sample_clock sample_uuid (str "c1") 1000 false
                    (map content_event example_fragments)
                    initialTurn sample_world) in
  let whole := fst (processStream sample_clock sample_uuid (str "c1") 1000 false
                      [content_event example_text]
                      initialTurn sample_world) in
  (length (concat example_fragments) <= 64)%nat
  /\ view cut = view whole
  /\ isInThinkBlock cut = false
  /\ assistantContent cut
     = tagged false [Reasoning (str "reasoning"); Answer (str " answer")].
Proof.
  intros cut whole.
  assert (H : (length (concat example_fragments) <= 64)%nat)
    by (vm_compute; lia).
  split; [exact H|].
  destruct (C4_fragmentation_invariant_within_buffer sample_clock sample_uuid
              (str "c1") 1000%Z sample_world sample_world
              example_fragments H) as (Hv & _ & He).
  split; [exact Hv|]. exact (He eq_refl).
Defined.

(** C5, as stated, fails in its first half: after inline tags were seen
    first, a fragment of the reasoning channel is still taken as reasoning;
    it opens a block and switches the turn to the channel encoding. *)
Lemma C5_channel_fragment_after_tags :
  let before := fst (processStream sample_clock sample_uuid (str "c1") 1000 false
                       [content_event (str "<think>a</think>b")]
                       initialTurn sample_world) in
  let after := fst (processStream sample_clock sample_uuid (str "c1") 1000 false
                      [content_event (str "<think>a</think>b");
                       thinking_event (str "c")]
                      initialTurn sample_world) in
  (usesThinkingField before = false /\ isInThinkBlock before = false)
  /\ ~ (usesThinkingField after = false /\ isInThinkBlock after = false
        /\ assistantContent after = str "<think>a</think>b")
  /\ usesThinkingField after = true /\ isInThinkBlock after = true
  /\ assistantContent after = str "<think>a</think>b<think>c".
Proof.
  vm_compute. repeat split; try reflexivity.
  intros (H & _). discriminate H.
Qed.

(** C5, amended: a fragment of the reasoning channel fixes the encoding
    whenever it comes, also after inline tags: it is taken as reasoning and
    from then on, for the rest of the turn, the turn stays on the channel
    encoding, the rolling buffer is never looked at again, and the mode is
    that of the last fragment, whatever tags the content carries. *)
Theorem C5_reasoning_channel_latches
    (now_at : nat -> Z) (uuid_at : nat -> jsstring) (chatId : jsstring)
    (start : Z) (isImage : bool) (t : Turn) (w : World) (d : Data)
    (events : list Event) :
  truthy_opt (message_thinking d) = true ->
  let first := onData now_at uuid_at chatId start isImage d t w in
  let last := fst (processStream now_at uuid_at chatId start isImage
                     events (fst first) (snd first)) in
  (usesThinkingField (fst first) = true /\ isInThinkBlock (fst first) = true)
  /\ usesThinkingField last = true
  /\ thinkTagBuffer last = thinkTagBuffer t
  /\ isInThinkBlock last
     = match last_opt (fragments isImage events) with
       | Some (Answer _) => false
       | _ => true
       end.
Proof.
  intros Hd first last.
  assert (V1 : view (fst first)
               = thinking_view (num_str (message_thinking d)) (view t)).
  { unfold first. rewrite view_onData. unfold classify. now rewrite Hd. }
  assert (V2 : view last
               = run_view (fragments isImage events) (view (fst first))).
  { apply view_processStream. }
  rewrite run_view_channel in V2 by now rewrite V1.
  rewrite V1 in V2. apply view_fields in V1. apply view_fields in V2.
  cbn in V1, V2.
  destruct V1 as (Hi1 & _ & _ & Hu1). destruct V2 as (Hi2 & Hb2 & _ & Hu2).
  repeat split; assumption.
Qed.

Lemma C5_reasoning_channel_latches_witness :
  let d := {| message_thinking := Some (str "plan"); message_content := None;
              response := None |} in
  let first := onData sample_clock sample_uuid (str "c1") 1000 false d
                 initialTurn sample_world in
  let last := fst (processStream sample_clock sample_uuid (str "c1") 1000 false
                     [content_event (str "see <think> here")]
                     (fst first) (snd first)) in
  truthy_opt (message_thinking d) = true
  /\ usesThinkingField last = true /\ thinkTagBuffer last = []
  /\ isInThinkBlock last = false.
Proof.
  intros d first last.
  assert (E : truthy_opt (message_thinking d) = true) by reflexivity.
  split; [exact E|].
  exact (proj2 (C5_reasoning_channel_latches sample_clock sample_uuid
                  (str "c1") 1000%Z false initialTurn sample_world d
                  [content_event (str "see <think> here")] E)).
Defined.

(** C6: on the channel encoding, that is once the latch is set or when the
    stream opens on the reasoning channel, the accumulated text is the tag
    encoding of the fragments: "<think>" where the reasoning channel opens,
    "</think>" where content follows reasoning. *)
Theorem C6_channel_text_is_tagged
    (now_at : nat -> Z) (uuid_at : nat -> jsstring) (chatId : jsstring)
    (start : Z) (isImage : bool) (t : Turn) (w : World)
    (events : list Event) :
  usesThinkingField t = true
  \/ (exists r rest, fragments isImage events = Reasoning r :: rest) ->
  assistantContent
    (fst (processStream now_at uuid_at chatId start isImage events t w))
  = assistantContent t
    ++ tagged (isInThinkBlock t) (fragments isImage events).
Proof.
  intros H.
  pose proof (view_processStream now_at uuid_at chatId start isImage
                events t w) as V.
  assert (E : run_view (fragments isImage events) (view t)
              = {| v_inThink :=
                     match last_opt (fragments isImage events) with
                     | Some (Reasoning _) => true
                     | Some (Answer _) => false
                     | None => isInThinkBlock t
                     end;
                   v_buffer := thinkTagBuffer t;
                   v_content := assistantContent t
                     ++ tagged (isInThinkBlock t) (fragments isImage events);
                   v_channel := true |}).
  { destruct H as [H | (r & rest & H)].
    - now rewrite run_view_channel.
    - rewrite H. cbn [run_view fold_left fragment_view].
      change (fold_left _ rest ?x) with (run_view rest x).
      rewrite run_view_channel by reflexivity.
      unfold thinking_view, view. cbn [v_inThink v_buffer v_content tagged].
      f_equal.
      + assert (El : last_opt (Reasoning r :: rest)
                     = match last_opt rest with
                       | Some x => Some x
                       | None => Some (Reasoning r)
                       end).
        { unfold last_opt. cbn [rev]. now destruct (rev rest). }
        rewrite El. now destruct (last_opt rest) as [[?|?]|].
      + destruct (isInThinkBlock t); now rewrite <- ?app_assoc. }
  rewrite E in V. apply view_fields in V. now destruct V as (_ & _ & V & _).
Qed.

Lemma C6_channel_text_is_tagged_witness :
  let events := [thinking_event (str "plan"); thinking_event (str " more");
                 content_event (str "done")] in
  assistantContent
    (fst (processStream sample_clock sample_uuid (str "c1") 1000 false
            events initialTurn sample_world))
  = str "<think>plan more</think>done".
Proof.
  intros events.
  refine (C6_channel_text_is_tagged sample_clock sample_uuid (str "c1")
            1000%Z false initialTurn sample_world events _).
  right. now eexists _, _.
Defined.

(** ** Metrics *)

(** *** Rounding *)

Lemma two_pos (k : Z) : (0 < 2 ^ k)%Q.
Proof. now apply Qpower_0_lt. Qed.

Lemma two_cancel (k : Z) : (2 ^ k * 2 ^ (- k) == 1)%Q.
Proof.
  rewrite <- Qpower_plus by discriminate.
  now replace (k + - k)%Z with 0%Z by lia.
Qed.

Lemma inject_two (s : Z) : (0 <= s)%Z -> (inject_Z (2 ^ s) == 2 ^ s)%Q.
Proof. intros H. now rewrite Zpower_Qpower. Qed.

(** [scale n d s] is the fraction [n/d * 2^s]. *)
Lemma scale_spec (n d s : Z) :
  (0 < n)%Z -> (0 < d)%Z ->
  (0 < fst (scale n d s))%Z /\ (0 < snd (scale n d s))%Z
  /\ (inject_Z (fst (scale n d s)) * inject_Z d
      == inject_Z n * inject_Z (snd (scale n d s)) * 2 ^ s)%Q.
Proof.
  intros Hn Hd. unfold scale.
  destruct (Z.leb_spec 0 s) as [Hs|Hs]; cbn [fst snd].
  - assert (P : (0 < 2 ^ s)%Z) by now apply Z.pow_pos_nonneg.
    split; [nia|]. split; [exact Hd|].
    rewrite inject_Z_mult, inject_two by exact Hs. ring.
  - assert (P : (0 < 2 ^ (- s))%Z) by (apply Z.pow_pos_nonneg; lia).
    split; [exact Hn|]. split; [nia|].
    rewrite inject_Z_mult, inject_two by lia.
    pose proof (two_cancel s) as C.
    transitivity (inject_Z n * inject_Z d * (2 ^ s * 2 ^ (- s)))%Q;
      [rewrite C; ring | ring].
Qed.

Lemma inject_pos (z : Z) : (0 < z)%Z -> (0 < inject_Z z)%Q.
Proof. intros H. change 0%Q with (inject_Z 0). now rewrite <- Zlt_Qlt. Qed.

(** The binade is at most the logarithm: [2^(binade n d) <= n/d]. *)
Lemma binade_le (n d : Z) :
  (0 < n)%Z -> (0 < d)%Z -> (2 ^ binade n d * inject_Z d <= inject_Z n)%Q.
Proof.
  intros Hn Hd. unfold binade.
  set (e := (Z.log2 n - Z.log2 d)%Z).
  destruct (scale_spec n d (- e) Hn Hd) as (Ha & Hb & E).
  destruct (scale n d (- e)) as [a b]. cbn [fst snd] in Ha, Hb, E.
  pose proof (inject_pos _ Hn) as Qn. pose proof (inject_pos _ Hd) as Qd.
  pose proof (inject_pos _ Hb) as Qb.
  destruct (Z.leb_spec b a) as [L|L].
  - assert (QL : (inject_Z b <= inject_Z a)%Q) by now rewrite <- Zle_Qle.
    pose proof (two_pos e) as Pe. pose proof (two_cancel e) as C.
    set (x := (2 ^ e)%Q) in *. set (y := (2 ^ (- e))%Q) in *.
    set (A := inject_Z a) in *. set (B := inject_Z b) in *.
    set (N := inject_Z n) in *. set (D := inject_Z d) in *.
    assert (S1 : (B * D <= N * B * y)%Q).
    { rewrite <- E. apply Qmult_le_compat_r; lra. }
    assert (S2 : (B * (x * D) <= B * N)%Q).
    { assert (E1 : (B * (x * D) == x * (B * D))%Q) by ring.
      assert (E2 : (B * N == x * (N * B * y))%Q).
      { rewrite <- (Qmult_1_r (B * N)), <- C. ring. }
      rewrite E1, E2. apply Qmult_le_l; assumption. }
    apply Qmult_le_l in S2; assumption.
  - pose proof (Z.log2_spec n Hn) as [Ln _].
    pose proof (Z.log2_spec d Hd) as [_ Ld].
    pose proof (Z.log2_nonneg n) as Nn. pose proof (Z.log2_nonneg d) as Nd.
    assert (Q1 : (2 ^ Z.log2 n <= inject_Z n)%Q).
    { rewrite <- inject_two by exact Nn. now rewrite <- Zle_Qle. }
    assert (Q2 : (inject_Z d <= 2 ^ Z.succ (Z.log2 d))%Q).
    { rewrite <- inject_two by lia. rewrite <- Zle_Qle. lia. }
    apply Qle_trans with (y := (2 ^ (e - 1) * 2 ^ Z.succ (Z.log2 d))%Q).
    + apply Qmult_le_l; [apply two_pos | exact Q2].
    + rewrite <- Qpower_plus by discriminate.
      replace (e - 1 + Z.succ (Z.log2 d))%Z with (Z.log2 n) by (unfold e; lia).
      exact Q1.
Qed.

Lemma nearest_even_bounds (a b : Z) :
  (0 <= a)%Z -> (0 < b)%Z ->
  (0 <= nearest_even a b)%Z /\ (nearest_even a b * b <= a + b)%Z.
Proof.
  intros Ha Hb. unfold nearest_even.
  pose proof (Z.div_pos a b Ha Hb) as Hm.
  pose proof (Z.div_mod a b ltac:(lia)) as E.
  pose proof (Z.mod_pos_bound a b Hb) as R.
  set (m := (a / b)%Z) in *. set (r := (a mod b)%Z) in *.
  destruct (2 * r ?= b)%Z; [destruct (Z.even m)| |]; split; nia.
Qed.

Lemma nearest_even_error (a b : Z) :
  (0 <= a)%Z -> (0 < b)%Z ->
  (2 * (nearest_even a b * b - a) <= b)%Z
  /\ (2 * (a - nearest_even a b * b) <= b)%Z.
Proof.
  intros Ha Hb. unfold nearest_even.
  pose proof (Z.div_mod a b ltac:(lia)) as E.
  pose proof (Z.mod_pos_bound a b Hb) as R.
  set (m := (a / b)%Z) in *. set (r := (a mod b)%Z) in *.
  destruct (Z.compare_spec (2 * r) b); [destruct (Z.even m)| |]; split; nia.
Qed.

(** What the rounding of a positive fraction is made of: a value [r] that
    is not negative and is within half a unit of the last place of the
    fraction, turned into infinity from [2^1024] on. *)
Lemma round_positive_anatomy (n d : Z) :
  (0 < n)%Z -> (0 < d)%Z ->
  exists r : Q,
    round_positive n d
    = (if Qle_bool (2 ^ 1024) (Qred r) then Infinity false
       else Finite (Qred r))
    /\ (0 <= r)%Q
    /\ (2 * (r * inject_Z d - inject_Z n)
        <= 2 ^ Z.max (binade n d - 52) (-1074) * inject_Z d)%Q
    /\ (2 * (inject_Z n - r * inject_Z d)
        <= 2 ^ Z.max (binade n d - 52) (-1074) * inject_Z d)%Q.
Proof.
  intros Hn Hd. unfold round_positive.
  set (k := Z.max (binade n d - 52) (-1074)).
  destruct (scale_spec n d (- k) Hn Hd) as (Ha & Hb & E).
  destruct (scale n d (- k)) as [a b]. cbn [fst snd] in Ha, Hb, E.
  destruct (nearest_even_bounds a b ltac:(lia) Hb) as [Hm _].
  destruct (nearest_even_error a b ltac:(lia) Hb) as [U L].
  set (m := nearest_even a b) in *.
  exists (inject_Z m * 2 ^ k)%Q. split; [reflexivity|].
  assert (QM : (0 <= inject_Z m)%Q).
  { change 0%Q with (inject_Z 0). now rewrite <- Zle_Qle. }
  pose proof (two_pos k) as Pk. pose proof (two_cancel k) as C.
  pose proof (inject_pos _ Hd) as Qd. pose proof (inject_pos _ Hb) as Qb.
  assert (QU : (2 * (inject_Z m * inject_Z b - inject_Z a) <= inject_Z b)%Q).
  { assert (T : (inject_Z 2 * (inject_Z m * inject_Z b)
                 <= inject_Z b + inject_Z 2 * inject_Z a)%Q).
    { rewrite <- !inject_Z_mult, <- inject_Z_plus, <- Zle_Qle. lia. }
    change (inject_Z 2) with 2%Q in T. lra. }
  assert (QL : (2 * (inject_Z a - inject_Z m * inject_Z b) <= inject_Z b)%Q).
  { assert (T : (inject_Z 2 * inject_Z a
                 <= inject_Z b + inject_Z 2 * (inject_Z m * inject_Z b))%Q).
    { rewrite <- !inject_Z_mult, <- inject_Z_plus, <- Zle_Qle. lia. }
    change (inject_Z 2) with 2%Q in T. lra. }
  set (P := (2 ^ k)%Q) in *. set (P' := (2 ^ (- k))%Q) in *.
  set (A := inject_Z a) in *. set (B := inject_Z b) in *.
  set (N := inject_Z n) in *. set (D := inject_Z d) in *.
  set (M := inject_Z m) in *.
  assert (EN : (B * N == P * (A * D))%Q).
  { rewrite E. rewrite <- (Qmult_1_r (B * N)), <- C. ring. }
  split; [apply Qmult_le_0_compat; lra|].
  split.
  - assert (S : (B * (2 * (M * P * D - N)) <= B * (P * D))%Q).
    { assert (E1 : (B * (2 * (M * P * D - N))
                    == 2 * (M * B - A) * (P * D) + 2 * (P * (A * D) - B * N))%Q)
        by ring.
      assert (E2 : (B * (P * D) == B * (P * D) + 2 * 0)%Q) by ring.
      rewrite E1, EN.
      assert (E3 : (2 * (M * B - A) * (P * D) + 2 * (P * (A * D) - P * (A * D))
                    == 2 * (M * B - A) * (P * D))%Q) by ring.
      rewrite E3. apply Qmult_le_compat_r; [exact QU|].
      apply Qmult_le_0_compat; lra. }
    apply Qmult_le_l in S; assumption.
  - assert (S : (B * (2 * (N - M * P * D)) <= B * (P * D))%Q).
    { assert (E1 : (B * (2 * (N - M * P * D))
                    == 2 * (A - M * B) * (P * D) + 2 * (B * N - P * (A * D)))%Q)
        by ring.
      rewrite E1, EN.
      assert (E3 : (2 * (A - M * B) * (P * D) + 2 * (P * (A * D) - P * (A * D))
                    == 2 * (A - M * B) * (P * D))%Q) by ring.
      rewrite E3. apply Qmult_le_compat_r; [exact QL|].
      apply Qmult_le_0_compat; lra. }
    apply Qmult_le_l in S; assumption.
Qed.

Lemma two_le (a b : Z) : (a <= b)%Z -> (2 ^ a <= 2 ^ b)%Q.
Proof. intros H. now apply Qpower_le_compat_l. Qed.

Lemma round_positive_finite (r : Q) :
  (r < 2 ^ 1024)%Q ->
  (if Qle_bool (2 ^ 1024) (Qred r) then Infinity false else Finite (Qred r))
  = Finite (Qred r).
Proof.
  intros H. destruct (Qle_bool _ _) eqn:T; [|reflexivity].
  apply Qle_bool_iff in T. rewrite Qred_correct in T.
  exfalso. apply (Qlt_not_le _ _ H T).
Qed.

(** A rounded positive fraction is not negative, and stays finite when the
    fraction is at most [2^64]. *)
Lemma round_positive_spec (n d : Z) :
  (0 < n)%Z -> (0 < d)%Z ->
  (round_positive n d = Infinity false
   \/ exists r, round_positive n d = Finite r /\ (0 <= r)%Q)
  /\ ((inject_Z n <= 2 ^ 64 * inject_Z d)%Q ->
      exists r, round_positive n d = Finite r /\ (0 <= r)%Q).
Proof.
  intros Hn Hd.
  destruct (round_positive_anatomy n d Hn Hd) as (r & -> & R0 & U & _).
  assert (R0' : (0 <= Qred r)%Q) by now rewrite Qred_correct.
  split.
  - destruct (Qle_bool _ _); [now left | right; now eexists].
  - intros Hq. exists (Qred r). split; [|exact R0'].
    apply round_positive_finite.
    pose proof (binade_le n d Hn Hd) as He.
    pose proof (inject_pos _ Hd) as Qd. pose proof (inject_pos _ Hn) as Qn.
    set (e := binade n d) in *. set (k := Z.max (e - 52) (-1074)) in *.
    assert (Pk64 : (2 ^ k * inject_Z d <= 2 ^ 64 * inject_Z d)%Q).
    { unfold k. destruct (Z.max_spec (e - 52) (-1074)) as [[_ ->]|[_ ->]].
      - apply Qmult_le_compat_r; [apply two_le; lia | lra].
      - apply Qle_trans with (y := (2 ^ e * inject_Z d)%Q); [|lra].
        apply Qmult_le_compat_r; [apply two_le; lia | lra]. }
    apply Qle_lt_trans with (y := (2 ^ 65)%Q);
      [|now apply Qpower_lt_compat_l].
    assert (E65 : (2 ^ 65 == 2 ^ 64 + 2 ^ 64)%Q) by reflexivity.
    rewrite E65.
    set (c := (2 ^ 64)%Q) in *. set (P := (2 ^ k)%Q) in *.
    set (N := inject_Z n) in *. set (D := inject_Z d) in *.
    assert (S : (D * r <= D * (c + c))%Q).
    { assert (E1 : (D * r == r * D)%Q) by ring.
      assert (E2 : (D * (c + c) == c * D + c * D)%Q) by ring.
      rewrite E1, E2. lra. }
    apply Qmult_le_l in S; assumption.
Qed.

(** Between [2^-1022] and [2^64] the rounding is finite and within the
    part [2^-53] of the fraction. *)
Lemma round_positive_error (n d : Z) :
  (0 < n)%Z -> (0 < d)%Z ->
  (2 ^ (-1022) * inject_Z d <= inject_Z n)%Q ->
  (inject_Z n <= 2 ^ 64 * inject_Z d)%Q ->
  exists r,
    round_positive n d = Finite r
    /\ ((1 - roundoff) * inject_Z n <= r * inject_Z d)%Q
    /\ (r * inject_Z d <= (1 + roundoff) * inject_Z n)%Q.
Proof.
  intros Hn Hd Lo Hi.
  destruct (round_positive_spec n d Hn Hd) as [_ F].
  destruct (F Hi) as (r0 & E0 & _). clear F.
  destruct (round_positive_anatomy n d Hn Hd) as (r & E & R0 & U & L).
  assert (Er : r0 = Qred r).
  { rewrite E in E0. destruct (Qle_bool _ _); [discriminate|].
    now inversion E0. }
  exists r0. split; [exact E0|]. subst r0. rewrite Qred_correct.
  pose proof (binade_le n d Hn Hd) as He.
  pose proof (inject_pos _ Hd) as Qd.
  set (e := binade n d) in *. set (k := Z.max (e - 52) (-1074)) in *.
  assert (T : (2 ^ (-52) == 2 * roundoff)%Q) by reflexivity.
  assert (Pk : (2 ^ k * inject_Z d <= 2 * roundoff * inject_Z n)%Q).
  { rewrite <- T. unfold k.
    destruct (Z.max_spec (e - 52) (-1074)) as [[_ ->]|[_ ->]].
    - change (-1074)%Z with (-1022 + -52)%Z.
      rewrite Qpower_plus by discriminate.
      set (t := (2 ^ (-52))%Q) in *. set (l := (2 ^ (-1022))%Q) in *.
      assert (Pt : (0 < t)%Q) by (rewrite T; reflexivity).
      assert (E1 : (l * t * inject_Z d == t * (l * inject_Z d))%Q) by ring.
      rewrite E1. apply Qmult_le_l; assumption.
    - replace (e - 52)%Z with (e + -52)%Z by lia.
      rewrite Qpower_plus by discriminate.
      set (t := (2 ^ (-52))%Q) in *. set (l := (2 ^ e)%Q) in *.
      assert (Pt : (0 < t)%Q) by (rewrite T; reflexivity).
      assert (E1 : (l * t * inject_Z d == t * (l * inject_Z d))%Q) by ring.
      rewrite E1. apply Qmult_le_l; assumption. }
  set (P := (2 ^ k)%Q) in *.
  set (N := inject_Z n) in *. set (D := inject_Z d) in *.
  unfold roundoff in *. split; lra.
Qed.

Lemma round_spec (q : Q) :
  (0 <= q)%Q ->
  (round q = Infinity false \/ exists r, round q = Finite r /\ (0 <= r)%Q)
  /\ ((q <= 2 ^ 64)%Q -> exists r, round q = Finite r /\ (0 <= r)%Q).
Proof.
  intros H. destruct q as [n d]. unfold round. cbn [Qnum Qden].
  destruct n as [|n|n].
  - split; [right|intros _]; exists 0%Q; split; [reflexivity|lra|reflexivity|lra].
  - destruct (round_positive_spec (Zpos n) (Zpos d) eq_refl eq_refl) as [A B].
    split; [exact A|]. intros Hq. apply B. clear A B.
    set (c := (2 ^ 64)%Q) in *.
    assert (Qd : (0 < inject_Z (Zpos d))%Q) by now apply inject_pos.
    rewrite (Qmake_Qdiv (Zpos n) d) in Hq.
    assert (E : (inject_Z (Zpos n)
                 == inject_Z (Zpos n) / inject_Z (Zpos d) * inject_Z (Zpos d))%Q)
      by (field; lra).
    rewrite E. apply Qmult_le_compat_r; [exact Hq | lra].
  - exfalso. unfold Qle in H. cbn in H. lia.
Qed.

Lemma round_not_NaN (q : Q) : round q <> NaN.
Proof.
  destruct q as [n d]. unfold round, round_positive. cbn [Qnum Qden].
  destruct n as [|n|n]; [discriminate| |];
    destruct (scale _ _ _); destruct (Qle_bool _ _); discriminate.
Qed.

(** The rounding of what is not above zero is not above zero. *)
Lemma round_nonpos (q : Q) :
  (q <= 0)%Q ->
  round q = Infinity true \/ exists r, round q = Finite r /\ (r <= 0)%Q.
Proof.
  intros H. destruct q as [n d]. unfold round. cbn [Qnum Qden].
  destruct n as [|n|n].
  - right. exists 0%Q. split; [reflexivity|lra].
  - exfalso. unfold Qle in H. cbn in H. lia.
  - destruct (round_positive_spec (Zpos n) (Zpos d) eq_refl eq_refl)
      as [[E|(r & E & R)] _]; rewrite E; cbn [opp negb].
    + now left.
    + right. eexists. split; [reflexivity|]. rewrite Qred_correct. lra.
Qed.

(** Between [2^-1022] and [2^64] the rounding is finite and within the part
    [2^-53] of the value. *)
Lemma round_error (q : Q) :
  (2 ^ (-1022) <= q)%Q -> (q <= 2 ^ 64)%Q ->
  exists r,
    round q = Finite r
    /\ ((1 - roundoff) * q <= r)%Q /\ (r <= (1 + roundoff) * q)%Q.
Proof.
  intros Lo Hi.
  assert (P : (0 < q)%Q).
  { apply Qlt_le_trans with (y := (2 ^ (-1022))%Q); [apply two_pos | exact Lo]. }
  destruct q as [n d]. unfold round. cbn [Qnum Qden].
  destruct n as [|n|n]; try (exfalso; unfold Qlt in P; cbn in P; lia).
  set (l := (2 ^ (-1022))%Q) in *. set (c := (2 ^ 64)%Q) in *.
  assert (Qd : (0 < inject_Z (Zpos d))%Q) by now apply inject_pos.
  assert (E : (Zpos n # d == inject_Z (Zpos n) / inject_Z (Zpos d))%Q)
    by apply Qmake_Qdiv.
  assert (EN : (inject_Z (Zpos n)
                == inject_Z (Zpos n) / inject_Z (Zpos d) * inject_Z (Zpos d))%Q)
    by (field; lra).
  destruct (round_positive_error (Zpos n) (Zpos d) eq_refl eq_refl)
    as (r & Er & A & B).
  - fold l. rewrite EN, <- E. apply Qmult_le_compat_r; [exact Lo | lra].
  - fold c. rewrite EN, <- E. apply Qmult_le_compat_r; [exact Hi | lra].
  - exists r. split; [exact Er|].
    set (N := inject_Z (Zpos n)) in *. set (D := inject_Z (Zpos d)) in *.
    rewrite E.
    assert (A' : ((1 - roundoff) * (N / D) * D <= r * D)%Q).
    { assert (X : ((1 - roundoff) * (N / D) * D == (1 - roundoff) * N)%Q)
        by (field; lra).
      now rewrite X. }
    assert (B' : (r * D <= (1 + roundoff) * (N / D) * D)%Q).
    { assert (X : ((1 + roundoff) * (N / D) * D == (1 + roundoff) * N)%Q)
        by (field; lra).
      now rewrite X. }
    split.
    + apply Qmult_le_r in A'; assumption.
    + apply Qmult_le_r in B'; assumption.
Qed.

(** The rounding at work: 0.1 and 700/3 become the binary64 values next to
    them, an integer half-way between two values goes to the even one,
    the largest value is followed by infinity, and half of the smallest
    value goes to zero. *)
Lemma round_examples :
  round (1 # 10) = Finite (3602879701896397 # 36028797018963968)
  /\ round (700 # 3) = Finite (8209686820727467 # 35184372088832)
  /\ of_int (2 ^ 53 + 1) = Finite (inject_Z (2 ^ 53))
  /\ of_int (2 ^ 53 + 3) = Finite (inject_Z (2 ^ 53 + 4))
  /\ of_int (2 ^ 1024 - 2 ^ 970 - 1)
     = Finite (inject_Z (2 ^ 1024 - 2 ^ 971))
  /\ of_int (2 ^ 1024 - 2 ^ 970) = Infinity false
  /\ round (1 # 2 ^ 1075) = Finite 0
  /\ div (Finite 1) (Finite 0) = Infinity false
  /\ div (Finite 0) (Finite 0) = NaN.
Proof. vm_compute. repeat split. Qed.

(** *** The speed *)

Lemma epsilon_value :
  round (1 # 1000) = Finite (1152921504606847 # 1152921504606846976).
Proof. vm_compute. reflexivity. Qed.

Lemma thousand_value : of_int 1000 = Finite 1000.
Proof. vm_compute. reflexivity. Qed.

Lemma elapsed_seconds_floor (now first : Z) :
  at_least_epsilon (elapsed_seconds now first).
Proof.
  unfold at_least_epsilon, elapsed_seconds.
  rewrite thousand_value, epsilon_value.
  set (eps := (1152921504606847 # 1152921504606846976)%Q).
  assert (P : (0 < eps)%Q) by reflexivity.
  assert (D : forall x, x <> NaN ->
            match Math_max (Finite eps) x with
            | Finite d => (0 < eps)%Q /\ (eps <= d)%Q
            | Infinity false => True
            | _ => False
            end).
  { intros [b|[|]|] Hx; cbn [Math_max]; [| |exact I|congruence].
    - destruct (Qle_bool eps b) eqn:L.
      + apply Qle_bool_iff in L. now split.
      + split; [exact P | apply Qle_refl].
    - split; [exact P | apply Qle_refl]. }
  apply D. unfold of_int.
  pose proof (round_not_NaN (inject_Z (now - first))) as N.
  destruct (round (inject_Z (now - first))) as [t|s|]; [| |congruence].
  - cbn [div]. change (Qeq_bool 1000 0) with false. cbv iota.
    apply round_not_NaN.
  - cbn [div]. discriminate.
Qed.

(** What the floor is for: at [now = firstTokenTime] the quotient over the
    bare seconds is infinite, or undefined for an empty answer. *)
Lemma speed_without_floor :
  div (Finite 5) (div (of_int (1200 - 1200)) (of_int 1000)) = Infinity false
  /\ div (Finite 0) (div (of_int (1200 - 1200)) (of_int 1000)) = NaN
  /\ div (Finite 5) (elapsed_seconds 1200 1200) = Finite 5000.
Proof. vm_compute. repeat split. Qed.

Lemma inject_nonneg (z : Z) : (0 <= z)%Z -> (0 <= inject_Z z)%Q.
Proof. intros H. change 0%Q with (inject_Z 0). now rewrite <- Zle_Qle. Qed.

Lemma small_le_one : (2 ^ (-1022) <= 1 # 4503599627370496)%Q.
Proof. change (1 # 4503599627370496)%Q with (2 ^ (-52))%Q. now apply two_le. Qed.

Lemma below_two_64 (z : Z) : (z < 2 ^ 53)%Z -> (inject_Z z * 2048 <= 2 ^ 64)%Q.
Proof.
  intros H.
  assert (E : (2 ^ 64 == inject_Z (2 ^ 53) * 2048)%Q) by reflexivity.
  rewrite E. apply Qmult_le_compat_r; [|discriminate].
  rewrite <- Zle_Qle. lia.
Qed.

(** When no millisecond has passed, or the clock was set back, the
    denominator is the floor. *)
Lemma elapsed_seconds_at_floor (now first : Z) :
  (now - first <= 0)%Z -> elapsed_seconds now first = round (1 # 1000).
Proof.
  intros H. unfold elapsed_seconds. rewrite thousand_value, epsilon_value.
  set (eps := (1152921504606847 # 1152921504606846976)%Q).
  assert (P : (0 < eps)%Q) by reflexivity.
  assert (Q0 : (inject_Z (now - first) <= 0)%Q).
  { change 0%Q with (inject_Z 0). now rewrite <- Zle_Qle. }
  unfold of_int.
  destruct (round_nonpos _ Q0) as [E|(r & E & R)]; rewrite E; cbn [div].
  - reflexivity.
  - change (Qeq_bool 1000 0) with false. cbv iota.
    assert (Q1 : (r / 1000 <= 0)%Q).
    { apply Qle_shift_div_r; [reflexivity | lra]. }
    destruct (round_nonpos _ Q1) as [E'|(r' & E' & R')]; rewrite E';
      cbn [Math_max]; [reflexivity|].
    destruct (Qle_bool eps r') eqn:L; [|reflexivity].
    apply Qle_bool_iff in L. lra.
Qed.

(** From the first millisecond on, the denominator is the thousandth part
    of the milliseconds, twice rounded. *)
Lemma elapsed_seconds_value (now first : Z) :
  (1 <= now - first < 2 ^ 53)%Z ->
  exists d,
    elapsed_seconds now first = Finite d
    /\ ((1 - roundoff) * (1 - roundoff) * inject_Z (now - first)
        <= 1000 * d)%Q
    /\ (1000 * d
        <= (1 + roundoff) * (1 + roundoff) * inject_Z (now - first))%Q.
Proof.
  intros [H1 H2]. unfold elapsed_seconds.
  rewrite thousand_value, epsilon_value.
  set (eps := (1152921504606847 # 1152921504606846976)%Q).
  set (M := inject_Z (now - first)).
  assert (M1 : (1 <= M)%Q).
  { change 1%Q with (inject_Z 1). unfold M. rewrite <- Zle_Qle. lia. }
  pose proof (below_two_64 _ H2) as M2. fold M in M2.
  pose proof small_le_one as S.
  unfold of_int. fold M.
  destruct (round_error M) as (x & Ex & X1 & X2).
  { set (l := (2 ^ (-1022))%Q) in *. lra. }
  { set (c := (2 ^ 64)%Q) in *. lra. }
  rewrite Ex. cbn [div]. change (Qeq_bool 1000 0) with false. cbv iota.
  assert (Y : (x / 1000 * 1000 == x)%Q) by (field; discriminate).
  set (y := (x / 1000)%Q) in *.
  unfold roundoff in *.
  destruct (round_error y) as (d & Ed & D1 & D2).
  { set (l := (2 ^ (-1022))%Q) in *. lra. }
  { set (c := (2 ^ 64)%Q) in *. lra. }
  unfold roundoff in *.
  rewrite Ed. cbn [Math_max].
  destruct (Qle_bool eps d) eqn:L.
  - exists d. split; [reflexivity|]. split; lra.
  - exists eps. split; [reflexivity|].
    assert (L' : (d < eps)%Q).
    { apply Qnot_le_lt. intros C. apply Qle_bool_iff in C. congruence. }
    unfold eps in *. split; lra.
Qed.

(** Over a denominator that is at least 0.001 the quotient neither
    overflows nor is undefined. *)
Lemma speed_finite (chars now first : Z) :
  (0 <= chars < 2 ^ 53)%Z ->
  exists q, div (Finite (inject_Z chars)) (elapsed_seconds now first)
            = Finite q /\ (0 <= q)%Q.
Proof.
  intros [H0 H].
  pose proof (elapsed_seconds_floor now first) as F.
  unfold at_least_epsilon in F. rewrite epsilon_value in F.
  set (eps := (1152921504606847 # 1152921504606846976)%Q) in *.
  destruct (elapsed_seconds now first) as [d|[|]|]; try contradiction.
  - destruct F as [P L]. cbn [div].
    assert (Pd : (0 < d)%Q) by lra.
    destruct (Qeq_bool d 0) eqn:Z0.
    { apply Qeq_bool_iff in Z0. lra. }
    assert (C0 : (0 <= inject_Z chars)%Q).
    { change 0%Q with (inject_Z 0). now rewrite <- Zle_Qle. }
    assert (C1 : (inject_Z chars <= inject_Z (2 ^ 53))%Q).
    { rewrite <- Zle_Qle. lia. }
    apply round_spec.
    + apply Qle_shift_div_l; lra.
    + apply Qle_shift_div_r; [exact Pd|].
      apply Qle_trans with (y := (2 ^ 64 * eps)%Q).
      * apply Qle_trans with (y := inject_Z (2 ^ 53)); [exact C1|].
        vm_compute. discriminate.
      * apply Qmult_le_l; [reflexivity | exact L].
  - exists 0%Q. split; [reflexivity | lra].
Qed.

Lemma metrics_speed_ok (start : Z) (first : option Z) (now : Z)
    (c : jsstring) :
  speed_ok (metrics start first now c).
Proof.
  unfold speed_ok, metrics. cbn [e_speedCps e_outputChars].
  destruct (truthy_num first); [|discriminate].
  intros v n Hv Hn Hb. inversion Hv as [E]. inversion Hn as [En].
  apply speed_finite. lia.
Qed.

(** A count of characters over a denominator between 2^-10 and 2^53: the
    quotient is finite, not negative, and within the part [2^-53] of the
    exact one. *)
Lemma quotient_rounded (c : Z) (d : Q) :
  (0 <= c < 2 ^ 53)%Z -> (1 # 1024 <= d)%Q -> (d <= inject_Z (2 ^ 53))%Q ->
  exists s,
    div (Finite (inject_Z c)) (Finite d) = Finite s
    /\ (0 <= s)%Q
    /\ ((1 - roundoff) * inject_Z c <= s * d)%Q
    /\ (s * d <= (1 + roundoff) * inject_Z c)%Q.
Proof.
  intros [C0 C1] D0 D1. cbn [div].
  assert (Pd : (0 < d)%Q) by lra.
  destruct (Qeq_bool d 0) eqn:Z0.
  { apply Qeq_bool_iff in Z0. lra. }
  destruct (Z.eq_dec c 0) as [->|Hc].
  - exists 0%Q. split.
    + unfold round. destruct d as [[|p|p] q]; reflexivity.
    + change (inject_Z 0) with 0%Q. unfold roundoff. repeat split; lra.
  - set (C := inject_Z c).
    assert (QC : (1 <= C)%Q).
    { change 1%Q with (inject_Z 1). unfold C. rewrite <- Zle_Qle. lia. }
    assert (QC' : (C <= inject_Z (2 ^ 53))%Q).
    { unfold C. rewrite <- Zle_Qle. lia. }
    assert (Ez : (C / d * d == C)%Q) by (field; lra).
    destruct (round_error (C / d)) as (s & Es & S1 & S2).
    + apply Qle_shift_div_l; [exact Pd|].
      apply Qle_trans with (y := ((1 # 9007199254740992) * d)%Q).
      * apply Qmult_le_compat_r; [|lra].
        change (1 # 9007199254740992)%Q with (2 ^ (-53))%Q. now apply two_le.
      * change (inject_Z (2 ^ 53)) with 9007199254740992%Q in D1. lra.
    + apply Qle_shift_div_r; [exact Pd|].
      apply Qle_trans with (y := (2 ^ 64 * (1 # 1024))%Q).
      * change (2 ^ 64 * (1 # 1024))%Q
          with (18446744073709551616 * (1 # 1024))%Q.
        change (inject_Z (2 ^ 53)) with 9007199254740992%Q in QC'. lra.
      * apply Qmult_le_l; [reflexivity | exact D0].
    + exists s. split; [exact Es|].
      set (z := (C / d)%Q) in *. unfold roundoff in *.
      assert (Pz : (0 <= z)%Q).
      { unfold z. apply Qle_shift_div_l; lra. }
      split; [lra|].
      rewrite <- Ez.
      split.
      * assert (X : ((1 - (1 # 9007199254740992)) * (z * d)
                     == (1 - (1 # 9007199254740992)) * z * d)%Q) by ring.
        rewrite X. apply Qmult_le_compat_r; lra.
      * assert (X : ((1 + (1 # 9007199254740992)) * (z * d)
                     == (1 + (1 # 9007199254740992)) * z * d)%Q) by ring.
        rewrite X. apply Qmult_le_compat_r; lra.
Qed.

(** The speed is the count of characters per second since the first
    fragment, to within the tolerance; at the floor it is the count per
    millisecond. *)
Lemma speed_within (chars now first : Z) :
  (0 <= chars < 2 ^ 53)%Z -> (now - first < 2 ^ 53)%Z ->
  exists s,
    div (Finite (inject_Z chars)) (elapsed_seconds now first) = Finite s
    /\ ((1 <= now - first)%Z ->
        within (inject_Z chars * 1000 / inject_Z (now - first)) s)
    /\ ((now - first <= 0)%Z -> within (inject_Z chars * 1000) s).
Proof.
  intros Hc Hm.
  pose proof (inject_nonneg chars ltac:(lia)) as C0.
  destruct (Z_le_gt_dec (now - first) 0) as [H|H].
  - rewrite (elapsed_seconds_at_floor now first H), epsilon_value.
    destruct (quotient_rounded chars
                (1152921504606847 # 1152921504606846976) Hc)
      as (s & Es & S0 & S1 & S2); [discriminate|discriminate|].
    exists s. split; [exact Es|]. split; [intros; lia|]. intros _.
    set (C := inject_Z chars) in *.
    unfold within, tolerance, roundoff in *. split; lra.
  - destruct (elapsed_seconds_value now first ltac:(lia))
      as (d & Ed & D1 & D2).
    rewrite Ed.
    set (M := inject_Z (now - first)) in *.
    assert (M1 : (1 <= M)%Q).
    { change 1%Q with (inject_Z 1). unfold M. rewrite <- Zle_Qle. lia. }
    assert (M2 : (M <= 9007199254740992)%Q).
    { change 9007199254740992%Q with (inject_Z (2 ^ 53)).
      unfold M. rewrite <- Zle_Qle. lia. }
    unfold roundoff in D1, D2.
    destruct (quotient_rounded chars d Hc) as (s & Es & S0 & S1 & S2).
    { lra. }
    { change (inject_Z (2 ^ 53)) with 9007199254740992%Q. lra. }
    exists s. split; [exact Es|]. split; [|intros; lia]. intros _.
    set (C := inject_Z chars) in *.
    assert (T1 : ((1 - (1 # 9007199254740992)) * (1 - (1 # 9007199254740992))
                  * (s * M) <= 1000 * (s * d))%Q).
    { assert (X : ((1 - (1 # 9007199254740992))
                   * (1 - (1 # 9007199254740992)) * (s * M)
                   == (1 - (1 # 9007199254740992))
                      * (1 - (1 # 9007199254740992)) * M * s)%Q) by ring.
      assert (Y : (1000 * (s * d) == 1000 * d * s)%Q) by ring.
      rewrite X, Y. apply Qmult_le_compat_r; assumption. }
    assert (T2 : (1000 * (s * d)
                  <= (1 + (1 # 9007199254740992))
                     * (1 + (1 # 9007199254740992)) * (s * M))%Q).
    { assert (X : ((1 + (1 # 9007199254740992))
                   * (1 + (1 # 9007199254740992)) * (s * M)
                   == (1 + (1 # 9007199254740992))
                      * (1 + (1 # 9007199254740992)) * M * s)%Q) by ring.
      assert (Y : (1000 * (s * d) == 1000 * d * s)%Q) by ring.
      rewrite X, Y. apply Qmult_le_compat_r; assumption. }
    assert (EI : (C * 1000 / M * M == C * 1000)%Q) by (field; lra).
    set (ideal := (C * 1000 / M)%Q) in *.
    unfold within, tolerance, roundoff in *.
    assert (PM : (0 < M)%Q) by lra.
    split.
    + apply (Qmult_le_r _ _ M PM).
      assert (X : (ideal * (1 - (1 # 2251799813685248)) * M
                   == (1 - (1 # 2251799813685248)) * (ideal * M))%Q) by ring.
      rewrite X, EI. lra.
    + apply (Qmult_le_r _ _ M PM).
      assert (X : (ideal * (1 + (1 # 2251799813685248)) * M
                   == (1 + (1 # 2251799813685248)) * (ideal * M))%Q) by ring.
      rewrite X, EI. lra.
Qed.

Lemma metrics_latency_ok (start : Z) (first : option Z) (now : Z)
    (c : jsstring) :
  (forall f, first = Some f -> (f <= now)%Z) ->
  latency_ok (metrics start first now c).
Proof.
  intros H a b. unfold metrics. cbn.
  destruct first as [f|]; cbn; [|discriminate].
  destruct (negb (f =? 0)%Z); [|discriminate].
  intros Ha Hb. inversion Ha. inversion Hb. specialize (H f eq_refl). lia.
Qed.

Lemma metrics_undefined_before_first_fragment (start now : Z) (c : jsstring) :
  e_firstTokenMs (metrics start None now c) = None
  /\ e_speedCps (metrics start None now c) = None.
Proof. now split. Qed.

(** ** What a turn sends out *)

Section Record_of_a_turn.

Variable now_at : nat -> Z.
Variable uuid_at : nat -> jsstring.
Variable handleError : JsError -> string -> jsstring.
Hypothesis clock_monotone : monotone now_at.

Local Abbreviation after := (follows metrics_ok).

Lemma after_refl (w : World) : after w w.
Proof.
  split; [lia|]. exists []. split; [now rewrite app_nil_r | constructor].
Qed.

Lemma after_trans (w1 w2 w3 : World) :
  after w1 w2 -> after w2 w3 -> after w1 w3.
Proof.
  intros [H1 (d1 & E1 & F1)] [H2 (d2 & E2 & F2)].
  split; [lia|]. exists (d1 ++ d2). split.
  - now rewrite E2, E1, app_assoc.
  - now apply Forall_app.
Qed.

Lemma after_same (w w' : World) :
  io w' = io w -> (clock_reads w <= clock_reads w')%nat -> after w w'.
Proof.
  intros E H. split; [exact H|]. exists [].
  split; [now rewrite app_nil_r | constructor].
Qed.

Lemma after_emit (e : IO) (w : World) : metrics_ok e -> after w (emit e w).
Proof.
  intros H. split; [cbn; lia|]. exists [e]. split; [reflexivity|].
  now constructor.
Qed.

Ltac quiet := apply after_same; [reflexivity | cbn; lia].

Lemma after_Date_now (w : World) : after w (snd (Date_now now_at w)).
Proof. quiet. Qed.

Lemma after_syncActiveChat (w : World) : after w (syncActiveChat w).
Proof. quiet. Qed.

Lemma after_clear_if_set (h : option nat) (w : World) :
  after w (clear_if_set h w).
Proof. destruct h; [quiet | apply after_refl]. Qed.

Lemma after_persistChatMessages (chatId : jsstring) (w : World) :
  after w (persistChatMessages chatId w).
Proof.
  unfold persistChatMessages.
  destruct (findById chat_id (chats w) chatId);
    [now apply after_emit | apply after_refl].
Qed.

Lemma after_addMessage (chatId : jsstring) (m : Message)
    (a : option AddedAttachment) (w : World) :
  after w (snd (addMessage now_at uuid_at chatId m a w)).
Proof.
  unfold addMessage.
  destruct (findById chat_id (chats w) chatId); [|apply after_refl].
  destruct (msg_role m); try apply after_refl; quiet.
Qed.

Lemma after_updateMessage (chatId : jsstring) (messageId : option jsstring)
    (content : jsstring) (il : option bool) (tt : option Z)
    (it : option bool) (extra : option Extra) (w : World) :
  metrics_ok (IoUpdateMessage chatId messageId content il tt it extra) ->
  after w (updateMessage chatId messageId content il tt it extra w).
Proof.
  intros H. unfold updateMessage.
  set (w0 := emit _ w).
  assert (H0 : after w w0) by now apply after_emit.
  destruct (findById chat_id (chats w0) chatId) as [c|]; [|exact H0].
  destruct messageId as [id|]; [|exact H0].
  destruct (find_message c (Some id)); [|exact H0].
  eapply after_trans; [exact H0|].
  eapply after_trans; [|apply after_syncActiveChat].
  eapply after_trans; [|now apply after_emit]. quiet.
Qed.

Lemma after_renameChat (chatId newTitle : jsstring) (w : World) :
  after w (renameChat chatId newTitle w).
Proof.
  unfold renameChat, persistChatMeta.
  destruct (findById chat_id (chats w) chatId); [|apply after_refl].
  eapply after_trans; [|apply after_syncActiveChat].
  eapply after_trans; [|apply after_emit; exact I]. quiet.
Qed.

Lemma after_generateChatTitle (chatId : jsstring) (reply : option jsstring)
    (w : World) :
  after w (generateChatTitle chatId reply w).
Proof.
  unfold generateChatTitle.
  destruct (findById chat_id (chats w) chatId) as [c|]; [|apply after_refl].
  destruct (messages c); [apply after_refl|].
  destruct (_ && _); [apply after_renameChat|].
  destruct reply;
    (eapply after_trans; [|apply after_renameChat]; apply after_emit; exact I).
Qed.

Lemma after_followUp (chatId : jsstring) (reply : option jsstring)
    (w : World) :
  after w (followUp chatId reply w).
Proof.
  unfold followUp.
  set (w1 := match findById chat_id (chats w) chatId with
              | Some _ => _
              | None => _
              end).
  assert (H1 : after w w1).
  { unfold w1.
    destruct (findById chat_id (chats w) chatId) as [c|]; [|apply after_refl].
    destruct (shouldGenerateTitle w c); [|apply after_refl].
    apply after_trans with (w2 := set_isGeneratingTitle true w); [quiet|].
    eapply after_trans; [apply after_generateChatTitle | quiet]. }
  cbv zeta. eapply after_trans; [exact H1|].
  eapply after_trans; [|apply after_syncActiveChat]. quiet.
Qed.

(** *** The closures *)

Section Closures_of_a_turn.

Variable chatId : jsstring.
Variable requestStartTime : Z.
Variable isImage : bool.

Lemma stamped_before_later (t t' : Turn) (w w' : World) :
  stamped_before now_at t w -> after w w' ->
  firstTokenTime t' = firstTokenTime t ->
  stamped_before now_at t' w'.
Proof.
  intros H [Hc _] E f Hf. rewrite E in Hf.
  specialize (H f Hf). specialize (clock_monotone _ _ Hc). lia.
Qed.

Lemma stamp_first_token_spec (t : Turn) (w : World) :
  stamped_before now_at t w ->
  stamped_before now_at (fst (stamp_first_token now_at t w))
                        (snd (stamp_first_token now_at t w))
  /\ after w (snd (stamp_first_token now_at t w)).
Proof.
  intros H. unfold stamp_first_token.
  destruct (firstTokenTime t) as [f|] eqn:E; cbn [fst snd Date_now].
  - split; [exact H | apply after_refl].
  - split; [|quiet].
    intros f Hf. cbn in Hf. inversion Hf. subst f. cbn.
    apply clock_monotone. lia.
Qed.

Lemma after_startThinkTimeUpdates (t : Turn) (w : World) :
  after w (snd (startThinkTimeUpdates t w)).
Proof.
  unfold startThinkTimeUpdates. cbn [setInterval snd].
  destruct (thinkTimeInterval t); quiet.
Qed.

Lemma updateThinkStateFromChunk_spec (c : jsstring) (t : Turn) (w : World) :
  firstTokenTime (fst (updateThinkStateFromChunk now_at c t w))
  = firstTokenTime t
  /\ after w (snd (updateThinkStateFromChunk now_at c t w)).
Proof.
  unfold updateThinkStateFromChunk, startThinkTimeUpdates.
  cbn [setInterval Date_now].
  destruct (negb _ && some_included THINK_OPEN_TAGS _);
    match goal with
    | |- context [if ?b then _ else _] => destruct b
    end; cbn [fst snd]; (split; [reflexivity|]);
    try apply after_refl;
    repeat match goal with
           | |- context [clear_if_set ?h _] => destruct h; cbn [clear_if_set]
           end; quiet.
Qed.

Lemma open_think_block_spec (t : Turn) (w : World) :
  firstTokenTime (fst (open_think_block now_at t w)) = firstTokenTime t
  /\ after w (snd (open_think_block now_at t w)).
Proof.
  unfold open_think_block. cbn [Date_now].
  destruct (negb (isInThinkBlock t)); cbn [fst snd];
    [|split; [reflexivity | apply after_refl]].
  split; [reflexivity|].
  eapply after_trans; [|apply after_startThinkTimeUpdates]. quiet.
Qed.

Lemma close_think_block_spec (t : Turn) (w : World) :
  firstTokenTime (fst (close_think_block t w)) = firstTokenTime t
  /\ after w (snd (close_think_block t w)).
Proof.
  unfold close_think_block.
  destruct (usesThinkingField t && isInThinkBlock t); cbn [fst snd];
    (split; [reflexivity|]); [apply after_clear_if_set | apply after_refl].
Qed.

Lemma detect_tags_spec (c : jsstring) (t : Turn) (w : World) :
  firstTokenTime (fst (detect_tags now_at c t w)) = firstTokenTime t
  /\ after w (snd (detect_tags now_at c t w)).
Proof.
  unfold detect_tags. destruct (negb (usesThinkingField t)).
  - apply updateThinkStateFromChunk_spec.
  - split; [reflexivity | apply after_refl].
Qed.

Lemma create_assistant_content_spec (t : Turn) (w : World) :
  firstTokenTime
    (fst (create_assistant_content now_at uuid_at chatId requestStartTime t w))
  = firstTokenTime t
  /\ after w
       (snd (create_assistant_content now_at uuid_at chatId requestStartTime t w)).
Proof.
  unfold create_assistant_content.
  destruct (assistantMessageId t); [split; [reflexivity | apply after_refl]|].
  destruct (truthy_num (thinkStartTime t) && isInThinkBlock t);
    cbn [Date_now];
    match goal with
    | |- context [addMessage ?a ?b ?c ?d ?e ?f] =>
        pose proof (after_addMessage c d e f) as H;
        destruct (addMessage a b c d e f) as [id wc]
    end; cbn [fst snd] in *; (split; [reflexivity|]);
    (eapply after_trans; [|exact H]); quiet.
Qed.

Lemma create_assistant_thinking_spec (t : Turn) (w : World) :
  firstTokenTime
    (fst (create_assistant_thinking now_at uuid_at chatId requestStartTime t w))
  = firstTokenTime t
  /\ after w
       (snd (create_assistant_thinking now_at uuid_at chatId requestStartTime t w)).
Proof.
  unfold create_assistant_thinking.
  destruct (assistantMessageId t); [split; [reflexivity | apply after_refl]|].
  cbn [Date_now].
  match goal with
  | |- context [addMessage ?a ?b ?c ?d ?e ?f] =>
      pose proof (after_addMessage c d e f) as H;
      destruct (addMessage a b c d e f) as [id wc]
  end; cbn [fst snd] in *; (split; [reflexivity|]).
  eapply after_trans; [|exact H]. quiet.
Qed.

(** An update that carries the metrics of the turn, computed at a reading
    of the clock not before the stamp of the first fragment, is sound. *)
Lemma report_ok (t : Turn) (w : World) (content : jsstring)
    (mid : option jsstring) (il : option bool) (tt : option Z)
    (it : option bool) :
  stamped_before now_at t w ->
  metrics_ok
    (IoUpdateMessage chatId mid content il tt it
       (Some (metrics requestStartTime (firstTokenTime t)
                (now_at (clock_reads w)) content))).
Proof.
  intros H. split; [apply metrics_speed_ok | now apply metrics_latency_ok].
Qed.

(** Name the result of the next stage, with what is known of it. *)
Ltac stage t' w' Hf Ha lemma :=
  match goal with
  | |- context [let (_, _) := ?e in _] =>
      destruct lemma as [Hf Ha];
      destruct e as [t' w']; cbn [fst snd] in Hf, Ha
  end.

Lemma onContent_spec (c : jsstring) (t : Turn) (w : World) :
  stamped_before now_at t w ->
  stamped_before now_at
    (fst (onContent now_at uuid_at chatId requestStartTime c t w))
    (snd (onContent now_at uuid_at chatId requestStartTime c t w))
  /\ after w (snd (onContent now_at uuid_at chatId requestStartTime c t w)).
Proof.
  intros H. unfold onContent.
  stage t1 w1 S1 A1 (stamp_first_token_spec t w H).
  stage t2 w2 F2 A2 (close_think_block_spec t1 w1).
  stage t3 w3 F3 A3 (detect_tags_spec c t2 w2).
  stage t4 w4 F4 A4 (create_assistant_content_spec t3 w3).
  assert (S4 : stamped_before now_at t4 w4).
  { apply stamped_before_later with (t := t1) (w := w1); [exact S1| |congruence].
    eapply after_trans; [exact A2|]. eapply after_trans; eassumption. }
  cbn [Date_now fst snd].
  set (t5 := set_assistantContent (assistantContent t4 ++ c) t4).
  set (w5 := set_clock_reads (S (clock_reads w4)) w4).
  assert (A5 : after w4 w5) by quiet.
  match goal with
  | |- context [updateMessage ?a ?b ?cc ?d ?e ?f ?g w5] =>
      assert (A6 : after w5 (updateMessage a b cc d e f g w5))
  end.
  { apply after_updateMessage.
    apply (report_ok t5 w4). exact S4. }
  split.
  - apply stamped_before_later with (t := t4) (w := w4);
      [exact S4 | eapply after_trans; eassumption | reflexivity].
  - eapply after_trans; [exact A1|]. eapply after_trans; [exact A2|].
    eapply after_trans; [exact A3|]. eapply after_trans; [exact A4|].
    eapply after_trans; eassumption.
Qed.

Lemma onThinking_spec (c : jsstring) (t : Turn) (w : World) :
  stamped_before now_at t w ->
  stamped_before now_at
    (fst (onThinking now_at uuid_at chatId requestStartTime c t w))
    (snd (onThinking now_at uuid_at chatId requestStartTime c t w))
  /\ after w (snd (onThinking now_at uuid_at chatId requestStartTime c t w)).
Proof.
  intros H. unfold onThinking.
  assert (H0 : stamped_before now_at (set_usesThinkingField true t) w)
    by exact H.
  stage t2 w2 S2 A2 (stamp_first_token_spec (set_usesThinkingField true t) w H0).
  stage t3 w3 F3 A3 (open_think_block_spec t2 w2).
  stage t4 w4 F4 A4 (create_assistant_thinking_spec t3 w3).
  assert (S4 : stamped_before now_at t4 w4).
  { apply stamped_before_later with (t := t2) (w := w2); [exact S2| |congruence].
    eapply after_trans; eassumption. }
  cbn [Date_now fst snd].
  set (t5 := set_assistantContent (assistantContent t4 ++ c) t4).
  set (w5 := set_clock_reads (S (clock_reads w4)) w4).
  assert (A5 : after w4 w5) by quiet.
  match goal with
  | |- context [updateMessage ?a ?b ?cc ?d ?e ?f ?g w5] =>
      assert (A6 : after w5 (updateMessage a b cc d e f g w5))
  end.
  { apply after_updateMessage.
    apply (report_ok t5 w4). exact S4. }
  split.
  - apply stamped_before_later with (t := t4) (w := w4);
      [exact S4 | eapply after_trans; eassumption | reflexivity].
  - eapply after_trans; [exact A2|]. eapply after_trans; [exact A3|].
    eapply after_trans; [exact A4|]. eapply after_trans; eassumption.
Qed.

Lemma onInterval_spec (t : Turn) (w : World) :
  after w (onInterval now_at chatId t w).
Proof.
  unfold onInterval.
  destruct (_ && _); [|apply after_refl].
  cbn [Date_now].
  eapply after_trans; [|apply after_updateMessage; exact I]. quiet.
Qed.

Lemma onEvent_spec (e : Event) (t : Turn) (w : World) :
  stamped_before now_at t w ->
  let r := onEvent now_at uuid_at chatId requestStartTime isImage (t, w) e in
  stamped_before now_at (fst r) (snd r) /\ after w (snd r).
Proof.
  intros H. destruct e as [d|]; cbn [onEvent].
  - unfold onData.
    destruct (truthy_opt (message_thinking d)); [now apply onThinking_spec|].
    destruct (truthy_opt _); [now apply onContent_spec|].
    split; [exact H | apply after_refl].
  - cbn [fst snd].
    assert (A : after w (if interval_live t w
                         then onInterval now_at chatId t w else w)).
    { destruct (interval_live t w); [apply onInterval_spec | apply after_refl]. }
    split; [|exact A].
    now apply stamped_before_later with (t := t) (w := w).
Qed.

Lemma processStream_spec (events : list Event) (t : Turn) (w : World) :
  stamped_before now_at t w ->
  let r := processStream now_at uuid_at chatId requestStartTime isImage
             events t w in
  stamped_before now_at (fst r) (snd r) /\ after w (snd r).
Proof.
  unfold processStream. revert t w.
  induction events as [|e events IH]; intros t w H.
  - split; [exact H | apply after_refl].
  - cbn [fold_left].
    destruct (onEvent_spec e t w H) as [S1 A1].
    destruct (onEvent now_at uuid_at chatId requestStartTime isImage (t, w) e)
      as [t1 w1].
    cbn [fst snd] in *.
    destruct (IH t1 w1 S1) as [S2 A2].
    split; [exact S2 | eapply after_trans; eassumption].
Qed.

Lemma cleanup_spec (t : Turn) (w : World) :
  stamped_before now_at t w ->
  after w (cleanup now_at chatId requestStartTime t w).
Proof.
  intros H. unfold cleanup.
  set (w1 := clear_if_set (thinkTimeInterval t) w).
  assert (A1 : after w w1) by apply after_clear_if_set.
  destruct (_ && _); [|exact A1].
  cbn [Date_now].
  eapply after_trans; [exact A1|].
  eapply after_trans; [|apply after_updateMessage, (report_ok t w1)].
  - quiet.
  - now apply stamped_before_later with (t := t) (w := w).
Qed.

Lemma finalize_spec (t : Turn) (w : World) :
  stamped_before now_at t w ->
  after w (finalize now_at chatId requestStartTime t w).
Proof.
  intros H. unfold finalize.
  destruct (truthy_opt (assistantMessageId t)); [|apply after_refl].
  match goal with
  | |- context [let (_, _) := ?e in _] =>
      assert (A : after w (snd e))
        by (destruct (_ && _); [cbn [Date_now snd]; quiet | apply after_refl]);
      destruct e as [ftt wa]
  end.
  cbn [snd] in A. cbn [Date_now].
  set (wb := clear_if_set (thinkTimeInterval t) wa).
  assert (Ab : after wa wb) by apply after_clear_if_set.
  eapply after_trans; [exact A|]. eapply after_trans; [exact Ab|].
  eapply after_trans; [|apply after_syncActiveChat].
  eapply after_trans; [|apply after_persistChatMessages].
  eapply after_trans; [|apply after_updateMessage, (report_ok t wb)].
  - quiet.
  - apply stamped_before_later with (t := t) (w := w);
      [exact H | eapply after_trans; eassumption | reflexivity].
Qed.

End Closures_of_a_turn.

Lemma sendMessage_try_spec (chatId content : jsstring)
    (att : option Attachment) (env : Collaborators) (w : World) :
  after w (snd (sendMessage_try now_at uuid_at chatId content att env w)).
Proof.
  unfold sendMessage_try.
  destruct (findById chat_id (chats w) chatId); [|apply after_refl].
  destruct (models (cfg w)); [apply after_refl|].
  destruct (_ && _); [apply after_refl|].
  set (w2 := emit IoSidePipelines _).
  assert (A2 : after w w2).
  { eapply after_trans; [|apply after_emit; exact I]. quiet. }
  destruct (side env) as [ui model|e]; [|exact A2].
  cbn [Date_now].
  match goal with
  | |- context [addMessage ?a ?b ?c ?d ?e ?f] =>
      pose proof (after_addMessage c d e f) as A4;
      destruct (addMessage a b c d e f) as [userMessageId w4]
  end.
  cbn [snd] in A4.
  assert (A4' : after w w4).
  { eapply after_trans; [exact A2|]. eapply after_trans; [|exact A4]. quiet. }
  destruct (negb (truthy_opt userMessageId)); [exact A4'|].
  set (w7 := syncActiveChat _).
  assert (A7 : after w w7).
  { eapply after_trans; [exact A4'|].
    eapply after_trans; [|apply after_syncActiveChat].
    eapply after_trans; [apply after_persistChatMessages|].
    apply after_emit. exact I. }
  destruct (buildOllamaRequestBody _ _ _ _ _ _ _ _) as [e|body]; [exact A7|].
  set (w9 := emit (IoFetch body) _).
  assert (A9 : after w w9).
  { eapply after_trans; [exact A7|].
    eapply after_trans; [|apply after_emit; exact I]. quiet. }
  destruct (fetched env) as [e|events ending]; [exact A9|].
  assert (S9 : stamped_before now_at initialTurn w9) by (intros f Hf; discriminate).
  destruct (processStream_spec chatId (now_at (clock_reads w7))
              (is_image att) events initialTurn w9 S9) as [S10 A10].
  destruct (processStream _ _ _ _ _ _ _ _) as [t w10].
  cbn [fst snd] in S10, A10.
  assert (A10' : after w w10) by (eapply after_trans; eassumption).
  destruct ending as [| |e]; cbn [snd].
  - eapply after_trans; [exact A10'|].
    eapply after_trans; [|apply after_followUp].
    now apply finalize_spec.
  - eapply after_trans; [exact A10'|].
    apply after_trans
      with (w2 := set_abortController (Some {| aborted := true |}) w10);
      [quiet|].
    apply cleanup_spec.
    now apply stamped_before_later with (t := t) (w := w10); [|quiet|].
  - exact A10'.
Qed.

Lemma sendMessage_spec (chatId content : jsstring)
    (att : option Attachment) (env : Collaborators) (w : World) :
  after w (snd (sendMessage now_at uuid_at handleError chatId content att env w)).
Proof.
  unfold sendMessage.
  pose proof (sendMessage_try_spec chatId content att env w) as A.
  destruct (sendMessage_try _ _ _ _ _ _ _) as [r w1]. cbn [snd] in A.
  destruct r as [[|m]|[]]; cbn [snd];
    (eapply after_trans; [exact A|]); quiet.
Qed.

End Record_of_a_turn.

Lemma processStream_no_fragment
    (now_at : nat -> Z) (uuid_at : nat -> jsstring) (chatId : jsstring)
    (start : Z) (isImage : bool) (events : list Event) (t : Turn) (w : World) :
  fragments isImage events = [] ->
  fst (processStream now_at uuid_at chatId start isImage events t w) = t.
Proof.
  unfold processStream. revert w.
  induction events as [|e events IH]; intros w H; [reflexivity|].
  cbn [fold_left].
  unfold fragments in H. cbn [flat_map] in H.
  apply app_eq_nil in H. destruct H as [He H].
  destruct e as [d|]; cbn [onEvent].
  - unfold onData. unfold classify in He.
    destruct (truthy_opt (message_thinking d)); [discriminate|].
    destruct (truthy_opt _); [discriminate|]. now apply IH.
  - now apply IH.
Qed.

Lemma sample_clock_monotone : monotone sample_clock.
Proof. intros i j H. unfold sample_clock. lia. Qed.

(** C9 does not hold as stated.  The times of a turn are readings of
    [Date.now()], the clock of the system, which can be set back while the
    turn runs.  Read from a clock that loses 10 ms at every reading, the
    turn resolves and its answer is stored with a first-token latency of
    -10 ms and a response time of -90 ms: the latency is above the time of
    the whole response, as it is in each of the three updates sent with
    metrics. *)
Lemma C9_clock_set_back_breaks_the_order :
  let r := sendMessage clock_set_back sample_uuid sample_handleError
             (str "c1") (str "hi") None sample_answers sample_world in
  ~ monotone clock_set_back
  /\ fst r = Resolved
  /\ last_message_timing (snd r) = Some (Some (-10)%Z, Some (-90)%Z)
  /\ out_of_order (io (snd r))
     = [((-10)%Z, (-60)%Z); ((-10)%Z, (-80)%Z); ((-10)%Z, (-90)%Z)].
Proof.
  split.
  - intros H. specialize (H 0%nat 1%nat (le_S _ _ (le_n _))).
    vm_compute in H. now apply H.
  - vm_compute. repeat split.
Qed.

(** C9 (as corrected): in every metrics computation the denominator of the
    speed is no less than the literal 0.001, which is above zero, so the
    speed of an answer as long as a string can be is a finite number and
    not negative, whatever the clock reads; the first-token latency is
    undefined as long as no fragment has been seen; and, provided the clock
    is never set back, every update a turn sends with metrics, during the
    stream and at its end, has a first-token latency that is at most the
    elapsed time. *)
Theorem C9_metrics_are_sound
    (now_at : nat -> Z) (uuid_at : nat -> jsstring)
    (handleError : JsError -> string -> jsstring) (chatId content : jsstring)
    (att : option Attachment) (env : Collaborators) (w : World) :
  (forall start first now c, speed_ok (metrics start first now c))
  /\ (forall now first, at_least_epsilon (elapsed_seconds now first))
  /\ (forall start now c isImage events w0,
        fragments isImage events = [] ->
        e_firstTokenMs
          (metrics start
             (firstTokenTime
                (fst (processStream now_at uuid_at chatId start isImage
                        events initialTurn w0)))
             now c) = None)
  /\ (monotone now_at ->
      exists sent,
        io (snd (sendMessage now_at uuid_at handleError chatId content att
                   env w))
        = io w ++ sent
        /\ Forall metrics_ok sent).
Proof.
  split; [|split; [|split]].
  - intros. apply metrics_speed_ok.
  - intros. apply elapsed_seconds_floor.
  - intros start now c isImage events w0 H.
    now rewrite processStream_no_fragment.
  - intros Hm.
    exact (proj2 (sendMessage_spec now_at uuid_at handleError Hm
                    chatId content att env w)).
Qed.

Lemma C9_metrics_are_sound_witness :
  monotone sample_clock
  /\ exists sent,
       io (snd (sendMessage sample_clock sample_uuid sample_handleError
                  (str "c1") (str "hi") None sample_answers sample_world))
       = io sample_world ++ sent
       /\ Forall metrics_ok sent.
Proof.
  split; [exact sample_clock_monotone|].
  exact (proj2 (proj2 (proj2 (C9_metrics_are_sound sample_clock sample_uuid
                         sample_handleError (str "c1") (str "hi") None
                         sample_answers sample_world)))
           sample_clock_monotone).
Defined.

(** ** Preconditions *)

(** C7 does not hold as stated.  The guard of sendMessage tests the list of
    models, [!this.models.length]; the model selected is read later, by
    buildOllamaRequestBody, when the user message has been added to the chat
    and handed to the writer.  With settings that name no model and a list
    whose first model has an empty name, no model is selected: the turn is
    rejected with "No model selected", and the chat, empty before, holds the
    user message. *)
Lemma C7_no_selection_stores_the_message :
  let r := sendMessage sample_clock sample_uuid sample_handleError
             (str "c1") (str "hi") None sample_answers unnamed_model_world in
  models (cfg unnamed_model_world) <> []
  /\ selectedModel (cfg unnamed_model_world) = []
  /\ message_ids (str "c1") unnamed_model_world = Some []
  /\ fst r = Rejected (Error "No model selected")
  /\ message_ids (str "c1") (snd r) = Some [str "id-0"]
  /\ last_message_state (snd r) = Some (user, str "hi", None)
  /\ exists saved persisted,
       io (snd r) = [IoSidePipelines; IoPersist saved; IoPersist persisted].
Proof.
  split; [discriminate|].
  vm_compute. repeat split. now eexists _, _.
Qed.

(** C7 (as corrected): when no model is available, the list of models being
    empty, or when there is nothing to send (the text empty once trimmed and
    no attachment), sendMessage rejects with an error before anything is
    asked of a collaborator: the chats and their messages are as they were,
    so is the active chat, and no request, update or write has been
    issued. *)
Theorem C7_preconditions_fail_fast
    (now_at : nat -> Z) (uuid_at : nat -> jsstring)
    (handleError : JsError -> string -> jsstring) (chatId content : jsstring)
    (att : option Attachment) (env : Collaborators) (w : World) :
  no_model_available (cfg w) \/ nothing_to_send content att ->
  let r := sendMessage now_at uuid_at handleError chatId content att env w in
  (exists message, fst r = Rejected (Error message))
  /\ chats (snd r) = chats w
  /\ activeChat (snd r) = activeChat w
  /\ io (snd r) = io w
  /\ clock_reads (snd r) = clock_reads w
  /\ uuids_drawn (snd r) = uuids_drawn w
  /\ isSending (snd r) = false.
Proof.
  intros H. unfold sendMessage, sendMessage_try.
  destruct (findById chat_id (chats w) chatId) as [c|];
    [|cbn; repeat split; now eexists].
  destruct H as [H | [Hc Ha]].
  - unfold no_model_available in H. rewrite H.
    cbn; repeat split; now eexists.
  - destruct (models (cfg w)); [cbn; repeat split; now eexists|].
    rewrite Hc, Ha. cbn; repeat split; now eexists.
Qed.

Lemma C7_preconditions_fail_fast_witness :
  let r := sendMessage sample_clock sample_uuid sample_handleError
             (str "c1") (str "  ") None sample_answers sample_world in
  nothing_to_send (str "  ") None
  /\ fst r = Rejected (Error "Message content or attachment is required")
  /\ chats (snd r) = chats sample_world
  /\ io (snd r) = io sample_world.
Proof.
  intros r.
  assert (E : nothing_to_send (str "  ") None) by (split; reflexivity).
  split; [exact E|].
  destruct (C7_preconditions_fail_fast sample_clock sample_uuid
              sample_handleError (str "c1") (str "  ") None sample_answers
              sample_world (or_intror E)) as (_ & Hc & _ & Hi & _).
  split; [reflexivity|]. split; [exact Hc | exact Hi].
Defined.

(** ** The ways out of a turn *)

(** C2 does not hold of the code.  After the fragment "partial":
    - a transport error rejects the call and leaves the assistant message
      with the content "partial", so the partial message is kept, but with
      its loading flag still true: [catch] does not touch the message;
    - a stop by the user while answering leaves the flag true as well:
      cleanup only updates the message inside a reasoning block;
    - a stop inside a reasoning block, and the end of the stream, set the
      flag to false. *)
Theorem C2_error_and_abort_leave_loading :
  let run env := sendMessage sample_clock sample_uuid sample_handleError
                   (str "c1") (str "hi") None env sample_world in
  (fst (run sample_transport_error) = Rejected (Error "network error")
   /\ last_message_state (snd (run sample_transport_error))
      = Some (assistant, str "partial", Some true))
  /\ (fst (run sample_abort_answering) = Resolved
      /\ last_message_state (snd (run sample_abort_answering))
         = Some (assistant, str "partial", Some true))
  /\ (fst (run sample_abort_reasoning) = Resolved
      /\ last_message_state (snd (run sample_abort_reasoning))
         = Some (assistant, str "<think>hm", Some false))
  /\ (fst (run sample_completion) = Resolved
      /\ last_message_state (snd (run sample_completion))
         = Some (assistant, str "partial", Some false)).
Proof. vm_compute. repeat split. Qed.

(** ** The throttled writers *)

Lemma last_cons_default {A} (x : A) (l : list A) (d d' : A) :
  last (x :: l) d = last (x :: l) d'.
Proof.
  revert x. induction l as [|y l IH]; intros x; [reflexivity|].
  change (last (y :: l) d = last (y :: l) d'). apply IH.
Qed.

Lemma last_cons_cons {A} (x : A) (l : list A) (d : A) :
  last (x :: l) d = last l x.
Proof.
  destruct l as [|y l]; [reflexivity|].
  change (last (y :: l) d = last (y :: l) x). apply last_cons_default.
Qed.

Section Throttled_writer.

Import Throttle.

Variable Snapshot : Type.
Variable k : Kind.

Lemma burst_within_window (t0 : Z) (more : list (Z * Snapshot))
    (th : Throttled Snapshot) (s : Snapshot) :
  pending th = Some (s, (t0 + window k)%Z) ->
  Forall (fun ts => (fst ts < t0 + window k)%Z) more ->
  let th' := burst k more th in
  pending th' = Some (snd (last more (t0, s)), (t0 + window k)%Z)
  /\ stored th' = stored th /\ writes th' = writes th.
Proof.
  revert th s. induction more as [|[t1 s1] more IH]; intros th s Hp Hw.
  - cbn. now rewrite Hp.
  - inversion Hw as [|? ? H1 Hw']. subst. cbn [fst] in H1.
    cbn [burst fold_left fst snd].
    assert (E : elapse t1 th = th).
    { unfold elapse. rewrite Hp.
      destruct (Z.leb_spec (t0 + window k) t1); [lia | reflexivity]. }
    rewrite E.
    set (th1 := submit k t1 s1 th).
    assert (Hp1 : pending th1 = Some (s1, (t0 + window k)%Z)).
    { unfold th1, submit. now rewrite Hp. }
    destruct (IH th1 s1 Hp1 Hw') as (Hp' & Hs' & Hw'').
    change (fold_left _ more th1) with (burst k more th1).
    rewrite Hs', Hw''. split; [|split; unfold th1, submit; now rewrite Hp].
    rewrite Hp', (last_cons_cons (t1, s1) more (t0, s)).
    destruct more as [|x more']; [reflexivity|].
    now rewrite (last_cons_default x more' (t0, s1) (t1, s1)).
Qed.

End Throttled_writer.

(** C8: for every kind of write, N >= 1 submissions within one window of an
    idle writer cause no write before the window closes and exactly one
    when it has closed; what is written, and what the store then holds, is
    the snapshot of the last submission. *)
Theorem C8_burst_writes_last_snapshot_once
    (Snapshot : Type) (k : Throttle.Kind) (th : Throttle.Throttled Snapshot)
    (t0 : Z) (s0 : Snapshot) (more : list (Z * Snapshot)) (later : Z) :
  Throttle.pending th = None ->
  Forall (fun ts => (t0 <= fst ts < t0 + Throttle.window k)%Z) more ->
  (t0 + Throttle.window k <= later)%Z ->
  let subs := (t0, s0) :: more in
  let newest := snd (last subs (t0, s0)) in
  let waiting := Throttle.burst k subs th in
  let settled := Throttle.elapse later waiting in
  Throttle.writes waiting = Throttle.writes th
  /\ Throttle.writes settled = Throttle.writes th ++ [newest]
  /\ Throttle.stored settled = Some newest
  /\ Throttle.pending settled = None
  /\ Throttle.writes (Throttle.flush waiting) = Throttle.writes th ++ [newest]
  /\ Throttle.stored (Throttle.flush waiting) = Some newest.
Proof.
  intros Hp Hw Hl subs newest waiting settled.
  set (th1 := Throttle.submit k t0 s0 th).
  assert (Hp1 : Throttle.pending th1 = Some (s0, (t0 + Throttle.window k)%Z)).
  { unfold th1, Throttle.submit. now rewrite Hp. }
  assert (Hw' : Forall (fun ts => (fst ts < t0 + Throttle.window k)%Z) more).
  { eapply Forall_impl; [|exact Hw]. cbn. intros a Ha. lia. }
  destruct (burst_within_window Snapshot k t0 more th1 s0 Hp1 Hw')
    as (Hb & Hs & Hwr).
  assert (E : waiting = Throttle.burst k more th1).
  { unfold waiting, subs, Throttle.burst. cbn [fold_left fst snd].
    unfold Throttle.elapse. now rewrite Hp. }
  assert (En : newest = snd (last more (t0, s0))).
  { unfold newest, subs. now rewrite last_cons_cons. }
  assert (W1 : Throttle.writes th1 = Throttle.writes th).
  { unfold th1, Throttle.submit. now rewrite Hp. }
  unfold settled, Throttle.elapse, Throttle.flush.
  rewrite E, Hb, En, Hwr, W1.
  destruct (Z.leb_spec (t0 + Throttle.window k) later) as [_|H]; [|lia].
  cbn. rewrite Hwr, W1. repeat split.
Qed.

Lemma C8_burst_writes_last_snapshot_once_witness :
  let subs := [(0, str "a"); (100, str "ab"); (799, str "abc")]%Z in
  let waiting := Throttle.burst Throttle.SaveMessageKind subs
                   (Throttle.idle jsstring) in
  Throttle.writes waiting = []
  /\ Throttle.writes (Throttle.elapse 800 waiting) = [str "abc"]
  /\ Throttle.stored (Throttle.elapse 800 waiting) = Some (str "abc").
Proof.
  intros subs waiting.
  assert (Hw : Forall (fun ts : Z * jsstring =>
                         (0 <= fst ts < 0 + Throttle.window
                                              Throttle.SaveMessageKind)%Z)
                 [(100, str "ab"); (799, str "abc")]%Z).
  { repeat constructor; cbn; lia. }
  assert (Hl : (0 + Throttle.window Throttle.SaveMessageKind <= 800)%Z)
    by (cbn; lia).
  destruct (C8_burst_writes_last_snapshot_once jsstring
              Throttle.SaveMessageKind (Throttle.idle jsstring) 0%Z
              (str "a") [(100, str "ab"); (799, str "abc")]%Z 800%Z
              eq_refl Hw Hl) as (H1 & H2 & H3 & _).
  split; [exact H1|]. split; [exact H2 | exact H3].
Defined.

(* ================================================================== *)
(** * Further properties of the code *)
(* ================================================================== *)

(** ** mergeConsecutiveRoles, again *)

Lemma merge_runs_alternating (l : list ChatMessage) :
  alternating l -> merge_runs l = l.
Proof.
  induction l as [|m rest IH]; intros H; [reflexivity|].
  cbn [merge_runs]. destruct rest as [|q qs].
  - cbn. now rewrite ChatMessage_eta.
  - destruct H as [Hr H]. rewrite (IH H).
    apply Role_eqb_neq in Hr. rewrite Hr. now rewrite ChatMessage_eta.
Qed.

Lemma filter_all {A} (f : A -> bool) (l : list A) :
  Forall (fun x => f x = true) l -> filter f l = l.
Proof.
  induction 1 as [|x l Hx _ IH]; [reflexivity|].
  cbn. now rewrite Hx, IH.
Qed.

(** X1: mergeConsecutiveRoles leaves alone a list that alternates and has no
    blank entry; so merging twice is merging once. *)
Theorem X1_merge_idempotent (msgs : list ChatMessage) :
  (alternating msgs -> Forall (fun e => nonblank e = true) msgs ->
   mergeConsecutiveRoles msgs = msgs)
  /\ mergeConsecutiveRoles (mergeConsecutiveRoles msgs)
     = mergeConsecutiveRoles msgs.
Proof.
  assert (H : forall l, alternating l ->
                Forall (fun e => nonblank e = true) l ->
                mergeConsecutiveRoles l = l).
  { intros l Ha Hn.
    now rewrite merge_is_merge_runs, filter_all, merge_runs_alternating. }
  split; [apply H|].
  destruct (merged_ok_fold msgs [] merged_ok_nil) as [Ha Hn].
  now apply H.
Qed.

Lemma X1_merge_idempotent_witness :
  let msgs := [ {| role := user; content := str "hi" |};
                {| role := assistant; content := str "hello" |} ] in
  mergeConsecutiveRoles msgs = msgs.
Proof.
  intros msgs.
  apply (proj1 (X1_merge_idempotent msgs)).
  - cbn. split; [discriminate | exact I].
  - repeat constructor.
Defined.

(** ** stripInternalContextBlocks, again *)

Lemma match_needs_lt (c : N) (t : jsstring) :
  c <> lt_char -> match_internal_context (c :: t) = None.
Proof.
  intros H. unfold match_internal_context.
  assert (E : lit_ci details_open (c :: t) = None).
  { change details_open with (lt_char :: str "details").
    assert (F : eq_ci lt_char c = false).
    { apply N.eqb_neq. unfold toUpperAscii, N_in, lt_char in *.
      destruct (N.leb_spec 97 c); destruct (N.leb_spec c 122); simpl; lia. }
    cbn [lit_ci]. now rewrite F. }
  now rewrite E.
Qed.

Lemma replace_no_lt (s rest : jsstring) :
  no_lt s ->
  replace_internal_context 0 (s ++ rest)
  = s ++ replace_internal_context 0 rest.
Proof.
  induction 1 as [|c s Hc _ IH]; [reflexivity|].
  change ((c :: s) ++ rest) with (c :: (s ++ rest)).
  unfold replace_internal_context; fold replace_internal_context.
  now rewrite (match_needs_lt c (s ++ rest) Hc), IH.
Qed.

Lemma strip_no_lt (s : jsstring) :
  no_lt s -> stripInternalContextBlocks s = trim s.
Proof.
  intros H. unfold stripInternalContextBlocks.
  destruct s as [|c t]; [reflexivity|]. cbn [truthy negb].
  pose proof (replace_no_lt (c :: t) [] H) as E.
  rewrite app_nil_r in E. rewrite E. cbn [replace_internal_context].
  now rewrite app_nil_r.
Qed.

(** X2: a text without the character [<] holds no block to remove, whatever
    else it holds: stripInternalContextBlocks only trims it. *)
Theorem X2_strip_plain_text (s : jsstring) :
  no_lt s -> stripInternalContextBlocks s = trim s.
Proof. apply strip_no_lt. Qed.

Lemma X2_strip_plain_text_witness :
  stripInternalContextBlocks (str "  2 > 1?  ") = str "2 > 1?".
Proof.
  refine (X2_strip_plain_text (str "  2 > 1?  ") _).
  unfold no_lt. repeat constructor; discriminate.
Defined.

(** *** What [trim] leaves *)

Lemma skip_while_app (f : N -> bool) (a b : jsstring) :
  skip_while f (a ++ b)
  = if forallb f a then skip_while f b else skip_while f a ++ b.
Proof.
  induction a as [|c a IH]; [reflexivity|].
  cbn. destruct (f c); [exact IH | reflexivity].
Qed.

Lemma skip_while_idem (f : N -> bool) (s : jsstring) :
  skip_while f (skip_while f s) = skip_while f s.
Proof.
  induction s as [|c s IH]; [reflexivity|].
  cbn. destruct (f c) eqn:E; [exact IH|]. cbn. now rewrite E.
Qed.

Lemma skip_while_Forall (P : N -> Prop) (f : N -> bool) (s : jsstring) :
  Forall P s -> Forall P (skip_while f s).
Proof.
  induction 1 as [|c s Hc Hs IH]; [constructor|].
  cbn. destruct (f c); [exact IH | now constructor].
Qed.

Lemma trim_Forall (P : N -> Prop) (s : jsstring) :
  Forall P s -> Forall P (trim s).
Proof.
  intros H. unfold trim, trimEnd, trimStart.
  apply Forall_rev, skip_while_Forall, Forall_rev.
  now apply skip_while_Forall.
Qed.

Lemma trimEnd_cons (c : N) (y : jsstring) :
  isWhiteSpace c = false -> trimEnd (c :: y) = c :: trimEnd y.
Proof.
  intros Hc. unfold trimEnd, trimStart. cbn [rev].
  rewrite skip_while_app. destruct (forallb isWhiteSpace (rev y)) eqn:E.
  - cbn. rewrite Hc. cbn.
    assert (F : skip_while isWhiteSpace (rev y) = []).
    { clear -E. induction (rev y) as [|x r IH]; [reflexivity|].
      cbn in *. apply andb_true_iff in E. destruct E as [E1 E2].
      rewrite E1. now apply IH. }
    now rewrite F.
  - now rewrite rev_app_distr.
Qed.

Lemma trimEnd_snoc_ws (y ws : jsstring) :
  forallb isWhiteSpace ws = true -> trimEnd (y ++ ws) = trimEnd y.
Proof.
  intros H. unfold trimEnd, trimStart.
  rewrite rev_app_distr, skip_while_app.
  replace (forallb isWhiteSpace (rev ws)) with true; [reflexivity|].
  symmetry. rewrite forallb_forall in *. intros x Hx.
  apply H. now apply in_rev.
Qed.

Lemma trimEnd_idem (y : jsstring) : trimEnd (trimEnd y) = trimEnd y.
Proof.
  unfold trimEnd, trimStart. now rewrite rev_involutive, skip_while_idem.
Qed.

(** What [trimStart] returns is empty or begins with a character that is
    not white space. *)
Lemma trimStart_head (s : jsstring) :
  trimStart s = []
  \/ exists c r, trimStart s = c :: r /\ isWhiteSpace c = false.
Proof.
  unfold trimStart. induction s as [|c s IH]; [now left|].
  cbn. destruct (isWhiteSpace c) eqn:E; [exact IH|].
  right. now exists c, s.
Qed.

Lemma trim_head (s : jsstring) :
  trim s = [] \/ exists c r, trim s = c :: r /\ isWhiteSpace c = false.
Proof.
  unfold trim. destruct (trimStart_head s) as [E | (c & r & E & Hc)];
    rewrite E; [now left|].
  right. rewrite (trimEnd_cons c r Hc). now eexists _, _.
Qed.

Lemma trim_fixed (z : jsstring) :
  (z = [] \/ exists c r, z = c :: r /\ isWhiteSpace c = false) ->
  trimEnd z = z -> trim z = z.
Proof.
  intros [-> | (c & r & -> & Hc)] He; [reflexivity|].
  unfold trim, trimStart. cbn [skip_while]. now rewrite Hc.
Qed.

Lemma trim_idem (s : jsstring) : trim (trim s) = trim s.
Proof.
  apply trim_fixed; [apply trim_head|].
  unfold trim. apply trimEnd_idem.
Qed.

Lemma trim_snoc_ws (x ws : jsstring) :
  forallb isWhiteSpace ws = true -> trim (x ++ ws) = trim x.
Proof.
  intros H. unfold trim, trimStart. rewrite skip_while_app.
  destruct (forallb isWhiteSpace x) eqn:E.
  - assert (F : forall l, forallb isWhiteSpace l = true ->
                  skip_while isWhiteSpace l = []).
    { induction l as [|c l IH]; intros Hl; [reflexivity|].
      cbn in *. apply andb_true_iff in Hl. destruct Hl as [H1 H2].
      rewrite H1. now apply IH. }
    now rewrite (F ws H), (F x E).
  - now apply trimEnd_snoc_ws.
Qed.

Lemma trimEnd_last (y : jsstring) (c : N) :
  isWhiteSpace c = false -> trimEnd (y ++ [c]) = y ++ [c].
Proof.
  intros Hc. unfold trimEnd, trimStart.
  rewrite rev_app_distr. cbn. rewrite Hc. cbn. now rewrite rev_involutive.
Qed.

(** *** The blocks the user message keeps for display *)

Lemma toDetailsBlock_matches_before (title body rest : jsstring) :
  match_internal_context (toDetailsBlock title body ++ rest) = Some rest.
Proof.
  unfold toDetailsBlock, match_internal_context.
  rewrite <- !app_assoc.
  cbn -[find_ci details_close escapeHtml].
  change details_close with (lt_char :: str "/details>").
  repeat first
    [ rewrite find_ci_cons_fail by reflexivity
    | rewrite (find_ci_skip _ _ _ (escapeHtml_no_lt _)) ].
  reflexivity.
Qed.

Lemma replace_skip (mid rest : jsstring) :
  replace_internal_context (length mid) (mid ++ rest)
  = replace_internal_context 0 rest.
Proof. induction mid as [|c mid IH]; [reflexivity | exact IH]. Qed.

Lemma toDetailsBlock_head (title body : jsstring) :
  exists mid, toDetailsBlock title body = lt_char :: mid.
Proof. unfold toDetailsBlock. cbn. now eexists. Qed.

Lemma replace_block (title body rest : jsstring) :
  replace_internal_context 0 (toDetailsBlock title body ++ rest)
  = replace_internal_context 0 rest.
Proof.
  pose proof (toDetailsBlock_matches_before title body rest) as M.
  destruct (toDetailsBlock_head title body) as [mid E]. rewrite E in *.
  change ((lt_char :: mid) ++ rest) with (lt_char :: (mid ++ rest)) in *.
  unfold replace_internal_context; fold replace_internal_context.
  rewrite M, length_app, Nat.add_sub. apply replace_skip.
Qed.

Lemma replace_contextForUi (blocks : list (jsstring * jsstring)) :
  forallb isWhiteSpace
    (replace_internal_context 0 (contextForUi_of blocks)) = true.
Proof.
  induction blocks as [|tb blocks IH]; [reflexivity|].
  unfold contextForUi_of in *. cbn [map concat].
  rewrite <- app_assoc.
  rewrite (replace_no_lt [newline; newline]);
    [|repeat constructor; discriminate].
  rewrite replace_block. exact IH.
Qed.

Lemma contextForUi_last (blocks : list (jsstring * jsstring)) :
  blocks <> [] -> exists y, contextForUi_of blocks = y ++ [62%N].
Proof.
  intros H. destruct blocks as [|tb blocks] using rev_ind; [contradiction|].
  unfold contextForUi_of, toDetailsBlock.
  rewrite map_app, concat_app. cbn [map concat].
  change (str "</pre></details>") with (str "</pre></details" ++ [62%N]).
  rewrite app_nil_r, !app_assoc. now eexists.
Qed.

Lemma trim_last (y : jsstring) (c : N) :
  isWhiteSpace c = false -> trim (y ++ [c]) = trimStart (y ++ [c]).
Proof.
  intros Hc. unfold trim.
  change (trimStart (y ++ [c])) with (skip_while isWhiteSpace (y ++ [c])).
  rewrite skip_while_app.
  destruct (forallb isWhiteSpace y).
  - cbn [skip_while]. rewrite Hc. now apply (trimEnd_last []).
  - now apply trimEnd_last.
Qed.

(** X3: the context blocks sendMessage keeps in the user message for display
    never come back as history: for a text without [<], whatever blocks
    toDetailsBlock wrote after it, what is stored strips to the trimmed
    text. *)
Theorem X3_stored_user_message_strips_to_text
    (content : jsstring) (blocks : list (jsstring * jsstring)) :
  no_lt content ->
  let finalContent := trim content in
  let finalContentForUi := trim (finalContent ++ contextForUi_of blocks) in
  stripInternalContextBlocks finalContentForUi = trim content.
Proof.
  intros H finalContent finalContentForUi.
  assert (HT : no_lt finalContent) by now apply trim_Forall.
  destruct blocks as [|tb blocks].
  - unfold finalContentForUi, contextForUi_of. cbn [map concat].
    rewrite app_nil_r. unfold finalContent. rewrite trim_idem.
    rewrite strip_no_lt by exact HT. apply trim_idem.
  - destruct (contextForUi_last (tb :: blocks)) as [y Ey]; [discriminate|].
    assert (Es : finalContentForUi
                 = trimStart (finalContent ++ contextForUi_of (tb :: blocks))).
    { unfold finalContentForUi. rewrite Ey, app_assoc.
      now apply trim_last. }
    pose proof (replace_contextForUi (tb :: blocks)) as Hw.
    pose proof (replace_contextForUi blocks) as Hw'.
    destruct (trim_head content) as [E | (c & r & E & Hc)];
      fold finalContent in E; rewrite E in *.
    + (* nothing but blocks *)
      rewrite Es. unfold contextForUi_of. cbn [map concat app].
      destruct (toDetailsBlock_head (fst tb) (snd tb)) as [mid Em].
      rewrite Em. cbn -[replace_internal_context].
      unfold stripInternalContextBlocks. cbn [truthy negb].
      change (lt_char :: mid ++ concat _)
        with ((lt_char :: mid)
              ++ contextForUi_of blocks).
      rewrite <- Em, replace_block.
      change (trim content) with finalContent. rewrite E.
      exact (trim_snoc_ws [] _ Hw').
    + rewrite Es. unfold trimStart. cbn [app skip_while]. rewrite Hc.
      unfold stripInternalContextBlocks. cbn [truthy negb].
      change (c :: r ++ contextForUi_of (tb :: blocks))
        with ((c :: r) ++ contextForUi_of (tb :: blocks)).
      rewrite replace_no_lt by exact HT.
      rewrite trim_snoc_ws by exact Hw.
      rewrite <- E. apply trim_idem.
Qed.

Lemma X3_stored_user_message_strips_to_text_witness :
  stripInternalContextBlocks
    (trim (trim (str " weather? ")
           ++ contextForUi_of [(str "Links (1)", str "<b>sunny</b>");
                               (str "RAG", str "a & b")]))
  = str "weather?".
Proof.
  refine (X3_stored_user_message_strips_to_text (str " weather? ")
            [(str "Links (1)", str "<b>sunny</b>"); (str "RAG", str "a & b")]
            _).
  unfold no_lt. repeat constructor; discriminate.
Defined.

(** *** The ends of the prompt *)

Lemma merge_snoc (l : list ChatMessage) (m : ChatMessage) :
  mergeConsecutiveRoles (l ++ [m]) = merge_step (mergeConsecutiveRoles l) m.
Proof. unfold mergeConsecutiveRoles. now rewrite fold_left_app. Qed.

Lemma build_passes_model (chat : Chat) (model uid final : jsstring)
    (att : option Attachment) (mem : option jsstring) (M : Z)
    (opts : option Options) (model' : jsstring) (msgs : list ChatMessage)
    (th : option ThinkOption) :
  buildOllamaRequestBody (Some chat) model uid final att mem M opts
  = inr (ChatBody model' msgs th) ->
  model' = model /\ th = think_of opts.
Proof.
  unfold buildOllamaRequestBody.
  destruct (negb (truthy model)); [discriminate|].
  destruct (negb (truthy uid)); [discriminate|].
  destruct att as [[img [|] meta]|].
  - destruct (negb (existsb _ _)); [discriminate|].
    intros H. now inversion H.
  - destruct (negb (truthy img)); discriminate.
  - destruct (negb (existsb _ _)); [discriminate|].
    intros H. now inversion H.
Qed.

(** X4: when the text of the turn is not blank, the prompt
    buildOllamaRequestBody returns ends with it: the last entry has the role
    user, and its content is that text, alone or after a blank line that
    follows what an earlier user entry left; the model and the [think]
    option are passed on as given. *)
Theorem X4_prompt_ends_with_the_turn (chat : Chat) (model uid final : jsstring)
    (att : option Attachment) (mem : option jsstring) (M : Z)
    (opts : option Options) (model' : jsstring) (msgs : list ChatMessage)
    (th : option ThinkOption) :
  buildOllamaRequestBody (Some chat) model uid final att mem M opts
  = inr (ChatBody model' msgs th) ->
  truthy (trim final) = true ->
  model' = model /\ th = think_of opts
  /\ exists init before,
       msgs = init ++ [ {| role := user; content := before ++ final |} ]
       /\ (before = [] \/ exists earlier, before = earlier ++ blank_line).
Proof.
  intros Hb Hf.
  destruct (build_passes_model _ _ _ _ _ _ _ _ _ _ _ Hb) as [-> ->].
  split; [reflexivity|]. split; [reflexivity|].
  apply build_chat_body in Hb. subst msgs. unfold rawMessages.
  rewrite app_assoc, merge_snoc.
  set (u := {| role := user; content := final |}).
  set (acc := mergeConsecutiveRoles _).
  assert (Hok : merged_ok acc) by apply (merged_ok_fold _ [] merged_ok_nil).
  assert (Hu : nonblank u = true) by exact Hf.
  pose proof (last_opt_inv acc) as Hl.
  destruct (last_opt acc) as [p|].
  - destruct Hl as [l El]. rewrite El in *.
    destruct Hok as [_ Hn]. rewrite Forall_app in Hn. destruct Hn as [_ Hn].
    inversion Hn as [|? ? Hp _]; subst.
    destruct (Role_eqb (role p) (role u)) eqn:Hr.
    + apply Role_eqb_eq in Hr.
      rewrite merge_step_same by (auto; now apply truthy_trim).
      exists l, (content p ++ blank_line). rewrite Hr, <- app_assoc.
      split; [reflexivity|]. right. now eexists.
    + apply Role_eqb_neq in Hr. rewrite merge_step_other by auto.
      exists (l ++ [p]), []. split; [reflexivity | now left].
  - rewrite Hl, merge_step_first by exact Hu.
    exists [], []. split; [reflexivity | now left].
Qed.

Lemma X4_prompt_ends_with_the_turn_witness :
  exists init before,
    [ {| role := assistant; content := str "hello" |};
      {| role := user; content := str "wait" ++ blank_line ++ str "more" |} ]
    = init ++ [ {| role := user; content := before ++ str "more" |} ]
    /\ (before = [] \/ exists earlier, before = earlier ++ blank_line).
Proof.
  refine (proj2 (proj2
    (X4_prompt_ends_with_the_turn
       (plain_chat SPNull
          [ plain_message "h1" assistant "hello" 0;
            plain_message "h2" user "wait" 1;
            plain_message "u1" user "more" 2 ])
       (str "m") (str "u1") (str "more") None None 20 None
       (str "m") _ None _ _)));
    reflexivity.
Defined.

Lemma merge_runs_roles (P : Role -> Prop) (l : list ChatMessage) :
  Forall (fun e => P (role e)) l -> Forall (fun e => P (role e)) (merge_runs l).
Proof.
  induction 1 as [|m l Hm _ IH]; [constructor|].
  cbn [merge_runs]. destruct (merge_runs l) as [|q qs].
  - now repeat constructor.
  - inversion IH as [|? ? Hq Hqs]; subst.
    destruct (Role_eqb (role m) (role q)); repeat constructor; assumption.
Qed.

Lemma history_no_system (chat : Chat) (uid final : jsstring)
    (mem : option jsstring) (M : Z) :
  Forall (fun e => role e <> system)
    (map history_entry (selectedHistory chat uid mem M)
     ++ [ {| role := user; content := final |} ]).
Proof.
  apply Forall_app. split; [|repeat constructor; discriminate].
  rewrite Forall_map. unfold selectedHistory, slice_from. apply Forall_skipn'.
  rewrite Forall_forall. intros m Hm.
  apply filter_In in Hm. destruct Hm as [_ Hm].
  unfold is_history in Hm. apply andb_true_iff in Hm.
  destruct Hm as [_ Hm]. cbn [history_entry role].
  now destruct (msg_role m).
Qed.

Lemma Forall_filter' {A} (P : A -> Prop) (f : A -> bool) (l : list A) :
  Forall P l -> Forall P (filter f l).
Proof.
  induction 1 as [|x l Hx _ IH]; [constructor|].
  cbn. destruct (f x); [now constructor | exact IH].
Qed.

(** X5: the system prompt and the memory, joined by a line break, lead the
    prompt as its one system entry, merged with nothing, when that text is
    not blank; when it is blank the prompt has no system entry at all. *)
Theorem X5_system_entry_leads (chat : Chat) (model uid final : jsstring)
    (att : option Attachment) (mem : option jsstring) (M : Z)
    (opts : option Options) (model' : jsstring) (msgs : list ChatMessage)
    (th : option ThinkOption) :
  buildOllamaRequestBody (Some chat) model uid final att mem M opts
  = inr (ChatBody model' msgs th) ->
  let systemContent :=
    join [newline] (filter_Boolean [systemPromptContent chat; mem]) in
  (truthy (trim systemContent) = true ->
   exists rest,
     msgs = {| role := system; content := systemContent |} :: rest
     /\ count_role system rest = 0%nat)
  /\ (truthy (trim systemContent) = false -> count_role system msgs = 0%nat).
Proof.
  intros Hb systemContent.
  apply build_chat_body in Hb. subst msgs.
  rewrite merge_is_merge_runs. unfold rawMessages.
  pose proof (history_no_system chat uid final mem M) as Hh.
  set (hist := map history_entry _ ++ _) in *.
  unfold systemEntry. fold systemContent.
  split; intros Hs.
  - rewrite (truthy_trim _ Hs). cbn [app filter]. unfold nonblank at 1.
    cbn [content]. rewrite Hs. cbn [merge_runs role content].
    pose proof (merge_runs_roles (fun r => r <> system) _
                  (Forall_filter' _ nonblank _ Hh)) as Hr.
    destruct (merge_runs (filter nonblank hist)) as [|q qs].
    + now exists [].
    + inversion Hr as [|? ? Hq _]; subst.
      assert (E : Role_eqb system (role q) = false).
      { apply Role_eqb_neq. congruence. }
      rewrite E. exists (q :: qs). split; [reflexivity|].
      now apply count_role_none.
  - apply count_role_none, (merge_runs_roles (fun r => r <> system)).
    destruct (truthy systemContent); cbn [app filter];
      [unfold nonblank at 1; cbn [content]; rewrite Hs|];
      now apply Forall_filter'.
Qed.

Lemma X5_system_entry_leads_witness :
  exists rest,
    [ {| role := system; content := str "Be brief." ++ [newline] ++ str "Likes tea" |};
      {| role := user; content := str "hi" |} ]
    = {| role := system;
         content := str "Be brief." ++ [newline] ++ str "Likes tea" |} :: rest
    /\ count_role system rest = 0%nat.
Proof.
  refine (proj1
    (X5_system_entry_leads
       (plain_chat (SPString (str "Be brief."))
          [ plain_message "s0" system "old prompt" 0;
            plain_message "u1" user "hi" 1 ])
       (str "m") (str "u1") (str "hi") None (Some (str "Likes tea")) 20 None
       (str "m") _ None _) _);
    reflexivity.
Defined.

(** *** Escaping and truncating the side results *)

Lemma replace_char_absent (c : N) (rep v : jsstring) :
  Forall (fun x => x <> c) v -> replace_char c rep v = v.
Proof.
  unfold replace_char. induction 1 as [|x v Hx _ IH]; [reflexivity|].
  cbn [flat_map]. apply N.eqb_neq in Hx. rewrite Hx, IH. reflexivity.
Qed.

(** X6: what escapeHtml returns holds none of the characters [<], [>], the
    double and the single quote; a text that holds none of them and no [&]
    is returned as it is. *)
Theorem X6_escapeHtml_leaves_no_markup (value : jsstring) :
  Forall (fun c => c <> 60 /\ c <> 62 /\ c <> quote /\ c <> 39)%N
    (escapeHtml value)
  /\ (Forall (fun c => c <> 38 /\ c <> 60 /\ c <> 62 /\ c <> quote /\ c <> 39)%N
        value ->
      escapeHtml value = value).
Proof.
  split.
  - assert (H : forall c : N, In c [60; 62; quote; 39]%N ->
                  Forall (fun x => x <> c) (escapeHtml value)).
    { intros c Hc. unfold escapeHtml. cbn [In] in Hc.
      destruct Hc as [<- | [<- | [<- | [<- | []]]]].
      - do 3 (apply replace_char_keeps;
              [repeat constructor; discriminate|]).
        apply replace_char_removes. repeat constructor; discriminate.
      - do 2 (apply replace_char_keeps;
              [repeat constructor; discriminate|]).
        apply replace_char_removes. repeat constructor; discriminate.
      - apply replace_char_keeps; [repeat constructor; discriminate|].
        apply replace_char_removes. repeat constructor; discriminate.
      - apply replace_char_removes. repeat constructor; discriminate. }
    rewrite Forall_forall. intros x Hx.
    repeat split;
      match goal with
      | |- x <> ?c =>
          let F := fresh in
          assert (F := H c); rewrite Forall_forall in F;
          apply F; [cbn; tauto | exact Hx]
      end.
  - intros Hv. unfold escapeHtml.
    rewrite (replace_char_absent 38);
      [|eapply Forall_impl; [|exact Hv]; cbn; tauto].
    rewrite (replace_char_absent 60);
      [|eapply Forall_impl; [|exact Hv]; cbn; tauto].
    rewrite (replace_char_absent 62);
      [|eapply Forall_impl; [|exact Hv]; cbn; tauto].
    rewrite (replace_char_absent quote);
      [|eapply Forall_impl; [|exact Hv]; cbn; tauto].
    apply replace_char_absent.
    eapply Forall_impl; [|exact Hv]; cbn; tauto.
Qed.

Lemma X6_escapeHtml_leaves_no_markup_witness :
  escapeHtml (str "a = b + 1") = str "a = b + 1".
Proof.
  refine (proj2 (X6_escapeHtml_leaves_no_markup (str "a = b + 1")) _).
  repeat constructor; discriminate.
Defined.

(** X7: truncateText returns a text that fits as it is; of a longer one it
    keeps the first [maxChars - 1] code units and ends them with one
    ellipsis, so that for a bound of at least 1 the result is never longer
    than the bound; for a bound below 1 what is left of a text that is not
    empty is the ellipsis alone. *)
Theorem X7_truncateText_bound (value : jsstring) (maxChars : Z) :
  ((Z.of_nat (length value) <= maxChars)%Z -> truncateText value maxChars = value)
  /\ ((maxChars < Z.of_nat (length value))%Z -> value <> [] ->
      truncateText value maxChars
      = firstn (Z.to_nat (maxChars - 1)) value ++ [ellipsis])
  /\ ((1 <= maxChars)%Z ->
      (Z.of_nat (length (truncateText value maxChars)) <= maxChars)%Z)
  /\ ((maxChars < 1)%Z -> value <> [] ->
      truncateText value maxChars = [ellipsis]).
Proof.
  assert (Hlong : (maxChars < Z.of_nat (length value))%Z -> value <> [] ->
                  truncateText value maxChars
                  = firstn (Z.to_nat (maxChars - 1)) value ++ [ellipsis]).
  { intros H Hv. unfold truncateText, slice_to.
    destruct value as [|c t]; [contradiction|].
    cbn [truthy negb].
    destruct (Z.leb_spec (Z.of_nat (length (c :: t))) maxChars); [lia|].
    do 2 f_equal. lia. }
  split; [|split; [exact Hlong | split]].
  - intros H. unfold truncateText.
    destruct value as [|c t]; [reflexivity|]. cbn [truthy negb].
    now destruct (Z.leb_spec (Z.of_nat (length (c :: t))) maxChars); [|lia].
  - intros H1.
    destruct (Z.le_gt_cases (Z.of_nat (length value)) maxChars) as [Hf | Hl].
    + unfold truncateText. destruct value as [|c t]; [cbn; lia|].
      cbn [truthy negb].
      now destruct (Z.leb_spec (Z.of_nat (length (c :: t))) maxChars); [|lia].
    + rewrite (Hlong Hl), length_app, length_firstn;
        [cbn [length]; lia | destruct value; [cbn in Hl; lia | discriminate]].
  - intros H1 Hv. rewrite Hlong.
    + replace (Z.to_nat (maxChars - 1)) with 0%nat by lia. reflexivity.
    + destruct value; [contradiction | cbn [length]; lia].
    + exact Hv.
Qed.

Lemma X7_truncateText_bound_witness :
  truncateText (str "search for tea") 7 = str "search" ++ [ellipsis]
  /\ (Z.of_nat (length (truncateText (str "search for tea") 7)) <= 7)%Z
  /\ truncateText (str "tea") 0 = [ellipsis].
Proof.
  pose proof (X7_truncateText_bound (str "search for tea") 7) as (_ & A & B & _).
  pose proof (X7_truncateText_bound (str "tea") 0) as (_ & _ & _ & C).
  split; [apply A; [cbn; lia | discriminate]|].
  split; [apply B; lia|].
  apply C; [lia | discriminate].
Defined.

(** *** The title a chat falls back on *)

Lemma split_spaces_cons (cur s : jsstring) :
  exists p ps, split_spaces cur s = p :: ps.
Proof.
  revert cur. induction s as [|c r IH]; intros cur; cbn.
  - now eexists _, _.
  - destruct (c =? 32)%N; [now eexists _, _ | apply IH].
Qed.

Lemma join_split_spaces (cur s : jsstring) :
  join [32%N] (split_spaces cur s) = rev cur ++ s.
Proof.
  revert cur. induction s as [|c r IH]; intros cur; cbn [split_spaces].
  - cbn. now rewrite app_nil_r.
  - destruct (N.eqb_spec c 32) as [-> | Hc].
    + destruct (split_spaces_cons [] r) as (p & ps & E).
      specialize (IH []). rewrite E in *. cbn [join rev app] in *.
      now rewrite IH.
    + rewrite IH. cbn [rev]. now rewrite <- app_assoc.
Qed.

Lemma split_spaces_words (cur s : jsstring) :
  Forall (fun c => c <> 32%N) cur ->
  Forall (Forall (fun c => c <> 32%N)) (split_spaces cur s).
Proof.
  revert cur. induction s as [|c r IH]; intros cur H; cbn [split_spaces].
  - constructor; [now apply Forall_rev | constructor].
  - destruct (N.eqb_spec c 32) as [-> | Hc].
    + constructor; [now apply Forall_rev | apply IH; constructor].
    + apply IH. now constructor.
Qed.

Lemma count_occ_word (p : jsstring) :
  Forall (fun c => c <> 32%N) p -> count_occ N.eq_dec p 32%N = 0%nat.
Proof.
  intros H. apply count_occ_not_In. rewrite Forall_forall in H.
  intros Hin. now apply (H _ Hin).
Qed.

Lemma count_occ_join (p : jsstring) (ps : list jsstring) :
  Forall (Forall (fun c => c <> 32%N)) (p :: ps) ->
  count_occ N.eq_dec (join [32%N] (p :: ps)) 32%N = length ps.
Proof.
  revert p. induction ps as [|q ps IH]; intros p H;
    inversion H as [|? ? Hp Hps]; subst.
  - cbn [join length]. now apply count_occ_word.
  - change (join [32%N] (p :: q :: ps))
      with (p ++ [32%N] ++ join [32%N] (q :: ps)).
    rewrite !count_occ_app, (count_occ_word p Hp), (IH q Hps).
    reflexivity.
Qed.

Lemma join_firstn_skipn (k : nat) (ps : list jsstring) :
  (k < length ps)%nat ->
  join [32%N] ps
  = join [32%N] (firstn (S k) ps) ++ match skipn (S k) ps with
                                     | [] => []
                                     | rest => 32%N :: join [32%N] rest
                                     end.
Proof.
  revert ps. induction k as [|k IH]; intros ps H.
  - destruct ps as [|p [|q ps]]; [cbn in H; lia | |].
    + cbn. now rewrite app_nil_r.
    + reflexivity.
  - destruct ps as [|p [|q ps]]; [cbn in H; lia | cbn in H; lia |].
    change (firstn (S (S k)) (p :: q :: ps))
      with (p :: firstn (S k) (q :: ps)).
    change (skipn (S (S k)) (p :: q :: ps)) with (skipn (S k) (q :: ps)).
    change (join [32%N] (p :: q :: ps))
      with (p ++ [32%N] ++ join [32%N] (q :: ps)).
    rewrite (IH (q :: ps)) by (cbn in *; lia).
    change (firstn (S k) (q :: ps)) with (q :: firstn k ps).
    change (join [32%N] (p :: q :: firstn k ps))
      with (p ++ [32%N] ++ join [32%N] (q :: firstn k ps)).
    now rewrite <- !app_assoc.
Qed.

Lemma Forall_firstn' {A} (P : A -> Prop) (n : nat) (xs : list A) :
  Forall P xs -> Forall P (firstn n xs).
Proof.
  revert xs. induction n as [|n IH]; intros xs H; [constructor|].
  destruct xs as [|x xs]; [constructor|].
  inversion H; subst. cbn. constructor; [assumption | now apply IH].
Qed.

(** X8: the title generateChatTitle falls back on is the first message when
    it has at most four spaces; otherwise what comes before its fifth space.
    Without a text, or with an empty one, it is the default title of the
    settings. *)
Theorem X8_default_title_is_the_first_words (w : World) (content : jsstring) :
  generateDefaultTitle w None = settings_defaultChatTitle (cfg w)
  /\ generateDefaultTitle w (Some []) = settings_defaultChatTitle (cfg w)
  /\ (content <> [] ->
      let title := generateDefaultTitle w (Some content) in
      (title = content /\ (count_occ N.eq_dec content 32%N <= 4)%nat)
      \/ (exists rest, content = title ++ 32%N :: rest
                       /\ count_occ N.eq_dec title 32%N = 4%nat)).
Proof.
  split; [reflexivity|]. split; [reflexivity|].
  intros Hc title. subst title. unfold generateDefaultTitle.
  pose proof (join_split_spaces [] content) as Ej. cbn [rev app] in Ej.
  pose proof (split_spaces_words [] content (Forall_nil _)) as Hw.
  destruct (split_spaces_cons [] content) as (p & ps & E).
  rewrite E in *.
  set (title := if truthy _ then _ else _).
  destruct (Nat.le_gt_cases (length (p :: ps)) 5) as [Hs | Hl].
  - left. assert (Et : title = content).
    { unfold title. rewrite firstn_all2 by exact Hs. rewrite Ej.
      destruct content; [contradiction | reflexivity]. }
    split; [exact Et|].
    rewrite <- Ej, (count_occ_join p ps Hw). cbn [length] in Hs. lia.
  - right.
    pose proof (join_firstn_skipn 4 (p :: ps) (Nat.lt_succ_l _ _ Hl)) as Es.
    assert (Hf : exists q qs, firstn 5 (p :: ps) = q :: qs
                              /\ length qs = 4%nat).
    { exists p, (firstn 4 ps). split; [reflexivity|].
      rewrite length_firstn. cbn [length] in Hl. lia. }
    destruct Hf as (q & qs & Ef & Lq).
    assert (Hq : Forall (Forall (fun c => c <> 32%N)) (q :: qs)).
    { rewrite <- Ef. now apply Forall_firstn'. }
    pose proof (count_occ_join q qs Hq) as Ec. rewrite Lq in Ec.
    assert (Et : title = join [32%N] (q :: qs)).
    { unfold title. rewrite Ef.
      destruct (join [32%N] (q :: qs)); [discriminate | reflexivity]. }
    destruct (skipn 5 (p :: ps)) as [|r rs] eqn:Ek.
    + apply (f_equal (@length _)) in Ek. rewrite length_skipn in Ek.
      cbn [length] in *. lia.
    + exists (join [32%N] (r :: rs)). rewrite Et. split; [|exact Ec].
      rewrite <- Ej, Es, Ef. reflexivity.
Qed.

Lemma X8_default_title_is_the_first_words_witness :
  let title := generateDefaultTitle sample_world
                 (Some (str "what is the best tea for mornings")) in
  title = str "what is the best tea"
  /\ ((title = str "what is the best tea for mornings"
       /\ (count_occ N.eq_dec (str "what is the best tea for mornings") 32%N
           <= 4)%nat)
      \/ (exists rest,
            str "what is the best tea for mornings" = title ++ 32%N :: rest
            /\ count_occ N.eq_dec title 32%N = 4%nat)).
Proof.
  split; [reflexivity|].
  refine (proj2 (proj2
    (X8_default_title_is_the_first_words sample_world
       (str "what is the best tea for mornings"))) _).
  discriminate.
Defined.

(** ** The chats of the store *)

Lemma eqb_eq (a b : jsstring) : Js.eqb a b = true <-> a = b.
Proof.
  revert b. induction a as [|x a IH]; intros [|y b]; cbn;
    try (split; [discriminate | discriminate]); [tauto|].
  rewrite andb_true_iff, N.eqb_eq, IH.
  split; [intros [-> ->]; reflexivity | intros H; inversion H; auto].
Qed.

Lemma eqb_refl (a : jsstring) : Js.eqb a a = true.
Proof. now apply eqb_eq. Qed.

Lemma eqb_neq (a b : jsstring) : Js.eqb a b = false <-> a <> b.
Proof.
  rewrite <- eqb_eq. destruct (Js.eqb a b); split; intros H;
    try discriminate; try reflexivity; now exfalso; apply H.
Qed.

Section Keyed.

Context {A : Type} (key : A -> jsstring).

Lemma findById_Some (l : list A) (id : jsstring) (x : A) :
  findById key l id = Some x -> In x l /\ key x = id.
Proof.
  unfold findById. intros H. apply find_some in H.
  destruct H as [Hi He]. now apply eqb_eq in He.
Qed.

Lemma findById_None (l : list A) (id : jsstring) :
  findById key l id = None <-> ~ In id (map key l).
Proof.
  unfold findById. induction l as [|x l IH]; cbn; [tauto|].
  destruct (Js.eqb (key x) id) eqn:E.
  - apply eqb_eq in E. split; [discriminate | intros H; exfalso; auto].
  - apply eqb_neq in E. rewrite IH. tauto.
Qed.

Lemma findById_unique (l : list A) (id : jsstring) (x : A) :
  NoDup (map key l) -> In x l -> key x = id -> findById key l id = Some x.
Proof.
  unfold findById. induction l as [|y l IH]; cbn; intros Hn Hi Hk; [easy|].
  inversion Hn as [|? ? Hy Hl]; subst.
  destruct Hi as [-> | Hi].
  - now rewrite eqb_refl.
  - destruct (Js.eqb (key y) (key x)) eqn:E; [|now apply IH].
    apply eqb_eq in E. exfalso. apply Hy. rewrite E. now apply in_map.
Qed.

Lemma findById_Permutation (l l' : list A) (id : jsstring) :
  NoDup (map key l) -> Permutation l l' ->
  findById key l' id = findById key l id.
Proof.
  intros Hn Hp.
  assert (Hn' : NoDup (map key l')).
  { eapply Permutation_NoDup; [|exact Hn]. now apply Permutation_map. }
  destruct (findById key l id) as [x|] eqn:E.
  - apply findById_Some in E. destruct E as [Hi Hk].
    apply findById_unique; [exact Hn' | | exact Hk].
    eapply Permutation_in; eassumption.
  - apply findById_None. apply findById_None in E. intros Hi. apply E.
    eapply Permutation_in; [|exact Hi].
    apply Permutation_map. now symmetry.
Qed.

Variable f : A -> A.
Variable id : jsstring.
Hypothesis f_key : forall x, key x = id -> key (f x) = id.

Lemma update_first_keys (l : list A) :
  map key (update_first (has_id key id) f l) = map key l.
Proof.
  induction l as [|x l IH]; [reflexivity|]. cbn. unfold has_id at 1.
  destruct (Js.eqb (key x) id) eqn:E; cbn; [|now rewrite IH].
  apply eqb_eq in E. now rewrite (f_key x E), E.
Qed.

Lemma update_first_length (l : list A) :
  length (update_first (has_id key id) f l) = length l.
Proof.
  induction l as [|x l IH]; [reflexivity|]. cbn.
  destruct (has_id key id x); cbn; [reflexivity | now rewrite IH].
Qed.

Lemma findById_update_first (l : list A) :
  findById key (update_first (has_id key id) f l) id
  = option_map f (findById key l id).
Proof.
  unfold findById, has_id. induction l as [|x l IH]; [reflexivity|]. cbn.
  destruct (Js.eqb (key x) id) eqn:E; cbn.
  - apply eqb_eq in E. now rewrite (f_key x E), eqb_refl.
  - now rewrite E.
Qed.

Lemma findById_update_first_other (other : jsstring) (l : list A) :
  other <> id ->
  findById key (update_first (has_id key id) f l) other
  = findById key l other.
Proof.
  intros Hne. unfold findById, has_id.
  induction l as [|x l IH]; [reflexivity|]. cbn.
  destruct (Js.eqb (key x) id) eqn:E; cbn.
  - apply eqb_eq in E. rewrite (f_key x E).
    assert (E1 : Js.eqb id other = false) by (apply eqb_neq; congruence).
    assert (E2 : Js.eqb (key x) other = false)
      by (apply eqb_neq; congruence).
    now rewrite E1, E2.
  - now rewrite IH.
Qed.

(** Where nothing has the id, nothing is assigned. *)
Lemma update_first_absent (l : list A) :
  findById key l id = None -> update_first (has_id key id) f l = l.
Proof.
  unfold findById, has_id. induction l as [|x l IH]; [reflexivity|]. cbn.
  destruct (Js.eqb (key x) id); [discriminate|].
  intros H. now rewrite IH.
Qed.

End Keyed.

Lemma insert_chat_Permutation (c : Chat) (l : list Chat) :
  Permutation (insert_chat c l) (c :: l).
Proof.
  induction l as [|d l IH]; [reflexivity|]. cbn.
  destruct (chat_timestamp c <? chat_timestamp d)%Z; [|reflexivity].
  rewrite IH. apply perm_swap.
Qed.

Lemma sort_chats_Permutation (l : list Chat) : Permutation (sort_chats l) l.
Proof.
  induction l as [|c l IH]; [reflexivity|]. cbn.
  rewrite insert_chat_Permutation. now constructor.
Qed.

Lemma insert_chat_sorted (c : Chat) (l : list Chat) :
  StronglySorted recent_first l -> StronglySorted recent_first (insert_chat c l).
Proof.
  induction 1 as [|d l Hl IH Hd]; cbn; [repeat constructor|].
  destruct (Z.ltb_spec (chat_timestamp c) (chat_timestamp d)).
  - constructor; [exact IH|].
    rewrite Forall_forall. intros x Hx.
    apply (Permutation_in _ (insert_chat_Permutation c l)) in Hx.
    destruct Hx as [<- | Hx]; [unfold recent_first; lia|].
    rewrite Forall_forall in Hd. now apply Hd.
  - constructor; [now constructor|]. constructor; [exact H|].
    eapply Forall_impl; [|exact Hd]. unfold recent_first. intros; lia.
Qed.

Lemma sort_chats_sorted (l : list Chat) :
  StronglySorted recent_first (sort_chats l).
Proof.
  induction l as [|c l IH]; [constructor|]. now apply insert_chat_sorted.
Qed.

Lemma sort_chats_unique (l : list Chat) :
  unique_chat_ids l -> unique_chat_ids (sort_chats l).
Proof.
  unfold unique_chat_ids. intros H.
  eapply Permutation_NoDup; [|exact H].
  apply Permutation_map. symmetry. apply sort_chats_Permutation.
Qed.

Lemma findById_sort_chats (l : list Chat) (id : jsstring) :
  unique_chat_ids l ->
  findById chat_id (sort_chats l) id = findById chat_id l id.
Proof.
  intros H. apply findById_Permutation; [exact H|].
  symmetry. apply sort_chats_Permutation.
Qed.

Lemma set_chat_timestamp_id (ts : Z) (c : Chat) :
  chat_id (set_chat_timestamp ts c) = chat_id c.
Proof. reflexivity. Qed.

Lemma addMessage_spec
    (now_at : nat -> Z) (uuid_at : nat -> jsstring) (chatId : jsstring)
    (message : Message) (attachment : option AddedAttachment) (w : World) :
  let r := addMessage now_at uuid_at chatId message attachment w in
  (findById chat_id (chats w) chatId = None \/ msg_role message = system ->
   r = (None, w))
  /\ (forall chat,
        unique_chat_ids (chats w) ->
        findById chat_id (chats w) chatId = Some chat ->
        msg_role message <> system ->
        let id := uuid_at (uuids_drawn w) in
        fst r = Some id
        /\ findById chat_id (chats (snd r)) chatId
           = Some (set_chat_timestamp (now_at (clock_reads w))
                     (set_messages
                        (messages chat ++ [with_id id attachment message])
                        chat))
        /\ (forall other, other <> chatId ->
              findById chat_id (chats (snd r)) other
              = findById chat_id (chats w) other)
        /\ StronglySorted recent_first (chats (snd r))
        /\ unique_chat_ids (chats (snd r))
        /\ activeChat (snd r)
           = findById chat_id (chats (snd r)) (activeChatId w)).
Proof.
  intros r. subst r. unfold addMessage. split.
  - intros [-> | Hr]; [reflexivity|].
    destruct (findById chat_id (chats w) chatId); [|reflexivity].
    now rewrite Hr.
  - intros chat Hu Hc Hr. set (id := uuid_at (uuids_drawn w)). rewrite Hc.
    set (push := fun c : Chat =>
                   set_chat_timestamp (now_at (clock_reads w))
                     (set_messages (messages c ++ [with_id id attachment message])
                        c)).
    assert (Hk : forall c, chat_id c = chatId -> chat_id (push c) = chatId)
      by (intros c E; exact E).
    assert (Hu' : unique_chat_ids
                    (update_first (has_id chat_id chatId) push (chats w))).
    { unfold unique_chat_ids. now rewrite (update_first_keys chat_id push chatId Hk). }
    destruct (msg_role message); try (exfalso; now apply Hr);
      cbn -[sort_chats update_first findById];
      (split; [reflexivity|]);
      fold id; fold push;
      (split;
         [ rewrite findById_sort_chats by exact Hu';
           rewrite (findById_update_first chat_id push chatId Hk), Hc; reflexivity
         | split;
           [ intros other Ho; rewrite findById_sort_chats by exact Hu';
             now apply (findById_update_first_other chat_id push chatId Hk)
           | split;
             [ apply sort_chats_sorted
             | split; [now apply sort_chats_unique | reflexivity] ] ] ]).
Qed.

(** X9: addMessage adds nothing and returns null for a chat that is not
    there and for a message that is neither the user's nor the assistant's.
    Otherwise, the ids of the chats being distinct, it returns the fresh id,
    and in the store the chat has the message, under that id, as its last
    one (with the type, the File data and the content of the attachment
    when one is passed), and the time the clock showed; the other chats are
    as they were, the chats are in order, most recent first, with ids still
    distinct, and the active chat is the chat of the active id. *)
Theorem X9_addMessage_appends
    (now_at : nat -> Z) (uuid_at : nat -> jsstring) (chatId : jsstring)
    (message : Message) (attachment : option AddedAttachment) (w : World) :
  let r := addMessage now_at uuid_at chatId message attachment w in
  (findById chat_id (chats w) chatId = None \/ msg_role message = system ->
   r = (None, w))
  /\ (forall chat,
        unique_chat_ids (chats w) ->
        findById chat_id (chats w) chatId = Some chat ->
        msg_role message <> system ->
        let id := uuid_at (uuids_drawn w) in
        fst r = Some id
        /\ findById chat_id (chats (snd r)) chatId
           = Some (set_chat_timestamp (now_at (clock_reads w))
                     (set_messages
                        (messages chat ++ [with_id id attachment message])
                        chat))
        /\ (forall other, other <> chatId ->
              findById chat_id (chats (snd r)) other
              = findById chat_id (chats w) other)
        /\ StronglySorted recent_first (chats (snd r))
        /\ unique_chat_ids (chats (snd r))
        /\ activeChat (snd r)
           = findById chat_id (chats (snd r)) (activeChatId w)).
Proof. apply addMessage_spec. Qed.

Lemma X9_addMessage_appends_witness :
  let r := addMessage sample_clock sample_uuid (str "c1")
             (plain_message "" user "hi" 7) None sample_world in
  fst r = Some (str "id-0")
  /\ findById chat_id (chats (snd r)) (str "c1")
     = Some (set_chat_timestamp 1000
               (set_messages [plain_message "id-0" user "hi" 7]
                  (plain_chat SPNull []))).
Proof.
  pose proof (proj2 (X9_addMessage_appends sample_clock sample_uuid (str "c1")
                       (plain_message "" user "hi" 7) None sample_world)
                (plain_chat SPNull [])) as H.
  cbv zeta in H.
  destruct H as (A & B & _).
  - repeat constructor. cbn. tauto.
  - reflexivity.
  - discriminate.
  - split; [exact A | exact B].
Defined.

Lemma update_first_map {A B} (p : A -> bool) (f : A -> A) (g : A -> B)
    (l : list A) :
  (forall x, p x = true -> g (f x) = g x) ->
  map g (update_first p f l) = map g l.
Proof.
  intros H. induction l as [|x l IH]; [reflexivity|]. cbn.
  destruct (p x) eqn:E; cbn; [now rewrite H | now rewrite IH].
Qed.

Lemma updateMessage_spec
    (chatId : jsstring) (messageId : option jsstring) (content : jsstring)
    (il : option bool) (tt : option Z) (it : option bool)
    (extra : option Extra) (w : World) :
  let w' := updateMessage chatId messageId content il tt it extra w in
  let call := IoUpdateMessage chatId messageId content il tt it extra in
  map chat_id (chats w') = map chat_id (chats w)
  /\ map (fun c => map msg_id (messages c)) (chats w')
     = map (fun c => map msg_id (messages c)) (chats w)
  /\ (forall chat id m,
        findById chat_id (chats w) chatId = Some chat ->
        messageId = Some id ->
        findById msg_id (messages chat) id = Some m ->
        let m' := apply_update content il tt it extra m in
        exists chat',
          findById chat_id (chats w') chatId = Some chat'
          /\ findById msg_id (messages chat') id = Some m'
          /\ (forall other, other <> id ->
                findById msg_id (messages chat') other
                = findById msg_id (messages chat) other)
          /\ io w' = io w ++ [call; IoPersist (SaveMessage chatId m')]
          /\ map msg_id (messages chat') = map msg_id (messages chat))
  /\ ((forall chat, findById chat_id (chats w) chatId = Some chat ->
                    find_message chat messageId = None) ->
      chats w' = chats w /\ io w' = io w ++ [call]).
Proof.
  intros w' call. subst w'. unfold updateMessage. fold call.
  change (chats (emit call w)) with (chats w).
  destruct (findById chat_id (chats w) chatId) as [chat|] eqn:Ec.
  2:{ repeat split; try reflexivity. intros ? ? ? H; discriminate H. }
  destruct messageId as [id|].
  2:{ repeat split; try reflexivity. intros ? ? ? _ H; discriminate H. }
  destruct (find_message chat (Some id)) as [m|] eqn:Em.
  2:{ repeat split; try reflexivity.
      intros ? ? ? H1 H2 H3. inversion H1; inversion H2; subst.
      cbn [find_message] in Em. congruence. }
  cbn [find_message] in Em.
  set (m' := apply_update content il tt it extra m).
  set (assign := fun c : Chat =>
                   set_messages
                     (update_first (has_id msg_id id) (fun _ => m') (messages c))
                     c).
  assert (Hm : forall x : Message, msg_id x = id -> msg_id m' = id).
  { intros _ _. apply findById_Some in Em. exact (proj2 Em). }
  cbn -[update_first findById].
  split; [|split; [|split]].
  - apply update_first_map. reflexivity.
  - apply update_first_map. intros c _. unfold assign. cbn [messages set_messages].
    apply (update_first_keys msg_id (fun _ => m') id Hm).
  - intros chat0 id0 m0 H1 H2 H3. inversion H1; inversion H2; subst chat0 id0.
    assert (m0 = m) by congruence. subst m0.
    exists (assign chat).
    rewrite (findById_update_first chat_id assign chatId (fun x E => E)), Ec.
    split; [reflexivity|]. unfold assign. cbn [messages set_messages].
    split; [|split].
    + rewrite (findById_update_first msg_id (fun _ => m') id Hm), Em.
      reflexivity.
    + intros other Ho.
      now apply (findById_update_first_other msg_id (fun _ => m') id Hm).
    + split; [now rewrite <- app_assoc|].
      apply (update_first_keys msg_id (fun _ => m') id Hm).
  - intros H. specialize (H chat eq_refl). cbn [find_message] in H. congruence.
Qed.

(** X10: updateMessage never adds, removes or reorders anything: every chat
    keeps its place and every message list its ids.  When the chat has a
    message of the id, that message gets the content and the fields given,
    every other message of the chat is as it was, and the message is handed
    to the writer as stored; when there is no such chat or message, the
    chats are not touched and nothing is written. *)
Theorem X10_updateMessage_in_place
    (chatId : jsstring) (messageId : option jsstring) (content : jsstring)
    (il : option bool) (tt : option Z) (it : option bool)
    (extra : option Extra) (w : World) :
  let w' := updateMessage chatId messageId content il tt it extra w in
  let call := IoUpdateMessage chatId messageId content il tt it extra in
  map chat_id (chats w') = map chat_id (chats w)
  /\ map (fun c => map msg_id (messages c)) (chats w')
     = map (fun c => map msg_id (messages c)) (chats w)
  /\ (forall chat id m,
        findById chat_id (chats w) chatId = Some chat ->
        messageId = Some id ->
        findById msg_id (messages chat) id = Some m ->
        let m' := apply_update content il tt it extra m in
        exists chat',
          findById chat_id (chats w') chatId = Some chat'
          /\ findById msg_id (messages chat') id = Some m'
          /\ (forall other, other <> id ->
                findById msg_id (messages chat') other
                = findById msg_id (messages chat) other)
          /\ io w' = io w ++ [call; IoPersist (SaveMessage chatId m')]
          /\ map msg_id (messages chat') = map msg_id (messages chat))
  /\ ((forall chat, findById chat_id (chats w) chatId = Some chat ->
                    find_message chat messageId = None) ->
      chats w' = chats w /\ io w' = io w ++ [call]).
Proof. apply updateMessage_spec. Qed.

Lemma X10_updateMessage_in_place_witness :
  let w := snd (addMessage sample_clock sample_uuid (str "c1")
                  (plain_message "" assistant "" 7) None sample_world) in
  let w' := updateMessage (str "c1") (Some (str "id-0")) (str "Hel")
              (Some true) None None None w in
  exists chat',
    findById chat_id (chats w') (str "c1") = Some chat'
    /\ findById msg_id (messages chat') (str "id-0")
       = Some (apply_update (str "Hel") (Some true) None None None
                 (plain_message "id-0" assistant "" 7)).
Proof.
  intros w w'.
  destruct (proj1 (proj2 (proj2
    (X10_updateMessage_in_place (str "c1") (Some (str "id-0")) (str "Hel")
       (Some true) None None None w)))
    (set_chat_timestamp 1000
       (set_messages [plain_message "id-0" assistant "" 7]
          (plain_chat SPNull [])))
    (str "id-0") (plain_message "id-0" assistant "" 7)
    eq_refl eq_refl eq_refl) as (chat' & A & B & _).
  exists chat'. split; [exact A | exact B].
Defined.

(** ** Cutting a conversation *)

Lemma findIndex_Some {A} (p : A -> bool) (l : list A) (i : nat) :
  findIndex p l = Some i ->
  exists x rest,
    skipn i l = x :: rest /\ p x = true
    /\ Forall (fun y => p y = false) (firstn i l)
    /\ find p l = Some x /\ nth_error l i = Some x.
Proof.
  revert i. induction l as [|y l IH]; intros i; cbn; [discriminate|].
  destruct (p y) eqn:E.
  - intros H. inversion H; subst. exists y, l. cbn. repeat split; auto.
  - destruct (findIndex p l) as [j|]; [|discriminate].
    intros H. inversion H; subst.
    destruct (IH j eq_refl) as (x & rest & H1 & H2 & H3 & H4 & H5).
    exists x, rest. cbn. repeat split; auto.
Qed.

Lemma findIndex_None {A} (p : A -> bool) (l : list A) :
  findIndex p l = None <-> find p l = None.
Proof.
  induction l as [|y l IH]; cbn; [tauto|].
  destruct (p y); [split; discriminate|].
  destruct (findIndex p l); [|tauto].
  split; [discriminate|]. intros H. apply IH in H. discriminate.
Qed.

Lemma no_id_in_prefix (id : jsstring) (l : list Message) :
  Forall (fun y => has_id msg_id id y = false) l -> ~ In id (map msg_id l).
Proof.
  induction 1 as [|y l Hy _ IH]; cbn; [tauto|].
  apply eqb_neq in Hy. tauto.
Qed.

Section Cutting.

Variable now_at : nat -> Z.
Variable chatId : jsstring.
Variable chat : Chat.
Variable index : nat.
Variable w : World.

Hypothesis distinct : unique_chat_ids (chats w).
Hypothesis found : findById chat_id (chats w) chatId = Some chat.

Local Abbreviation kept := (firstn index (messages chat)).
Local Abbreviation now := (now_at (clock_reads w)).

(** What the lines the three actions share leave behind. *)
Lemma dropFrom_spec (api : option JsError) :
  let r := dropFrom now_at chatId chat index api w in
  snd (fst r)
  = {| del_chatId := chatId;
       del_messageIds := map msg_id (skipn index (messages chat)) |}
  /\ fst (fst r) = api
  /\ findById chat_id (chats (snd r)) chatId
     = Some (set_chat_timestamp now (set_messages kept chat))
  /\ (forall other, other <> chatId ->
        findById chat_id (chats (snd r)) other
        = findById chat_id (chats w) other)
  /\ unique_chat_ids (chats (snd r))
  /\ cfg (snd r) = cfg w
  /\ error (snd r) = error w
  /\ io (snd r)
     = io w ++ match api with
               | Some _ => []
               | None => [ IoPersist (ReplaceChatMessages chatId kept);
                           IoPersist (SaveChatMeta chatId None (Some now)) ]
               end
  /\ (api = None ->
      activeChat (snd r) = findById chat_id (chats (snd r)) (activeChatId w)).
Proof.
  intros r. subst r. unfold dropFrom. cbn [Date_now].
  set (cut := fun c : Chat =>
                set_chat_timestamp now
                  (set_messages (firstn index (messages c)) c)).
  assert (Hk : forall c, chat_id c = chatId -> chat_id (cut c) = chatId)
    by (intros c E; exact E).
  change (chats (set_clock_reads _ w)) with (chats w).
  set (cs := sort_chats (update_first (has_id chat_id chatId) cut (chats w))).
  assert (Hu : unique_chat_ids
                 (update_first (has_id chat_id chatId) cut (chats w))).
  { unfold unique_chat_ids.
    now rewrite (update_first_keys chat_id cut chatId Hk). }
  assert (Hf : findById chat_id cs chatId = Some (cut chat)).
  { unfold cs. rewrite findById_sort_chats by exact Hu.
    now rewrite (findById_update_first chat_id cut chatId Hk), found. }
  assert (Ho : forall other, other <> chatId ->
                 findById chat_id cs other = findById chat_id (chats w) other).
  { intros other H. unfold cs. rewrite findById_sort_chats by exact Hu.
    now apply (findById_update_first_other chat_id cut chatId Hk). }
  assert (Hs : unique_chat_ids cs) by now apply sort_chats_unique.
  destruct api as [e|].
  - cbn -[cs]. rewrite app_nil_r. repeat split; auto. discriminate.
  - unfold persistChatMessages.
    change (chats (set_chats cs _)) with cs. rewrite Hf.
    cbn -[cs]. rewrite <- app_assoc. repeat split; auto.
Qed.

End Cutting.

(** X11: deleteMessage of the store removes the message of the id and every
    message after it, and nothing before it: it refuses, touching only the
    error text, when the chat or the message is not there; otherwise the
    chat keeps the messages before the first one of that id, the backend is
    asked to delete exactly the ids of the others, and the other chats are
    as they were.  The list is cut before the backend is asked: when the
    backend call throws, the promise rejects with that error, the messages
    are gone from the store all the same, and nothing has been written. *)
Theorem X11_deleteMessage_cuts_from_the_message
    (now_at : nat -> Z) (handleError : JsError -> string -> jsstring)
    (chatId messageId : jsstring) (api : option JsError) (w : World) :
  let r := deleteMessage now_at handleError chatId messageId api w in
  (findById chat_id (chats w) chatId = None
   \/ (exists chat, findById chat_id (chats w) chatId = Some chat
                    /\ findById msg_id (messages chat) messageId = None) ->
   fst r = (Resolved, None) /\ chats (snd r) = chats w /\ io (snd r) = io w
   /\ exists text, error (snd r) = Some text)
  /\ (forall chat m,
        unique_chat_ids (chats w) ->
        findById chat_id (chats w) chatId = Some chat ->
        findById msg_id (messages chat) messageId = Some m ->
        exists kept dropped,
          messages chat = kept ++ m :: dropped
          /\ ~ In messageId (map msg_id kept)
          /\ snd (fst r)
             = Some {| del_chatId := chatId;
                       del_messageIds := map msg_id (m :: dropped) |}
          /\ findById chat_id (chats (snd r)) chatId
             = Some (set_chat_timestamp (now_at (clock_reads w))
                       (set_messages kept chat))
          /\ (forall other, other <> chatId ->
                findById chat_id (chats (snd r)) other
                = findById chat_id (chats w) other)
          /\ match api with
             | None =>
                 fst (fst r) = Resolved
                 /\ io (snd r)
                    = io w ++ [ IoPersist (ReplaceChatMessages chatId kept);
                                IoPersist (SaveChatMeta chatId None
                                             (Some (now_at (clock_reads w)))) ]
             | Some e =>
                 fst (fst r) = Rejected e /\ io (snd r) = io w
                 /\ error (snd r)
                    = Some (handleError e
                              "Failed to delete message and subsequent messages"%string)
             end).
Proof.
  intros r. subst r. unfold deleteMessage. split.
  - intros [-> | (chat & -> & Hm)].
    + cbn. repeat split. now eexists.
    + apply findIndex_None in Hm. unfold has_id. rewrite Hm.
      cbn. repeat split. now eexists.
  - intros chat m Hu Hc Hm. rewrite Hc.
    destruct (findIndex (has_id msg_id messageId) (messages chat))
      as [index|] eqn:Ei.
    2:{ apply findIndex_None in Ei. unfold findById in Hm.
        unfold has_id in Ei. congruence. }
    destruct (findIndex_Some _ _ _ Ei) as (x & rest & Hs & _ & Hp & Hf & _).
    assert (x = m) by (unfold findById in Hm; unfold has_id in Hf; congruence).
    subst x.
    exists (firstn index (messages chat)), rest.
    pose proof (dropFrom_spec now_at chatId chat index w Hu Hc api)
      as (Hq & Ha & Hk & Ho & _ & _ & _ & Hio & _).
    destruct (dropFrom now_at chatId chat index api w) as [[a req] w1].
    cbn [fst snd] in *. subst a. rewrite Hs in Hq.
    split; [now rewrite <- Hs, firstn_skipn|].
    split; [now apply no_id_in_prefix|].
    destruct api as [e|]; cbn [caught fst snd];
      (split; [now rewrite Hq|]); (split; [exact Hk|]);
      (split; [exact Ho|]).
    + rewrite app_nil_r in Hio. now repeat split.
    + now split.
Qed.

Lemma X11_deleteMessage_cuts_from_the_message_witness :
  let w := set_chats
             [ plain_chat SPNull
                 [ plain_message "m1" user "hi" 1;
                   plain_message "m2" assistant "hello" 2;
                   plain_message "m3" user "more" 3 ] ] sample_world in
  let r := deleteMessage sample_clock sample_handleError
             (str "c1") (str "m2") None w in
  exists kept dropped,
    [ plain_message "m1" user "hi" 1;
      plain_message "m2" assistant "hello" 2;
      plain_message "m3" user "more" 3 ]
    = kept ++ plain_message "m2" assistant "hello" 2 :: dropped
    /\ snd (fst r)
       = Some {| del_chatId := str "c1";
                 del_messageIds :=
                   map msg_id (plain_message "m2" assistant "hello" 2 :: dropped) |}.
Proof.
  intros w r.
  destruct (proj2 (X11_deleteMessage_cuts_from_the_message
                     sample_clock sample_handleError (str "c1") (str "m2")
                     None w)
              (plain_chat SPNull
                 [ plain_message "m1" user "hi" 1;
                   plain_message "m2" assistant "hello" 2;
                   plain_message "m3" user "more" 3 ])
              (plain_message "m2" assistant "hello" 2))
    as (kept & dropped & A & _ & B & _).
  - repeat constructor. cbn. tauto.
  - reflexivity.
  - reflexivity.
  - exists kept, dropped. split; [exact A | exact B].
Defined.

(** X12: editMessage changes the text of a user message and of nothing
    else.  It refuses, touching only the error text, when the chat is not
    there, when it has no message of the id, and when the message is not the
    user's.  Without [dropFollowing] the message of the id gets the new
    content and keeps its other fields, its place, its role and its
    attachment; the other messages and the time of the chat stay, the chats
    are not re-ordered, and the message is handed to the writer. *)
Theorem X12_editMessage_rewrites_a_user_message
    (now_at : nat -> Z) (uuid_at : nat -> jsstring)
    (handleError : JsError -> string -> jsstring)
    (chatId messageId newContent : jsstring) (dropFollowing : bool)
    (api : option JsError) (env : Collaborators) (w : World) :
  let r := editMessage now_at uuid_at handleError chatId messageId newContent
             dropFollowing api env w in
  (findById chat_id (chats w) chatId = None
   \/ (exists chat, findById chat_id (chats w) chatId = Some chat
         /\ match findById msg_id (messages chat) messageId with
            | Some m => msg_role m <> user
            | None => True
            end) ->
   fst r = (Resolved, None) /\ chats (snd r) = chats w /\ io (snd r) = io w
   /\ exists text, error (snd r) = Some text)
  /\ (forall chat m,
        findById chat_id (chats w) chatId = Some chat ->
        findById msg_id (messages chat) messageId = Some m ->
        msg_role m = user ->
        dropFollowing = false ->
        let edited := apply_update newContent None None None None m in
        msg_content edited = newContent
        /\ (msg_id edited, msg_role edited, msg_timestamp edited,
            attachmentMeta edited, attachmentContent edited)
           = (msg_id m, msg_role m, msg_timestamp m,
              attachmentMeta m, attachmentContent m)
        /\ fst r = (Resolved, None)
        /\ map chat_id (chats (snd r)) = map chat_id (chats w)
        /\ map chat_timestamp (chats (snd r)) = map chat_timestamp (chats w)
        /\ io (snd r) = io w ++ [IoPersist (SaveMessage chatId edited)]
        /\ exists chat',
             findById chat_id (chats (snd r)) chatId = Some chat'
             /\ map msg_id (messages chat') = map msg_id (messages chat)
             /\ findById msg_id (messages chat') messageId = Some edited
             /\ (forall other, other <> messageId ->
                   findById msg_id (messages chat') other
                   = findById msg_id (messages chat) other)).
Proof.
  intros r. subst r. unfold editMessage. split.
  - intros [-> | (chat & -> & Hm)].
    { cbn. repeat split. now eexists. }
    destruct (findIndex (has_id msg_id messageId) (messages chat))
      as [index|] eqn:Ei; [|cbn; repeat split; now eexists].
    destruct (findIndex_Some _ _ _ Ei) as (x & rest & _ & _ & _ & Hf & Hn).
    rewrite Hn. unfold findById in Hm. unfold has_id in Hf. rewrite Hf in Hm.
    destruct (msg_role x); try (exfalso; now apply Hm);
      cbn; repeat split; now eexists.
  - intros chat m Hc Hm Hr ->.
    set (edited := apply_update newContent None None None None m).
    rewrite Hc.
    destruct (findIndex (has_id msg_id messageId) (messages chat))
      as [index|] eqn:Ei.
    2:{ apply findIndex_None in Ei. unfold findById in Hm.
        unfold has_id in Ei. congruence. }
    destruct (findIndex_Some _ _ _ Ei) as (x & rest & _ & _ & _ & Hf & Hn).
    assert (x = m) by (unfold findById in Hm; unfold has_id in Hf; congruence).
    subst x. rewrite Hn, Hr. fold edited.
    set (assign := fun c : Chat =>
                     set_messages
                       (update_first (has_id msg_id messageId)
                          (fun _ => edited) (messages c)) c).
    assert (He : forall x : Message, msg_id x = messageId ->
                                     msg_id edited = messageId).
    { intros _ _. apply findById_Some in Hm. exact (proj2 Hm). }
    cbn -[update_first findById edited].
    split; [reflexivity|].
    split; [unfold edited; cbn; now rewrite Hr|].
    split; [reflexivity|].
    split; [apply update_first_map; reflexivity|].
    split; [apply update_first_map; reflexivity|].
    split; [reflexivity|].
    exists (assign chat).
    rewrite (findById_update_first chat_id assign chatId (fun x E => E)), Hc.
    split; [reflexivity|]. unfold assign. cbn [messages set_messages].
    split; [apply (update_first_keys msg_id (fun _ => edited) messageId He)|].
    split.
    + now rewrite (findById_update_first msg_id (fun _ => edited) messageId He),
        Hm.
    + intros other Ho.
      now apply (findById_update_first_other msg_id (fun _ => edited)
                   messageId He).
Qed.

Lemma X12_editMessage_rewrites_a_user_message_witness :
  let w := set_chats
             [ plain_chat SPNull
                 [ plain_message "m1" user "hi" 1;
                   plain_message "m2" assistant "hello" 2 ] ] sample_world in
  fst (editMessage sample_clock sample_uuid sample_handleError
         (str "c1") (str "m2") (str "bye") false None sample_answers w)
  = (Resolved, None)
  /\ io (snd (editMessage sample_clock sample_uuid sample_handleError
                (str "c1") (str "m1") (str "hey") false None sample_answers w))
     = [ IoPersist (SaveMessage (str "c1") (plain_message "m1" user "hey" 1)) ].
Proof.
  intros w. split.
  - refine (proj1 (proj1 (X12_editMessage_rewrites_a_user_message
                     sample_clock sample_uuid sample_handleError
                     (str "c1") (str "m2") (str "bye") false None
                     sample_answers w) _)).
    right. eexists. split; [reflexivity|]. cbn. discriminate.
  - refine (proj1 (proj2 (proj2 (proj2 (proj2 (proj2
             (proj2 (X12_editMessage_rewrites_a_user_message
                       sample_clock sample_uuid sample_handleError
                       (str "c1") (str "m1") (str "hey") false None
                       sample_answers w)
                (plain_chat SPNull
                   [ plain_message "m1" user "hi" 1;
                     plain_message "m2" assistant "hello" 2 ])
                (plain_message "m1" user "hi" 1)
                eq_refl eq_refl eq_refl eq_refl))))))).
Defined.

Lemma dropFrom_api (now_at : nat -> Z) (chatId : jsstring) (chat : Chat)
    (index : nat) (api : option JsError) (w : World) :
  fst (fst (dropFrom now_at chatId chat index api w)) = api.
Proof. unfold dropFrom. cbn [Date_now]. now destruct api. Qed.





(** X13: editing with [dropFollowing] is deleting from the message on and
    then sending the new text with the attachment of the old message: the
    backend gets the request deleteMessage would send, the promise settles
    as that of sendMessage does, and the store is left as sendMessage leaves
    it after the deletion, but for the error text, which on a failure is
    the one editMessage derives from the error. *)
Theorem X13_edit_and_drop_is_delete_then_send
    (now_at : nat -> Z) (uuid_at : nat -> jsstring)
    (handleError : JsError -> string -> jsstring)
    (chatId messageId newContent : jsstring) (env : Collaborators)
    (w : World) (chat : Chat) (m : Message) :
  findById chat_id (chats w) chatId = Some chat ->
  findById msg_id (messages chat) messageId = Some m ->
  msg_role m = user ->
  let deleted := deleteMessage now_at handleError chatId messageId None w in
  let sent := sendMessage now_at uuid_at handleError chatId newContent
                (cached_attachment m) env (snd deleted) in
  let r := editMessage now_at uuid_at handleError chatId messageId newContent
             true None env w in
  fst r = (fst sent, snd (fst deleted))
  /\ match fst sent with
     | Resolved => snd r = snd sent
     | Rejected e =>
         snd r = set_error (Some (handleError e "Failed to edit message"%string))
                   (snd sent)
     end.
Proof.
  intros Hc Hm Hr deleted sent r. subst deleted sent r.
  unfold editMessage, deleteMessage, drop_and_resend. rewrite Hc.
  destruct (findIndex (has_id msg_id messageId) (messages chat))
    as [index|] eqn:Ei.
  2:{ apply findIndex_None in Ei. unfold findById in Hm.
      unfold has_id in Ei. congruence. }
  destruct (findIndex_Some _ _ _ Ei) as (x & rest & _ & _ & _ & Hf & Hn).
  assert (x = m) by (unfold findById in Hm; unfold has_id in Hf; congruence).
  subst x. rewrite Hn, Hr.
  pose proof (dropFrom_api now_at chatId chat index None w) as Ha.
  destruct (dropFrom now_at chatId chat index None w) as [[a req] w1].
  cbn [fst snd] in Ha. subst a. cbn [fst snd].
  destruct (sendMessage now_at uuid_at handleError chatId newContent
              (cached_attachment m) env w1) as [[|e] w2];
    cbn; split; reflexivity.
Qed.

Lemma X13_edit_and_drop_is_delete_then_send_witness :
  let w := set_chats
             [ plain_chat SPNull
                 [ plain_message "m1" user "hi" 1;
                   plain_message "m2" assistant "hello" 2 ] ] sample_world in
  let deleted := deleteMessage sample_clock sample_handleError
                   (str "c1") (str "m1") None w in
  let sent := sendMessage sample_clock sample_uuid sample_handleError
                (str "c1") (str "hey")
                (cached_attachment (plain_message "m1" user "hi" 1))
                sample_answers (snd deleted) in
  fst (editMessage sample_clock sample_uuid sample_handleError
         (str "c1") (str "m1") (str "hey") true None sample_answers w)
  = (fst sent, snd (fst deleted)).
Proof.
  intros w deleted sent.
  pose proof (X13_edit_and_drop_is_delete_then_send
                sample_clock sample_uuid sample_handleError
                (str "c1") (str "m1") (str "hey") sample_answers w
                (plain_chat SPNull
                   [ plain_message "m1" user "hi" 1;
                     plain_message "m2" assistant "hello" 2 ])
                (plain_message "m1" user "hi" 1)
                eq_refl eq_refl eq_refl) as H.
  cbv zeta in H. destruct H as [H _]. exact H.
Defined.



(** ** The inline-tag encoding *)

Lemma slice_from_last (s : jsstring) :
  slice_from (-64) s = skipn (length s - 64) s.
Proof.
  unfold slice_from. cbn [Z.ltb Z.compare]. f_equal. lia.
Qed.

Lemma slice_from_length (s : jsstring) :
  (length (slice_from (-64) s) <= 64)%nat.
Proof. rewrite slice_from_last, length_skipn. lia. Qed.

Lemma skipn_past {A} (p l : list A) (n : nat) :
  skipn (length p + n) (p ++ l) = skipn n l.
Proof. induction p as [|x p IH]; [reflexivity | exact IH]. Qed.

Lemma slice_from_rolls (b c : jsstring) :
  slice_from (-64) (slice_from (-64) b ++ c) = slice_from (-64) (b ++ c).
Proof.
  rewrite !slice_from_last.
  destruct (Nat.le_gt_cases (length b) 64) as [H | H].
  - replace (length b - 64)%nat with 0%nat by lia. reflexivity.
  - set (p := firstn (length b - 64) b). set (q := skipn (length b - 64) b).
    assert (Lp : length p = (length b - 64)%nat)
      by (unfold p; rewrite length_firstn; lia).
    assert (Lq : length q = 64%nat)
      by (unfold q; rewrite length_skipn; lia).
    replace (b ++ c) with (p ++ (q ++ c))
      by (unfold p, q; now rewrite app_assoc, firstn_skipn).
    rewrite !length_app, Lq.
    replace (length p + (64 + length c) - 64)%nat
      with (length p + length c)%nat by lia.
    rewrite skipn_past. f_equal. lia.
Qed.

Lemma next_mode_closed (inThink : bool) (combined : jsstring) :
  next_mode inThink combined = true ->
  some_included THINK_CLOSE_TAGS combined = false.
Proof.
  unfold next_mode.
  destruct (some_included THINK_CLOSE_TAGS combined); [|reflexivity].
  rewrite andb_true_r. now destruct (_ || _).
Qed.

Lemma run_view_answers (texts : list jsstring) (v : View) :
  v_channel v = false ->
  (length (v_buffer v) <= 64)%nat ->
  let v' := run_view (map Answer texts) v in
  v_content v' = v_content v ++ concat texts
  /\ v_buffer v' = slice_from (-64) (v_buffer v ++ concat texts)
  /\ v_channel v' = false
  /\ (texts <> [] -> v_inThink v' = true ->
      some_included THINK_CLOSE_TAGS (v_buffer v') = false).
Proof.
  revert v. induction texts as [|c texts IH] using rev_ind; intros v Hc Hb.
  - cbn. rewrite !app_nil_r, slice_from_short by exact Hb.
    split; [reflexivity|]. split; [reflexivity|]. split; [exact Hc|].
    intros H. now contradiction H.
  - intros v'. subst v'. rewrite map_app. unfold run_view.
    rewrite fold_left_app. cbn [map fold_left].
    change (fold_left _ (map Answer texts) v)
      with (run_view (map Answer texts) v).
    destruct (IH v Hc Hb) as (E1 & E2 & E3 & _).
    set (u := run_view (map Answer texts) v) in *.
    unfold fragment_view, content_view. rewrite E3.
    cbn [v_content v_buffer v_channel v_inThink].
    rewrite E1, E2, concat_app. cbn [concat]. rewrite app_nil_r.
    rewrite slice_from_rolls, <- !app_assoc.
    repeat split. intros _. apply next_mode_closed.
Qed.

(** X15: as long as no line carries a [thinking] field, the turn keeps the
    text of the stream verbatim, tags and all: the accumulated text grows by
    the fragments in their order, the rolling buffer is the last 64 code
    units of what has been read, the encoding stays that of inline tags,
    and after a fragment the turn is never inside a reasoning block while a
    closing tag is in the buffer. *)
Theorem X15_inline_tags_keep_the_text
    (now_at : nat -> Z) (uuid_at : nat -> jsstring) (chatId : jsstring)
    (start : Z) (isImage : bool) (events : list Event) (t : Turn) (w : World)
    (texts : list jsstring) :
  usesThinkingField t = false ->
  (length (thinkTagBuffer t) <= 64)%nat ->
  fragments isImage events = map Answer texts ->
  let t' := fst (processStream now_at uuid_at chatId start isImage
                   events t w) in
  assistantContent t' = assistantContent t ++ concat texts
  /\ thinkTagBuffer t'
     = slice_from (-64) (thinkTagBuffer t ++ concat texts)
  /\ (length (thinkTagBuffer t') <= 64)%nat
  /\ usesThinkingField t' = false
  /\ (texts <> [] -> isInThinkBlock t' = true ->
      some_included THINK_CLOSE_TAGS (thinkTagBuffer t') = false).
Proof.
  intros Hc Hb Hf t'.
  pose proof (view_processStream now_at uuid_at chatId start isImage
                events t w) as V.
  fold t' in V. rewrite Hf in V. apply view_fields in V.
  destruct V as (Vi & Vb & Vc & Vu).
  destruct (run_view_answers texts (view t) Hc Hb) as (E1 & E2 & E3 & E4).
  rewrite Vc, Vb, Vu, Vi. cbn [view v_content v_buffer] in E1, E2.
  split; [exact E1|]. split; [exact E2|].
  split; [rewrite E2; apply slice_from_length|].
  split; [exact E3 | exact E4].
Qed.

Lemma X15_inline_tags_keep_the_text_witness :
  let t' := fst (processStream sample_clock sample_uuid (str "c1") 1000 false
                   (map content_event example_fragments)
                   initialTurn sample_world) in
  assistantContent t' = example_text
  /\ thinkTagBuffer t' = example_text.
Proof.
  intros t'.
  pose proof (X15_inline_tags_keep_the_text
                sample_clock sample_uuid (str "c1") 1000 false
                (map content_event example_fragments) initialTurn
                sample_world example_fragments eq_refl) as H.
  destruct H as (A & B & _).
  - cbn. lia.
  - reflexivity.
  - split; [exact A | exact B].
Defined.

(** ** What a turn leaves of the store *)

Section Store_of_a_turn.

Variable now_at : nat -> Z.
Variable uuid_at : nat -> jsstring.
Variable chatId : jsstring.

Local Abbreviation steady' := (steady chatId).

Lemma steady_refl (w : World) : steady' w w.
Proof. intros w0 ids H. exact H. Qed.

Lemma steady_trans (w1 w2 w3 : World) :
  steady' w1 w2 -> steady' w2 w3 -> steady' w1 w3.
Proof. intros H1 H2 w0 ids H. apply H2, H1, H. Qed.

Lemma steady_same (w w' : World) :
  chats w' = chats w -> cfg w' = cfg w -> activeChatId w' = activeChatId w ->
  error w' = error w -> steady' w w'.
Proof.
  intros Ec Eg Ea Ee w0 ids [(Hg & Ha & He & Hu & Ho) Hm].
  unfold turn_state, keeps_but, message_ids. rewrite Ec, Eg, Ea, Ee.
  repeat split; assumption.
Qed.

Ltac same := apply steady_same; reflexivity.

Lemma steady_clear_if_set (h : option nat) (w : World) :
  steady' w (clear_if_set h w).
Proof. destruct h; [same | apply steady_refl]. Qed.

Lemma steady_persistChatMessages (w : World) :
  steady' w (persistChatMessages chatId w).
Proof.
  unfold persistChatMessages.
  destruct (findById chat_id (chats w) chatId); [same | apply steady_refl].
Qed.

(** An assignment to the chat that keeps its id and the ids of its
    messages. *)
Lemma steady_assign (f : Chat -> Chat) (w w' : World) :
  (forall c, chat_id (f c) = chat_id c) ->
  (forall c, map msg_id (messages (f c)) = map msg_id (messages c)) ->
  chats w' = update_first (has_id chat_id chatId) f (chats w) ->
  cfg w' = cfg w -> activeChatId w' = activeChatId w -> error w' = error w ->
  steady' w w'.
Proof.
  intros Hi Hm Ec Eg Ea Ee w0 ids [(Hg & Ha & He & Hu & Ho) Hs].
  assert (Hk : forall c, chat_id c = chatId -> chat_id (f c) = chatId)
    by (intros c E; now rewrite Hi).
  unfold turn_state, keeps_but, message_ids in *. rewrite Ec, Eg, Ea, Ee.
  split; [split; [|split; [|split; [|split]]]|]; try assumption.
  - unfold unique_chat_ids in *.
    now rewrite (update_first_keys chat_id f chatId Hk).
  - intros other H.
    rewrite (findById_update_first_other chat_id f chatId Hk) by exact H.
    now apply Ho.
  - rewrite (findById_update_first chat_id f chatId Hk).
    destruct (findById chat_id (chats w) chatId) as [c|]; [|discriminate].
    cbn [option_map] in *. now rewrite Hm.
Qed.

Lemma steady_sort (w w' : World) :
  chats w' = sort_chats (chats w) ->
  cfg w' = cfg w -> activeChatId w' = activeChatId w -> error w' = error w ->
  steady' w w'.
Proof.
  intros Ec Eg Ea Ee w0 ids [(Hg & Ha & He & Hu & Ho) Hs].
  unfold turn_state, keeps_but, message_ids in *. rewrite Ec, Eg, Ea, Ee.
  split; [split; [|split; [|split; [|split]]]|]; try assumption.
  - now apply sort_chats_unique.
  - intros other H. rewrite findById_sort_chats by exact Hu. now apply Ho.
  - now rewrite findById_sort_chats by exact Hu.
Qed.

Lemma steady_updateMessage (messageId : option jsstring) (content : jsstring)
    (il : option bool) (tt : option Z) (it : option bool)
    (extra : option Extra) (w : World) :
  steady' w (updateMessage chatId messageId content il tt it extra w).
Proof.
  unfold updateMessage.
  set (w1 := emit _ w).
  assert (S1 : steady' w w1) by same.
  change (chats w1) with (chats w).
  destruct (findById chat_id (chats w) chatId) as [c|]; [|exact S1].
  destruct messageId as [id|]; [|exact S1].
  destruct (find_message c (Some id)) as [m|] eqn:Em; [|exact S1].
  cbn [find_message] in Em. apply findById_Some in Em.
  set (m' := apply_update content il tt it extra m).
  assert (Hm : forall x : Message, msg_id x = id -> msg_id m' = id)
    by (intros _ _; exact (proj2 Em)).
  eapply steady_trans; [exact S1|].
  eapply steady_assign with
    (f := fun c0 => set_messages
                      (update_first (has_id msg_id id) (fun _ => m')
                         (messages c0)) c0);
    try reflexivity.
  intros c0. cbn [messages set_messages].
  apply (update_first_keys msg_id (fun _ => m') id Hm).
Qed.

Lemma steady_renameChat (newTitle : jsstring) (w : World) :
  steady' w (renameChat chatId newTitle w).
Proof.
  unfold renameChat.
  destruct (findById chat_id (chats w) chatId); [|apply steady_refl].
  eapply steady_assign with (f := set_chat_title newTitle); reflexivity.
Qed.

Lemma steady_generateChatTitle (reply : option jsstring) (w : World) :
  steady' w (generateChatTitle chatId reply w).
Proof.
  unfold generateChatTitle.
  destruct (findById chat_id (chats w) chatId) as [c|]; [|apply steady_refl].
  destruct (messages c) as [|m0 ms]; [apply steady_refl|].
  destruct (_ && _); [apply steady_renameChat|].
  eapply steady_trans with (w2 := emit IoTitleRequest w); [same|].
  destruct reply; apply steady_renameChat.
Qed.

Lemma steady_followUp (reply : option jsstring) (w : World) :
  steady' w (followUp chatId reply w).
Proof.
  unfold followUp.
  set (w1 := match findById chat_id (chats w) chatId with
              | Some _ => _
              | None => _
              end).
  assert (H1 : steady' w w1).
  { unfold w1.
    destruct (findById chat_id (chats w) chatId) as [c|]; [|apply steady_refl].
    destruct (shouldGenerateTitle w c); [|apply steady_refl].
    apply steady_trans with (w2 := set_isGeneratingTitle true w); [same|].
    eapply steady_trans; [apply steady_generateChatTitle | same]. }
  cbv zeta. eapply steady_trans; [exact H1|].
  eapply steady_sort; reflexivity.
Qed.

Lemma addMessage_settings (message : Message) (att : option AddedAttachment)
    (w : World) :
  let w' := snd (addMessage now_at uuid_at chatId message att w) in
  cfg w' = cfg w /\ activeChatId w' = activeChatId w /\ error w' = error w.
Proof.
  cbv zeta. unfold addMessage.
  destruct (findById chat_id (chats w) chatId); [|now repeat split].
  destruct (msg_role message); now repeat split.
Qed.

(** A message added to the chat of the turn is one more id at the end. *)
Lemma turn_state_addMessage (message : Message) (att : option AddedAttachment)
    (w0 w : World) (ids : list jsstring) :
  turn_state chatId w0 ids w -> msg_role message <> system ->
  let r := addMessage now_at uuid_at chatId message att w in
  exists id, fst r = Some id /\ turn_state chatId w0 (ids ++ [id]) (snd r).
Proof.
  intros [(Hg & Ha & He & Hu & Ho) Hs] Hr r.
  unfold message_ids in Hs.
  destruct (findById chat_id (chats w) chatId) as [c|] eqn:Ec;
    [|discriminate].
  cbn [option_map] in Hs. inversion Hs as [Hi].
  destruct (proj2 (addMessage_spec now_at uuid_at chatId message att w)
              c Hu Ec Hr) as (E1 & E2 & E3 & _ & E5 & _).
  destruct (addMessage_settings message att w) as (F1 & F2 & F3).
  fold r in E1, E2, E3, E5, F1, F2, F3.
  exists (uuid_at (uuids_drawn w)). split; [exact E1|].
  unfold turn_state, keeps_but, message_ids.
  rewrite F1, F2, F3, E2. cbn [option_map messages set_chat_timestamp
                                set_messages].
  rewrite map_app. cbn [map with_id msg_id].
  repeat split; try assumption.
  intros other H. rewrite E3 by exact H. now apply Ho.
Qed.

(** *** The closures *)

Variable requestStartTime : Z.
Variable isImage : bool.

Lemma steady_startThinkTimeUpdates (t : Turn) (w : World) :
  assistantMessageId (fst (startThinkTimeUpdates t w)) = assistantMessageId t
  /\ steady' w (snd (startThinkTimeUpdates t w)).
Proof.
  unfold startThinkTimeUpdates. cbn [setInterval fst snd].
  split; [reflexivity|].
  eapply steady_trans; [apply steady_clear_if_set | same].
Qed.

Lemma steady_updateThinkStateFromChunk (c : jsstring) (t : Turn) (w : World) :
  assistantMessageId (fst (updateThinkStateFromChunk now_at c t w))
  = assistantMessageId t
  /\ steady' w (snd (updateThinkStateFromChunk now_at c t w)).
Proof.
  unfold updateThinkStateFromChunk.
  set (t1 := set_thinkTagBuffer _ t).
  set (r := if negb (isInThinkBlock t1) && _ then _ else (t1, w)).
  assert (H : assistantMessageId (fst r) = assistantMessageId t
              /\ steady' w (snd r)).
  { unfold r. destruct (_ && _); [|split; [reflexivity | apply steady_refl]].
    cbn [Date_now].
    match goal with
    | |- context [startThinkTimeUpdates ?a ?b] =>
        destruct (steady_startThinkTimeUpdates a b) as [E S]
    end.
    split; [now rewrite E|].
    eapply steady_trans; [|exact S]. same. }
  destruct r as [t2 w2]. cbn [fst snd] in H. destruct H as [E S].
  destruct (_ && _); cbn [fst snd]; (split; [exact E|]); [|exact S].
  eapply steady_trans; [exact S | apply steady_clear_if_set].
Qed.

Lemma steady_onInterval (t : Turn) (w : World) :
  steady' w (onInterval now_at chatId t w).
Proof.
  unfold onInterval. destruct (_ && _); [|apply steady_refl].
  cbn [Date_now].
  eapply steady_trans; [|apply steady_updateMessage]. same.
Qed.

Lemma steady_cleanup (t : Turn) (w : World) :
  steady' w (cleanup now_at chatId requestStartTime t w).
Proof.
  unfold cleanup.
  destruct (_ && _); [|apply steady_clear_if_set].
  cbn [Date_now].
  eapply steady_trans; [apply steady_clear_if_set|].
  eapply steady_trans; [|apply steady_updateMessage]. same.
Qed.

Lemma steady_stamp_first_token (t : Turn) (w : World) :
  assistantMessageId (fst (stamp_first_token now_at t w)) = assistantMessageId t
  /\ steady' w (snd (stamp_first_token now_at t w)).
Proof.
  unfold stamp_first_token.
  destruct (firstTokenTime t); cbn [Date_now fst snd];
    (split; [reflexivity|]); [apply steady_refl | same].
Qed.

Lemma steady_open_think_block (t : Turn) (w : World) :
  assistantMessageId (fst (open_think_block now_at t w)) = assistantMessageId t
  /\ steady' w (snd (open_think_block now_at t w)).
Proof.
  unfold open_think_block. cbn [Date_now].
  destruct (negb (isInThinkBlock t)); cbn [fst snd];
    [|split; [reflexivity | apply steady_refl]].
  match goal with
  | |- context [startThinkTimeUpdates ?a ?b] =>
      destruct (steady_startThinkTimeUpdates a b) as [E S]
  end.
  split; [now rewrite E|]. eapply steady_trans; [|exact S]. same.
Qed.

Lemma steady_close_think_block (t : Turn) (w : World) :
  assistantMessageId (fst (close_think_block t w)) = assistantMessageId t
  /\ steady' w (snd (close_think_block t w)).
Proof.
  unfold close_think_block.
  destruct (usesThinkingField t && isInThinkBlock t); cbn [fst snd];
    (split; [reflexivity|]); [apply steady_clear_if_set | apply steady_refl].
Qed.

Lemma steady_detect_tags (c : jsstring) (t : Turn) (w : World) :
  assistantMessageId (fst (detect_tags now_at c t w)) = assistantMessageId t
  /\ steady' w (snd (detect_tags now_at c t w)).
Proof.
  unfold detect_tags. destruct (negb (usesThinkingField t)).
  - apply steady_updateThinkStateFromChunk.
  - split; [reflexivity | apply steady_refl].
Qed.

Section From_the_start.

(** The store the turn started in, and the ids its chat had before the
    assistant answered. *)
Variable w0 : World.
Variable base : list jsstring.

Local Abbreviation standing t w :=
  (turn_state chatId w0 (base ++ assistant_ids t) w).

Lemma standing_steady (t t' : Turn) (w w' : World) :
  assistantMessageId t' = assistantMessageId t -> steady' w w' ->
  standing t w -> standing t' w'.
Proof.
  intros E S H. unfold assistant_ids in *. rewrite E. now apply S.
Qed.

Lemma standing_create_assistant_content (t : Turn) (w : World) :
  standing t w ->
  let r := create_assistant_content now_at uuid_at chatId requestStartTime
             t w in
  standing (fst r) (snd r) /\ assistantMessageId (fst r) <> None.
Proof.
  intros H. unfold create_assistant_content.
  destruct (assistantMessageId t) as [id|] eqn:Ei.
  { cbn [fst snd]. split; [exact H | now rewrite Ei]. }
  unfold assistant_ids in H. rewrite Ei, app_nil_r in H.
  destruct (truthy_num (thinkStartTime t) && isInThinkBlock t);
    cbn [Date_now];
    match goal with
    | |- context [addMessage ?a ?b ?c ?d ?e ?f] =>
        assert (H' : turn_state chatId w0 base f)
          by (revert H; apply steady_same; reflexivity);
        destruct (turn_state_addMessage d e w0 f base H')
          as (id & E1 & E2); [discriminate|];
        destruct (addMessage a b c d e f) as [r1 r2]
    end; cbn [fst snd] in *; subst r1;
    (split; [exact E2 | discriminate]).
Qed.

Lemma standing_create_assistant_thinking (t : Turn) (w : World) :
  standing t w ->
  let r := create_assistant_thinking now_at uuid_at chatId requestStartTime
             t w in
  standing (fst r) (snd r) /\ assistantMessageId (fst r) <> None.
Proof.
  intros H. unfold create_assistant_thinking.
  destruct (assistantMessageId t) as [id|] eqn:Ei.
  { cbn [fst snd]. split; [exact H | now rewrite Ei]. }
  unfold assistant_ids in H. rewrite Ei, app_nil_r in H.
  cbn [Date_now].
  match goal with
  | |- context [addMessage ?a ?b ?c ?d ?e ?f] =>
      assert (H' : turn_state chatId w0 base f)
        by (revert H; apply steady_same; reflexivity);
      destruct (turn_state_addMessage d e w0 f base H')
        as (id & E1 & E2); [discriminate|];
      destruct (addMessage a b c d e f) as [r1 r2]
  end; cbn [fst snd] in *; subst r1.
  split; [exact E2 | discriminate].
Qed.

(** Name the result of the next stage, with what is known of it. *)
Ltac step t' w' E S lemma :=
  match goal with
  | |- context [let (_, _) := ?e in _] =>
      destruct lemma as [E S];
      destruct e as [t' w']; cbn [fst snd] in E, S
  end.

Lemma standing_onContent (c : jsstring) (t : Turn) (w : World) :
  standing t w ->
  let r := onContent now_at uuid_at chatId requestStartTime c t w in
  standing (fst r) (snd r) /\ assistantMessageId (fst r) <> None.
Proof.
  intros H. unfold onContent.
  step t1 w1 E1 S1 (steady_stamp_first_token t w).
  step t2 w2 E2 S2 (steady_close_think_block t1 w1).
  step t3 w3 E3 S3 (steady_detect_tags c t2 w2).
  assert (H3 : standing t3 w3).
  { apply standing_steady with (t := t) (w := w); [congruence | | exact H].
    eapply steady_trans; [exact S1|]. eapply steady_trans; eassumption. }
  step t4 w4 H4 N4 (standing_create_assistant_content t3 w3 H3).
  cbn [Date_now fst snd]. split; [|exact N4].
  apply standing_steady with (t := t4) (w := w4);
    [reflexivity | | exact H4].
  eapply steady_trans; [|apply steady_updateMessage]. same.
Qed.

Lemma standing_onThinking (c : jsstring) (t : Turn) (w : World) :
  standing t w ->
  let r := onThinking now_at uuid_at chatId requestStartTime c t w in
  standing (fst r) (snd r) /\ assistantMessageId (fst r) <> None.
Proof.
  intros H. unfold onThinking.
  step t2 w2 E2 S2 (steady_stamp_first_token (set_usesThinkingField true t) w).
  step t3 w3 E3 S3 (steady_open_think_block t2 w2).
  assert (H3 : standing t3 w3).
  { apply standing_steady with (t := t) (w := w);
      [rewrite E3, E2; reflexivity | | exact H].
    eapply steady_trans; eassumption. }
  step t4 w4 H4 N4 (standing_create_assistant_thinking t3 w3 H3).
  cbn [Date_now fst snd]. split; [|exact N4].
  apply standing_steady with (t := t4) (w := w4);
    [reflexivity | | exact H4].
  eapply steady_trans; [|apply steady_updateMessage]. same.
Qed.

Lemma standing_onEvent (e : Event) (t : Turn) (w : World) :
  standing t w ->
  let r := onEvent now_at uuid_at chatId requestStartTime isImage (t, w) e in
  standing (fst r) (snd r)
  /\ (assistantMessageId (fst r) = None <->
      assistantMessageId t = None /\ fragments isImage [e] = []).
Proof.
  intros H. destruct e as [d|]; cbn [onEvent].
  - unfold onData, fragments, classify. cbn [flat_map].
    destruct (truthy_opt (message_thinking d)).
    + destruct (standing_onThinking (num_str (message_thinking d)) t w H)
        as [H1 N1].
      split; [exact H1|]. cbn. split; [intros E; now contradiction N1|].
      intros [_ E]. discriminate E.
    + destruct (truthy_opt (if isImage then response d else message_content d)).
      * destruct (standing_onContent
                    (num_str (if isImage then response d else message_content d))
                    t w H) as [H1 N1].
        split; [exact H1|]. cbn. split; [intros E; now contradiction N1|].
        intros [_ E]. discriminate E.
      * cbn. split; [exact H | tauto].
  - cbn [fst snd fragments flat_map]. split; [|tauto].
    apply standing_steady with (t := t) (w := w); [reflexivity | | exact H].
    destruct (interval_live t w); [apply steady_onInterval | apply steady_refl].
Qed.

Lemma standing_processStream (events : list Event) (t : Turn) (w : World) :
  standing t w ->
  let r := processStream now_at uuid_at chatId requestStartTime isImage
             events t w in
  standing (fst r) (snd r)
  /\ (assistantMessageId (fst r) = None <->
      assistantMessageId t = None /\ fragments isImage events = []).
Proof.
  unfold processStream. revert t w.
  induction events as [|e events IH]; intros t w H.
  - cbn. split; [exact H | tauto].
  - cbn [fold_left].
    destruct (standing_onEvent e t w H) as [H1 N1].
    destruct (onEvent now_at uuid_at chatId requestStartTime isImage (t, w) e)
      as [t1 w1].
    cbn [fst snd] in *.
    destruct (IH t1 w1 H1) as [H2 N2].
    split; [exact H2|]. rewrite N2, N1.
    unfold fragments. cbn [flat_map]. rewrite app_nil_r.
    split.
    + intros [[A B] C]. split; [exact A|]. now rewrite B, C.
    + intros [A B]. apply app_eq_nil in B. tauto.
Qed.

End From_the_start.

Lemma steady_finalize (t : Turn) (w : World) :
  steady' w (finalize now_at chatId requestStartTime t w).
Proof.
  unfold finalize.
  destruct (truthy_opt (assistantMessageId t)); [|apply steady_refl].
  match goal with
  | |- context [let (_, _) := ?e in _] =>
      assert (A : steady' w (snd e))
        by (destruct (_ && _); [cbn [Date_now snd]; same | apply steady_refl]);
      destruct e as [ftt wa]
  end.
  cbn [snd] in A. cbn [Date_now].
  eapply steady_trans; [exact A|].
  eapply steady_trans; [apply steady_clear_if_set|].
  eapply steady_trans with (w2 := persistChatMessages chatId _); [|same].
  eapply steady_trans; [|apply steady_persistChatMessages].
  eapply steady_trans; [|apply steady_updateMessage]. same.
Qed.

(** A stream without a fragment, read by a turn that has no interval
    running, does nothing. *)
Lemma processStream_idle (events : list Event) (t : Turn) (w : World) :
  fragments isImage events = [] -> thinkTimeInterval t = None ->
  processStream now_at uuid_at chatId requestStartTime isImage events t w
  = (t, w).
Proof.
  unfold processStream. intros H Ht.
  induction events as [|e events IH]; [reflexivity|].
  cbn [fold_left]. unfold fragments in H. cbn [flat_map] in H.
  apply app_eq_nil in H. destruct H as [He H].
  destruct e as [d|]; cbn [onEvent].
  - unfold onData. unfold classify in He.
    destruct (truthy_opt (message_thinking d)); [discriminate|].
    destruct (truthy_opt _); [discriminate|]. now apply IH.
  - unfold interval_live. rewrite Ht. now apply IH.
Qed.

Lemma turn_state_start (w : World) (ids : list jsstring) :
  unique_chat_ids (chats w) -> message_ids chatId w = Some ids ->
  turn_state chatId w ids w.
Proof. intros Hu Hm. now repeat split. Qed.

End Store_of_a_turn.

(** X16: a stream adds at most one message to the store, the assistant's,
    at the end of the chat of the turn, and adds it exactly when it carries
    a fragment; whatever it carries, the settings, the active id, the error
    text and the other chats are left as they were.  A stream without a
    fragment changes neither the turn nor the store. *)
Theorem X16_stream_adds_one_assistant_message
    (now_at : nat -> Z) (uuid_at : nat -> jsstring) (chatId : jsstring)
    (start : Z) (isImage : bool) (events : list Event) (w : World)
    (ids : list jsstring) :
  unique_chat_ids (chats w) ->
  message_ids chatId w = Some ids ->
  let r := processStream now_at uuid_at chatId start isImage events
             initialTurn w in
  keeps_but chatId w (snd r)
  /\ message_ids chatId (snd r) = Some (ids ++ assistant_ids (fst r))
  /\ (assistantMessageId (fst r) = None <-> fragments isImage events = [])
  /\ (fragments isImage events = [] -> r = (initialTurn, w)).
Proof.
  intros Hu Hm r.
  assert (H : turn_state chatId w (ids ++ assistant_ids initialTurn) w).
  { cbn. rewrite app_nil_r. now apply turn_state_start. }
  destruct (standing_processStream now_at uuid_at chatId start isImage w ids
              events initialTurn w H) as [[Hk Hs] Hn].
  fold r in Hk, Hs, Hn.
  split; [exact Hk|]. split; [exact Hs|]. split.
  - rewrite Hn. cbn. tauto.
  - intros Hf. now apply processStream_idle.
Qed.

Lemma X16_stream_adds_one_assistant_message_witness :
  let w := set_chats [plain_chat SPNull [plain_message "u1" user "hi" 1]]
             sample_world in
  let r := processStream sample_clock sample_uuid (str "c1") 1000 false
             (map content_event example_fragments) initialTurn w in
  message_ids (str "c1") (snd r) = Some ([str "u1"] ++ assistant_ids (fst r))
  /\ (assistantMessageId (fst r) = None <->
      fragments false (map content_event example_fragments) = []).
Proof.
  intros w r.
  pose proof (X16_stream_adds_one_assistant_message
                sample_clock sample_uuid (str "c1") 1000 false
                (map content_event example_fragments) w [str "u1"]) as H.
  destruct H as (_ & A & B & _).
  - repeat constructor. cbn. tauto.
  - reflexivity.
  - split; [exact A | exact B].
Defined.

Lemma turn_state_sendMessage_try
    (now_at : nat -> Z) (uuid_at : nat -> jsstring)
    (chatId content : jsstring) (att : option Attachment)
    (env : Collaborators) (w : World) (ids : list jsstring) :
  unique_chat_ids (chats w) ->
  message_ids chatId w = Some ids ->
  exists more,
    turn_state chatId w (ids ++ more)
      (snd (sendMessage_try now_at uuid_at chatId content att env w))
    /\ (length more <= 2)%nat.
Proof.
  intros Hu Hm.
  pose proof (turn_state_start chatId w ids Hu Hm) as H0.
  assert (Hnil : exists more,
             turn_state chatId w (ids ++ more) w /\ (length more <= 2)%nat).
  { exists []. rewrite app_nil_r. split; [exact H0 | cbn; lia]. }
  unfold sendMessage_try.
  destruct (findById chat_id (chats w) chatId); [|exact Hnil].
  destruct (models (cfg w)); [exact Hnil|].
  destruct (_ && _); [exact Hnil|].
  set (w2 := emit IoSidePipelines _).
  assert (H2 : turn_state chatId w ids w2).
  { revert H0. apply steady_same; reflexivity. }
  destruct (side env) as [ui model|e].
  2:{ exists []. rewrite app_nil_r. split; [exact H2 | cbn; lia]. }
  cbn [Date_now].
  match goal with
  | |- context [addMessage ?a ?b ?c ?d ?e ?f] =>
      assert (H3 : turn_state chatId w ids f)
        by (revert H2; apply steady_same; reflexivity);
      destruct (turn_state_addMessage a b c d e w f ids H3)
        as (uid & E4 & H4); [discriminate|];
      destruct (addMessage a b c d e f) as [userMessageId w4]
  end.
  cbn [fst snd] in E4, H4. subst userMessageId.
  destruct (negb (truthy_opt (Some uid))).
  { exists [uid]. split; [exact H4 | cbn; lia]. }
  set (w7 := syncActiveChat _).
  assert (H7 : turn_state chatId w (ids ++ [uid]) w7).
  { revert H4. eapply steady_trans; [apply steady_persistChatMessages|].
    apply steady_same; reflexivity. }
  destruct (buildOllamaRequestBody _ _ _ _ _ _ _ _) as [e|body].
  { exists [uid]. split; [exact H7 | cbn; lia]. }
  set (w9 := emit (IoFetch body) _).
  assert (H9 : turn_state chatId w (ids ++ [uid]) w9).
  { revert H7. apply steady_same; reflexivity. }
  destruct (fetched env) as [e|events ending].
  { exists [uid]. split; [exact H9 | cbn; lia]. }
  assert (S9 : turn_state chatId w
                 ((ids ++ [uid]) ++ assistant_ids initialTurn) w9).
  { cbn [assistant_ids initialTurn assistantMessageId].
    now rewrite app_nil_r. }
  destruct (standing_processStream now_at uuid_at chatId
              (now_at (clock_reads w7)) (is_image att) w (ids ++ [uid])
              events initialTurn w9 S9) as [H10 _].
  destruct (processStream _ _ _ _ _ _ _ _) as [t w10].
  cbn [fst snd] in H10. rewrite <- app_assoc in H10.
  exists ([uid] ++ assistant_ids t).
  assert (L : (length ([uid] ++ assistant_ids t) <= 2)%nat).
  { unfold assistant_ids. destruct (assistantMessageId t); cbn; lia. }
  split; [|exact L].
  destruct ending as [| |e]; cbn [snd].
  - revert H10. eapply steady_trans; [|apply steady_followUp].
    apply steady_finalize.
  - revert H10.
    apply steady_trans
      with (w2 := set_abortController (Some {| aborted := true |}) w10);
      [apply steady_same; reflexivity | apply steady_cleanup].
  - exact H10.
Qed.

(** X17: whatever a turn meets, sendMessage only appends.  The ids of the
    chats being distinct, it leaves the settings and the active id alone
    and every other chat as it was; the chat of the turn keeps its messages
    in their order and gets at most two more at its end, the user's and
    then the assistant's.  On every path it ends with the sending flag off
    and the controller dropped; the error text is untouched when the
    promise resolves, a stop by the user included, and is the text derived
    from the error when it rejects. *)
Theorem X17_turn_only_appends
    (now_at : nat -> Z) (uuid_at : nat -> jsstring)
    (handleError : JsError -> string -> jsstring) (chatId content : jsstring)
    (att : option Attachment) (env : Collaborators) (w : World)
    (ids : list jsstring) :
  unique_chat_ids (chats w) ->
  message_ids chatId w = Some ids ->
  let r := sendMessage now_at uuid_at handleError chatId content att env w in
  cfg (snd r) = cfg w /\ activeChatId (snd r) = activeChatId w
  /\ unique_chat_ids (chats (snd r))
  /\ (forall other, other <> chatId ->
        findById chat_id (chats (snd r)) other
        = findById chat_id (chats w) other)
  /\ (exists more, message_ids chatId (snd r) = Some (ids ++ more)
                   /\ (length more <= 2)%nat)
  /\ isSending (snd r) = false /\ abortController (snd r) = None
  /\ match fst r with
     | Resolved => error (snd r) = error w
     | Rejected e =>
         e <> AbortError
         /\ error (snd r)
            = Some (handleError e
                      "Failed to stream message from Ollama"%string)
     end.
Proof.
  intros Hu Hm r. subst r. unfold sendMessage.
  destruct (turn_state_sendMessage_try now_at uuid_at chatId content att env
              w ids Hu Hm) as (more & [(Hg & Ha & He & Hq & Ho) Hs] & L).
  destruct (sendMessage_try now_at uuid_at chatId content att env w)
    as [res w1].
  cbn [snd] in *. unfold message_ids in *.
  destruct res as [[|m]|[]]; cbn;
    (split; [exact Hg|]); (split; [exact Ha|]); (split; [exact Hq|]);
    (split; [exact Ho|]); (split; [now exists more|]);
    (split; [reflexivity|]); (split; [reflexivity|]);
    try exact He.
  split; [discriminate | reflexivity].
Qed.

Lemma X17_turn_only_appends_witness :
  let w := set_chats [plain_chat SPNull [plain_message "u0" user "hi" 1]]
             sample_world in
  let r := sendMessage sample_clock sample_uuid sample_handleError
             (str "c1") (str "more") None sample_answers w in
  exists more, message_ids (str "c1") (snd r) = Some ([str "u0"] ++ more)
               /\ (length more <= 2)%nat.
Proof.
  intros w r.
  pose proof (X17_turn_only_appends
                sample_clock sample_uuid sample_handleError
                (str "c1") (str "more") None sample_answers w [str "u0"]) as H.
  destruct H as (_ & _ & _ & _ & A & _).
  - repeat constructor. cbn. tauto.
  - reflexivity.
  - exact A.
Defined.

(** ** Hiding the reasoning *)

Section Removing.

Import Markdown.

Variable m : jsstring -> option jsstring.
Hypothesis m_needs_lt : forall c t, c <> lt_char -> m (c :: t) = None.

Lemma rm_no_lt (s rest : jsstring) :
  no_lt s ->
  remove_matches m 0 (s ++ rest) = s ++ remove_matches m 0 rest.
Proof.
  induction 1 as [|c s Hc _ IH]; [reflexivity|].
  change ((c :: s) ++ rest) with (c :: (s ++ rest)).
  unfold remove_matches; fold remove_matches.
  now rewrite (m_needs_lt c (s ++ rest) Hc), IH.
Qed.

Lemma rm_plain (s : jsstring) : no_lt s -> remove_matches m 0 s = s.
Proof.
  intros H. pose proof (rm_no_lt s [] H) as E.
  rewrite app_nil_r in E. rewrite E. cbn. apply app_nil_r.
Qed.

Lemma rm_keep (c : N) (t : jsstring) :
  m (c :: t) = None ->
  remove_matches m 0 (c :: t) = c :: remove_matches m 0 t.
Proof. intros H. unfold remove_matches; fold remove_matches. now rewrite H. Qed.

Lemma rm_skip (mid rest : jsstring) :
  remove_matches m (length mid) (mid ++ rest) = remove_matches m 0 rest.
Proof. induction mid as [|c mid IH]; [reflexivity | exact IH]. Qed.

Lemma rm_match (c : N) (mid rest : jsstring) :
  m (c :: mid ++ rest) = Some rest ->
  remove_matches m 0 (c :: mid ++ rest) = remove_matches m 0 rest.
Proof.
  intros H. unfold remove_matches; fold remove_matches.
  rewrite H, length_app, Nat.add_sub. apply rm_skip.
Qed.

Lemma rm_one_lt (pre seg : jsstring) :
  no_lt pre -> no_lt seg -> m (lt_char :: seg) = None ->
  remove_matches m 0 (pre ++ lt_char :: seg) = pre ++ lt_char :: seg.
Proof.
  intros Hp Hs Hm.
  now rewrite (rm_no_lt pre _ Hp), (rm_keep _ _ Hm), (rm_plain seg Hs).
Qed.

Lemma rm_two_lt (pre seg1 seg2 : jsstring) :
  no_lt pre -> no_lt seg1 -> no_lt seg2 ->
  m (lt_char :: seg1 ++ lt_char :: seg2) = None ->
  m (lt_char :: seg2) = None ->
  remove_matches m 0 (pre ++ lt_char :: seg1 ++ lt_char :: seg2)
  = pre ++ lt_char :: seg1 ++ lt_char :: seg2.
Proof.
  intros Hp H1 H2 M1 M2.
  rewrite (rm_no_lt pre _ Hp), (rm_keep _ _ M1).
  now rewrite (rm_no_lt seg1 _ H1), (rm_keep _ _ M2), (rm_plain seg2 H2).
Qed.

End Removing.

Lemma eq_ci_lt (c : N) : c <> lt_char -> eq_ci lt_char c = false.
Proof.
  intros H. apply N.eqb_neq. unfold toUpperAscii, N_in, lt_char in *.
  destruct (N.leb_spec 97 c); destruct (N.leb_spec c 122); simpl; lia.
Qed.

Lemma match_open_needs_lt (name : jsstring) (c : N) (t : jsstring) :
  c <> lt_char -> Markdown.match_open name (c :: t) = None.
Proof.
  intros H. unfold Markdown.match_open. cbn [lit_ci].
  now rewrite (eq_ci_lt c H).
Qed.

Lemma match_block_needs_lt (name : jsstring) (c : N) (t : jsstring) :
  c <> lt_char -> Markdown.match_block name (c :: t) = None.
Proof.
  intros H. unfold Markdown.match_block.
  now rewrite (match_open_needs_lt name c t H).
Qed.

Lemma match_unclosed_needs_lt (name : jsstring) (c : N) (t : jsstring) :
  c <> lt_char -> Markdown.match_unclosed name (c :: t) = None.
Proof.
  intros H. unfold Markdown.match_unclosed.
  now rewrite (match_open_needs_lt name c t H).
Qed.

Lemma lit_ci_self (p s : jsstring) : lit_ci p (p ++ s) = Some s.
Proof.
  induction p as [|a p IH]; [reflexivity|]. cbn.
  unfold eq_ci. now rewrite N.eqb_refl.
Qed.

Lemma match_open_tag (name body : jsstring) :
  Markdown.match_open name (lt_char :: name ++ Markdown.gt :: body)
  = Some body.
Proof.
  unfold Markdown.match_open.
  change (lt_char :: name ++ Markdown.gt :: body)
    with ((lt_char :: name) ++ Markdown.gt :: body).
  rewrite lit_ci_self. reflexivity.
Qed.

Lemma find_ci_self (p s : jsstring) : find_ci p (p ++ s) = Some s.
Proof.
  pose proof (lit_ci_self p s) as L.
  destruct (p ++ s); cbn [find_ci]; now rewrite L.
Qed.

Lemma find_ci_close (name r post : jsstring) :
  no_lt r ->
  find_ci (Markdown.close_tag name) (r ++ Markdown.close_tag name ++ post)
  = Some post.
Proof.
  intros H. unfold Markdown.close_tag.
  change (str "</" ++ name ++ [Markdown.gt])
    with (lt_char :: (47%N :: name ++ [Markdown.gt])).
  rewrite (find_ci_skip _ _ _ H). apply find_ci_self.
Qed.

Lemma find_ci_none (p r : jsstring) :
  no_lt r -> find_ci (lt_char :: p) r = None.
Proof.
  intros H. pose proof (find_ci_skip p r [] H) as E.
  rewrite app_nil_r in E. rewrite E. reflexivity.
Qed.

Ltac plain_text :=
  solve [ unfold no_lt in *; cbn;
          repeat first [ assumption
                       | apply Forall_app; split
                       | apply Forall_cons; [discriminate|]
                       | apply Forall_nil ] ].

Lemma match_block_closed (name r post : jsstring) :
  no_lt r ->
  Markdown.match_block name
    (lt_char :: (name ++ Markdown.gt :: r ++ Markdown.close_tag name) ++ post)
  = Some post.
Proof.
  intros H. unfold Markdown.match_block.
  replace ((name ++ Markdown.gt :: r ++ Markdown.close_tag name) ++ post)
    with (name ++ Markdown.gt :: (r ++ Markdown.close_tag name ++ post))
    by (now rewrite <- !app_assoc, <- app_comm_cons, <- !app_assoc).
  rewrite match_open_tag. now apply find_ci_close.
Qed.

Lemma match_block_open (name r : jsstring) :
  no_lt r ->
  Markdown.match_block name (lt_char :: name ++ Markdown.gt :: r) = None.
Proof.
  intros H. unfold Markdown.match_block. rewrite match_open_tag.
  unfold Markdown.close_tag.
  change (str "</" ++ name ++ [Markdown.gt])
    with (lt_char :: (47%N :: name ++ [Markdown.gt])).
  now apply find_ci_none.
Qed.

Lemma match_unclosed_open (name r : jsstring) :
  Markdown.match_unclosed name
    (lt_char :: (name ++ Markdown.gt :: r) ++ [])
  = Some [].
Proof.
  unfold Markdown.match_unclosed. now rewrite app_nil_r, match_open_tag.
Qed.

Lemma closed_shape (name r post : jsstring) :
  lt_char :: (name ++ Markdown.gt :: r ++ Markdown.close_tag name) ++ post
  = lt_char :: (name ++ Markdown.gt :: r)
      ++ lt_char :: (47%N :: name ++ Markdown.gt :: post).
Proof.
  unfold Markdown.close_tag. change (str "</") with [lt_char; 47%N].
  repeat first [rewrite <- app_assoc | progress cbn [app]]. reflexivity.
Qed.

(** X18: removeThinkBlocks hides the reasoning and nothing else.  Around
    texts without [<]: a completed think or analysis block is removed and
    what stands before and after it is kept; a block still open, as it is
    while the reasoning streams, is removed to the end of the text; a text
    without [<] is returned as it is. *)
Theorem X18_removeThinkBlocks_hides_the_reasoning
    (name pre r post : jsstring) :
  In name [Markdown.think; Markdown.analysis] ->
  no_lt pre -> no_lt r -> no_lt post ->
  Markdown.removeThinkBlocks
    (pre ++ lt_char :: (name ++ Markdown.gt :: r ++ Markdown.close_tag name)
         ++ post)
  = pre ++ post
  /\ Markdown.removeThinkBlocks (pre ++ lt_char :: name ++ Markdown.gt :: r)
     = pre
  /\ Markdown.removeThinkBlocks pre = pre.
Proof.
  intros Hn Hpre Hr Hpost.
  assert (Hpp : no_lt (pre ++ post)) by now apply Forall_app.
  pose proof (match_block_needs_lt Markdown.think) as B1.
  pose proof (match_block_needs_lt Markdown.analysis) as B2.
  pose proof (match_unclosed_needs_lt Markdown.think) as U1.
  pose proof (match_unclosed_needs_lt Markdown.analysis) as U2.
  assert (P : forall s, no_lt s -> Markdown.removeThinkBlocks s = s).
  { intros s Hs. unfold Markdown.removeThinkBlocks.
    now rewrite (rm_plain _ B1 s Hs), (rm_plain _ B2 s Hs),
      (rm_plain _ U1 s Hs), (rm_plain _ U2 s Hs). }
  split; [|split; [|now apply P]].
  - (* a completed block *)
    unfold Markdown.removeThinkBlocks.
    destruct Hn as [<- | [<- | []]].
    + rewrite (rm_no_lt _ B1 pre _ Hpre).
      rewrite rm_match by now apply match_block_closed.
      rewrite (rm_plain _ B1 post Hpost).
      now rewrite (rm_plain _ B2 _ Hpp), (rm_plain _ U1 _ Hpp),
        (rm_plain _ U2 _ Hpp).
    + rewrite closed_shape at 1.
      rewrite (rm_two_lt _ B1) by first [reflexivity | plain_text].
      rewrite <- closed_shape.
      rewrite (rm_no_lt _ B2 pre _ Hpre).
      rewrite rm_match by now apply match_block_closed.
      rewrite (rm_plain _ B2 post Hpost).
      now rewrite (rm_plain _ U1 _ Hpp), (rm_plain _ U2 _ Hpp).
  - (* a block still open *)
    unfold Markdown.removeThinkBlocks.
    destruct Hn as [<- | [<- | []]].
    + rewrite (rm_one_lt _ B1)
        by first [assumption | plain_text | now apply match_block_open].
      rewrite (rm_one_lt _ B2) by first [reflexivity | plain_text].
      rewrite (rm_no_lt _ U1 pre _ Hpre).
      rewrite <- (app_nil_r (Markdown.think ++ Markdown.gt :: r)).
      rewrite rm_match by apply match_unclosed_open.
      cbn [Markdown.remove_matches]. rewrite app_nil_r.
      apply (rm_plain _ U2 pre Hpre).
    + rewrite (rm_one_lt _ B1) by first [reflexivity | plain_text].
      rewrite (rm_one_lt _ B2)
        by first [assumption | plain_text | now apply match_block_open].
      rewrite (rm_one_lt _ U1) by first [reflexivity | plain_text].
      rewrite (rm_no_lt _ U2 pre _ Hpre).
      rewrite <- (app_nil_r (Markdown.analysis ++ Markdown.gt :: r)).
      rewrite rm_match by apply match_unclosed_open.
      cbn [Markdown.remove_matches]. apply app_nil_r.
Qed.

Lemma X18_removeThinkBlocks_hides_the_reasoning_witness :
  Markdown.removeThinkBlocks (str "Sure. <think>hm</think>Yes")
  = str "Sure. Yes"
  /\ Markdown.removeThinkBlocks (str "Sure. <think>hm") = str "Sure. ".
Proof.
  pose proof (X18_removeThinkBlocks_hides_the_reasoning
                Markdown.think (str "Sure. ") (str "hm") (str "Yes")) as H.
  destruct H as (A & B & _).
  - cbn. tauto.
  - plain_text.
  - plain_text.
  - plain_text.
  - split; [exact A | exact B].
Defined.

(** ** Chats that come and titles that change *)

Lemma find_sort_chats_some (p : Chat -> bool) (c : Chat) (l : list Chat) :
  p c = true -> In c l -> find p (sort_chats l) <> None.
Proof.
  intros Hp Hi E.
  pose proof (find_none p (sort_chats l) E c) as F.
  rewrite F in Hp; [discriminate|].
  eapply Permutation_in; [|exact Hi].
  symmetry. apply sort_chats_Permutation.
Qed.

(** X19: fetchChatById never overwrites: when the store has a chat of the
    id it does nothing, so that a second call with the same chat changes
    nothing.  When it has none, the ids being distinct, the chat comes in
    without its messages, the other chats are as they were, the ids stay
    distinct, the chats are in order, most recent first, and the active
    chat is the chat of the active id. *)
Theorem X19_fetchChatById_adds_once (chat : Chat) (w : World) :
  let w' := fetchChatById chat w in
  (forall c, findById chat_id (chats w) (chat_id chat) = Some c -> w' = w)
  /\ fetchChatById chat w' = w'
  /\ (unique_chat_ids (chats w) ->
      findById chat_id (chats w) (chat_id chat) = None ->
      findById chat_id (chats w') (chat_id chat) = Some (set_messages [] chat)
      /\ (forall other, other <> chat_id chat ->
            findById chat_id (chats w') other
            = findById chat_id (chats w) other)
      /\ unique_chat_ids (chats w')
      /\ StronglySorted recent_first (chats w')
      /\ activeChat w' = findById chat_id (chats w') (activeChatId w)).
Proof.
  intros w'. subst w'. unfold fetchChatById.
  change (find (fun c => Js.eqb (chat_id c) (chat_id chat)) (chats w))
    with (findById chat_id (chats w) (chat_id chat)).
  split; [|split].
  - intros c ->. reflexivity.
  - destruct (findById chat_id (chats w) (chat_id chat)) eqn:E.
    + change (find (fun c => Js.eqb (chat_id c) (chat_id chat)) (chats w))
        with (findById chat_id (chats w) (chat_id chat)).
      now rewrite E.
    + cbn -[sort_chats].
      destruct (find _ (sort_chats _)) eqn:F; [reflexivity|].
      exfalso. revert F.
      apply find_sort_chats_some with (c := set_messages [] chat);
        [apply eqb_refl | now left].
  - intros Hu Hn. rewrite Hn. cbn -[sort_chats findById].
    assert (Hu' : unique_chat_ids (set_messages [] chat :: chats w)).
    { constructor; [now apply findById_None | exact Hu]. }
    split; [|split; [|split; [|split]]].
    + rewrite findById_sort_chats by exact Hu'.
      unfold findById. cbn. now rewrite eqb_refl.
    + intros other Ho. rewrite findById_sort_chats by exact Hu'.
      unfold findById. cbn.
      assert (E : Js.eqb (chat_id chat) other = false)
        by (apply eqb_neq; congruence).
      now rewrite E.
    + now apply sort_chats_unique.
    + apply sort_chats_sorted.
    + reflexivity.
Qed.

Lemma X19_fetchChatById_adds_once_witness :
  let incoming :=
    {| chat_id := str "c2"; chat_title := str "Tea"; chat_timestamp := 9;
       systemPrompt := SPNull;
       messages := [plain_message "m1" user "hi" 1] |} in
  let w' := fetchChatById incoming sample_world in
  findById chat_id (chats w') (str "c2") = Some (set_messages [] incoming)
  /\ fetchChatById incoming w' = w'.
Proof.
  intros incoming w'.
  pose proof (X19_fetchChatById_adds_once incoming sample_world)
    as (_ & B & C).
  destruct C as (A & _).
  - repeat constructor. cbn. tauto.
  - reflexivity.
  - split; [exact A | exact B].
Defined.

(** X20: generateChatTitle changes the title of the chat and nothing else
    in the chats.  It does nothing for a chat that is not there or has no
    message.  Otherwise the chat gets a title, which is handed to the
    writer of the chat's meta data; with neither a system model nor a
    selected model no request is sent and the title is the default title
    of the first message; it is that one too when the request fails. *)
Theorem X20_generateChatTitle_only_renames
    (chatId : jsstring) (reply : option jsstring) (w : World) :
  let w' := generateChatTitle chatId reply w in
  (findById chat_id (chats w) chatId = None
   \/ (exists c, findById chat_id (chats w) chatId = Some c
                 /\ messages c = []) ->
   w' = w)
  /\ (forall c m0 rest,
        findById chat_id (chats w) chatId = Some c ->
        messages c = m0 :: rest ->
        let fallback := generateDefaultTitle w (Some (msg_content m0)) in
        exists newTitle asked,
          chats w'
          = update_first (has_id chat_id chatId) (set_chat_title newTitle)
              (chats w)
          /\ io w'
             = io w ++ asked
                    ++ [IoPersist (SaveChatMeta chatId (Some newTitle) None)]
          /\ (truthy (settings_systemModel (cfg w)) = false ->
              truthy (settings_selectedModel (cfg w)) = false ->
              asked = [] /\ newTitle = fallback)
          /\ (reply = None -> newTitle = fallback)
          /\ (asked = [] \/ asked = [IoTitleRequest])).
Proof.
  intros w'. subst w'. unfold generateChatTitle. split.
  - intros [-> | (c & -> & ->)]; reflexivity.
  - intros c m0 rest Hc Hm. rewrite Hc, Hm.
    set (fallback := generateDefaultTitle w (Some (msg_content m0))).
    destruct (truthy (settings_systemModel (cfg w)));
      destruct (truthy (settings_selectedModel (cfg w))); cbn [negb andb].
    4:{ exists fallback, []. unfold renameChat. rewrite Hc. cbn.
        repeat split; auto. }
    all: destruct reply as [t|]; unfold renameChat;
      change (chats (emit IoTitleRequest w)) with (chats w); rewrite Hc;
      [exists t, [IoTitleRequest] | exists fallback, [IoTitleRequest]];
      cbn; rewrite <- app_assoc;
      repeat split; auto; try discriminate.
Qed.

Lemma X20_generateChatTitle_only_renames_witness :
  let w := set_chats
             [ plain_chat SPNull
                 [ plain_message "m1" user "what is the best tea for me" 1 ] ]
             sample_world in
  exists (newTitle : jsstring) (asked : list IO),
    chats (generateChatTitle (str "c1") None w)
    = update_first (has_id chat_id (str "c1")) (set_chat_title newTitle)
        (chats w)
    /\ asked = [] /\ newTitle = str "what is the best tea".
Proof.
  intros w.
  destruct (proj2 (X20_generateChatTitle_only_renames (str "c1") None w)
              (plain_chat SPNull
                 [ plain_message "m1" user "what is the best tea for me" 1 ])
              (plain_message "m1" user "what is the best tea for me" 1) []
              eq_refl eq_refl)
    as (newTitle & asked & A & _ & B & _).
  exists newTitle, asked. split; [exact A|].
  apply B; reflexivity.
Defined.

(** ** What is sent again, and how fast the answer came *)

(** X21: the attachment of a user message survives in the store as far as
    the code reads it: from the message sendMessage stores for an
    attachment with content and file data, editMessage and regenerateMessage
    get back the attachment (content, type, name, size and date) to send it
    again; an attachment without content or without file data is not sent
    again. *)
Theorem X21_attachment_is_sent_again
    (content id : jsstring) (timestamp : Z) (a : Attachment) :
  let stored := with_id id None (user_message content timestamp (Some a)) in
  (forall file, att_meta a = Some file -> truthy (att_content a) = true ->
                cached_attachment stored = Some a)
  /\ (att_meta a = None \/ truthy (att_content a) = false ->
      cached_attachment stored = None)
  /\ cached_attachment (with_id id None (user_message content timestamp None))
     = None.
Proof.
  destruct a as [c ty [f|]]; cbn; unfold cached_attachment; cbn.
  - split; [|split; [|reflexivity]].
    + intros file _ Hc. rewrite Hc. cbn. now rewrite Hc.
    + intros [H | H]; [discriminate | now rewrite H].
  - split; [|split; [|reflexivity]].
    + intros file H. discriminate H.
    + intros _. now destruct (truthy c).
Qed.

Lemma X21_attachment_is_sent_again_witness :
  let a := {| att_content := str "aGk="; att_type := IMAGE;
              att_meta := Some {| meta_name := str "cat.png"; meta_size := 3;
                                  meta_lastModified := 7 |} |} in
  cached_attachment
    (with_id (str "id-0") None (user_message (str "look") 5 (Some a)))
  = Some a.
Proof.
  intros a.
  exact (proj1 (X21_attachment_is_sent_again (str "look") (str "id-0") 5 a)
           _ eq_refl eq_refl).
Defined.

(** X22: the speed of the metrics is the number of characters per second
    since the first fragment, as binary64 arithmetic gives it.  For an
    answer and a time below 2^53, it is a finite number: to within the part
    2^-51, the output count times 1000 over the milliseconds since the first
    fragment, when at least one has passed, and the count times 1000 when
    none has; the latency of the first fragment and the time since it add
    up to the response time. *)
Theorem X22_speed_is_characters_per_second
    (requestStartTime first now : Z) (text : jsstring) :
  first <> 0%Z ->
  (now - first < 2 ^ 53)%Z ->
  (Z.of_nat (length text) < 2 ^ 53)%Z ->
  let report := metrics requestStartTime (Some first) now text in
  let chars := inject_Z (Z.of_nat (length text)) in
  exists speed,
    e_speedCps report = Some (Finite speed)
    /\ ((1 <= now - first)%Z ->
        within (chars * 1000 / inject_Z (now - first)) speed)
    /\ ((now - first <= 0)%Z -> within (chars * 1000) speed)
    /\ e_outputChars report = Some (Z.of_nat (length text))
    /\ exists latency total,
         e_firstTokenMs report = Some latency
         /\ e_responseMs report = Some total
         /\ (latency + (now - first) = total)%Z.
Proof.
  intros Hf Hm Hc report chars. unfold report, metrics.
  assert (E : truthy_num (Some first) = true).
  { cbn. now apply negb_true_iff, Z.eqb_neq. }
  rewrite E. cbn [num e_speedCps e_outputChars e_firstTokenMs e_responseMs].
  destruct (speed_within (Z.of_nat (length text)) now first)
    as (s & Es & A & B); [lia | exact Hm |].
  exists s. rewrite Es.
  split; [reflexivity|]. split; [exact A|]. split; [exact B|].
  split; [reflexivity|].
  eexists _, _. split; [reflexivity|]. split; [reflexivity|]. lia.
Qed.

(** 700 characters in 3 s: the speed is the binary64 value that prints as
    233.33333333333334. *)
Lemma X22_speed_is_characters_per_second_witness :
  exists speed,
    e_speedCps (metrics 1000%Z (Some 1200%Z) 4200%Z (repeat 120%N 700))
    = Some (Finite speed)
    /\ within (inject_Z 700 * 1000 / inject_Z 3000) speed
    /\ speed = (8209686820727467 # 35184372088832)%Q.
Proof.
  pose proof (X22_speed_is_characters_per_second 1000%Z 1200%Z 4200%Z
                (repeat 120%N 700)) as H.
  cbv zeta in H.
  destruct H as (speed & A & B & _).
  - discriminate.
  - reflexivity.
  - reflexivity.
  - exists speed. split; [exact A|]. split; [apply B; discriminate|].
    assert (V : e_speedCps (metrics 1000%Z (Some 1200%Z) 4200%Z
                              (repeat 120%N 700))
                = Some (Finite (8209686820727467 # 35184372088832)%Q))
      by (vm_compute; reflexivity).
    rewrite V in A. now inversion A.
Defined.

(** X23: when the stream ends and the turn has its assistant message,
    the last update settles it: the message holds the accumulated text and
    is neither loading nor thinking, the messages of the chat keep their
    ids and their order, the interval of the reasoning timer is cleared,
    the whole list is handed to the writer last, and the active chat is the
    chat of the active id.  A turn without an assistant message leaves the
    store as it is. *)
Theorem X23_finalize_settles_the_answer
    (now_at : nat -> Z) (chatId : jsstring) (requestStartTime : Z)
    (t : Turn) (w : World) :
  let w' := finalize now_at chatId requestStartTime t w in
  (assistantMessageId t = None -> w' = w)
  /\ (forall id c m,
        assistantMessageId t = Some id -> truthy id = true ->
        findById chat_id (chats w) chatId = Some c ->
        findById msg_id (messages c) id = Some m ->
        exists c' m',
          findById chat_id (chats w') chatId = Some c'
          /\ findById msg_id (messages c') id = Some m'
          /\ msg_content m' = assistantContent t
          /\ isLoading m' = Some false /\ isThinking m' = Some false
          /\ msg_role m' = msg_role m
          /\ map msg_id (messages c') = map msg_id (messages c)
          /\ (forall h, thinkTimeInterval t = Some h ->
                        ~ In h (live_timers w'))
          /\ (exists earlier,
                io w' = earlier
                        ++ [IoPersist (ReplaceChatMessages chatId
                                         (messages c'))])
          /\ activeChat w' = findById chat_id (chats w') (activeChatId w)).
Proof.
  intros w'. subst w'. unfold finalize. split.
  - intros ->. reflexivity.
  - intros id c m Ht Hi Hc Hm. rewrite Ht. cbn [truthy_opt]. rewrite Hi.
    match goal with
    | |- context [let (_, _) := ?e in _] =>
        assert (A : chats (snd e) = chats w
                    /\ activeChatId (snd e) = activeChatId w)
          by (destruct (_ && _); now cbn);
        destruct e as [ftt wa]
    end.
    cbn [snd] in A. destruct A as (A1 & A2). cbn [Date_now].
    set (wb := clear_if_set (thinkTimeInterval t) wa).
    assert (B : chats wb = chats w /\ activeChatId wb = activeChatId w
                /\ forall h, thinkTimeInterval t = Some h ->
                             ~ In h (live_timers wb)).
    { unfold wb. destruct (thinkTimeInterval t) as [h0|]; cbn;
        (split; [exact A1|]); (split; [exact A2|]); [|discriminate].
      intros h E. inversion E; subst h0. rewrite filter_In.
      intros [_ F]. now rewrite Nat.eqb_refl in F. }
    destruct B as (B1 & B2 & B3).
    set (wc := set_clock_reads _ wb).
    set (report := Some (metrics _ _ _ _)).
    assert (C : findById chat_id (chats wc) chatId = Some c)
      by (change (chats wc) with (chats wb); now rewrite B1).
    destruct (proj1 (proj2 (proj2
               (updateMessage_spec chatId (Some id) (assistantContent t)
                  (Some false) ftt (Some false) report wc)))
              c id m C eq_refl Hm) as (c' & D1 & D2 & _ & _ & D3).
    set (wd := updateMessage _ _ _ _ _ _ _ wc) in *.
    assert (D4 : live_timers wd = live_timers wb
                 /\ activeChatId wd = activeChatId wb).
    { unfold wd, updateMessage.
      destruct (findById chat_id (chats (emit _ wc)) chatId); [|now cbn].
      destruct (find_message _ _); now cbn. }
    destruct D4 as [D4 D5].
    exists c', (apply_update (assistantContent t) (Some false) ftt
                  (Some false) report m).
    unfold persistChatMessages. rewrite D1.
    cbn -[findById wd]. rewrite D5, B2.
    repeat split; try assumption; try reflexivity.
    + intros h E. rewrite D4. now apply B3.
    + now eexists.
Qed.

Lemma X23_finalize_settles_the_answer_witness :
  let w := set_chats
             [ plain_chat SPNull
                 [ plain_message "u1" user "hi" 1;
                   plain_message "a1" assistant "" 2 ] ] sample_world in
  let t := set_assistantContent (str "hello")
             (set_assistantMessageId (Some (str "a1")) initialTurn) in
  exists c' m',
    findById chat_id (chats (finalize sample_clock (str "c1") 1000 t w))
      (str "c1") = Some c'
    /\ findById msg_id (messages c') (str "a1") = Some m'
    /\ msg_content m' = str "hello"
    /\ isLoading m' = Some false.
Proof.
  intros w t.
  destruct (proj2 (X23_finalize_settles_the_answer
                     sample_clock (str "c1") 1000 t w)
              (str "a1")
              (plain_chat SPNull
                 [ plain_message "u1" user "hi" 1;
                   plain_message "a1" assistant "" 2 ])
              (plain_message "a1" assistant "" 2)
              eq_refl eq_refl eq_refl eq_refl)
    as (c' & m' & A & B & C & D & _).
  exists c', m'. repeat split; assumption.
Defined.

(** ** The interval of the reasoning timer *)

Section Timers.

Variable now_at : nat -> Z.
Variable uuid_at : nat -> jsstring.
Variable chatId : jsstring.
Variable requestStartTime : Z.
Variable isImage : bool.
Variable before : list nat.

Local Abbreviation same_timers w w' :=
  (live_timers w' = live_timers w /\ timers_created w' = timers_created w).

Local Abbreviation settled := (timers_settled before).

Lemma same_timers_updateMessage (messageId : option jsstring)
    (content : jsstring) (il : option bool) (tt : option Z)
    (it : option bool) (extra : option Extra) (w : World) :
  same_timers w (updateMessage chatId messageId content il tt it extra w).
Proof.
  unfold updateMessage.
  destruct (findById chat_id (chats (emit _ w)) chatId); [|now cbn].
  destruct messageId; [|now cbn].
  destruct (find_message _ _); now cbn.
Qed.

Lemma same_timers_addMessage (message : Message) (att : option AddedAttachment)
    (w : World) :
  same_timers w (snd (addMessage now_at uuid_at chatId message att w)).
Proof.
  unfold addMessage.
  destruct (findById chat_id (chats w) chatId); [|now cbn].
  destruct (msg_role message); now cbn.
Qed.

Lemma addMessage_id (message : Message) (att : option AddedAttachment)
    (w : World) :
  match fst (addMessage now_at uuid_at chatId message att w) with
  | Some id => exists k, id = uuid_at k
  | None => True
  end.
Proof.
  unfold addMessage.
  destruct (findById chat_id (chats w) chatId); [|exact I].
  destruct (msg_role message); cbn; try exact I; now eexists.
Qed.

Lemma same_timers_renameChat (newTitle : jsstring) (w : World) :
  same_timers w (renameChat chatId newTitle w).
Proof.
  unfold renameChat. now destruct (findById chat_id (chats w) chatId).
Qed.

Lemma same_timers_followUp (reply : option jsstring) (w : World) :
  same_timers w (followUp chatId reply w).
Proof.
  unfold followUp, generateChatTitle.
  destruct (findById chat_id (chats w) chatId) as [c|]; [|now cbn].
  destruct (shouldGenerateTitle w c); [|now cbn].
  change (chats (set_isGeneratingTitle true w)) with (chats w).
  destruct (findById chat_id (chats w) chatId) as [c1|]; [|now cbn].
  destruct (messages c1); [now cbn|].
  change (cfg (set_isGeneratingTitle true w)) with (cfg w).
  destruct (_ && _).
  - destruct (same_timers_renameChat
                (generateDefaultTitle (set_isGeneratingTitle true w)
                   (Some (msg_content m)))
                (set_isGeneratingTitle true w)) as [E1 E2].
    cbn -[renameChat]. now rewrite E1, E2.
  - destruct reply as [t|].
    + destruct (same_timers_renameChat t
                  (emit IoTitleRequest (set_isGeneratingTitle true w)))
        as [E1 E2].
      cbn -[renameChat]. now rewrite E1, E2.
    + destruct (same_timers_renameChat
                  (generateDefaultTitle (set_isGeneratingTitle true w)
                     (Some (msg_content m)))
                  (emit IoTitleRequest (set_isGeneratingTitle true w)))
        as [E1 E2].
      cbn -[renameChat]. now rewrite E1, E2.
Qed.

Lemma settled_frame (t t' : Turn) (w w' : World) :
  same_timers w w' -> thinkTimeInterval t' = thinkTimeInterval t ->
  settled t w -> settled t' w'.
Proof.
  intros [E1 E2] Et [H1 H2]. unfold timers_settled.
  now rewrite E1, E2, Et.
Qed.

Lemma filter_other (h : nat) (l : list nat) :
  ~ In h l -> filter (fun x => negb (Nat.eqb x h)) l = l.
Proof.
  induction l as [|x l IH]; [reflexivity|]. cbn. intros H.
  destruct (Nat.eqb_spec x h) as [-> | _]; [exfalso; apply H; now left|].
  cbn. rewrite IH; [reflexivity|]. intros Hi. apply H. now right.
Qed.

(** Clearing the interval of the turn leaves the intervals there were. *)
Lemma settled_clear (t t' : Turn) (w : World) :
  thinkTimeInterval t' = None -> settled t w ->
  settled t' (clear_if_set (thinkTimeInterval t) w).
Proof.
  intros Et [H1 H2]. unfold timers_settled. rewrite Et.
  destruct (thinkTimeInterval t) as [h|]; cbn; [|now split].
  destruct H2 as [E N]. rewrite E in H1 |- *. cbn. rewrite Nat.eqb_refl. cbn.
  rewrite (filter_other h before N). split; [|reflexivity].
  exact (Forall_inv_tail H1).
Qed.

Lemma settled_start (t : Turn) (w : World) :
  settled t w ->
  settled (fst (startThinkTimeUpdates t w)) (snd (startThinkTimeUpdates t w)).
Proof.
  intros H. unfold startThinkTimeUpdates.
  pose proof (settled_clear t (set_thinkTimeInterval None t) w eq_refl H)
    as [H1 H2].
  cbn [thinkTimeInterval set_thinkTimeInterval] in H2.
  set (w1 := clear_if_set (thinkTimeInterval t) w) in *.
  assert (Ec : timers_created w1 = timers_created w)
    by (unfold w1; now destruct (thinkTimeInterval t)).
  cbn [setInterval fst snd]. unfold timers_settled.
  cbn [live_timers timers_created set_timers thinkTimeInterval
       set_thinkTimeInterval].
  rewrite H2 in H1 |- *. split.
  - constructor; [lia|]. eapply Forall_impl; [|exact H1]. cbn. intros; lia.
  - split; [reflexivity|]. intros Hin.
    rewrite Forall_forall in H1. specialize (H1 _ Hin). lia.
Qed.

Local Abbreviation sound t w := (settled t w /\ drawn_id uuid_at t).

Lemma drawn_same (t t' : Turn) :
  assistantMessageId t' = assistantMessageId t ->
  drawn_id uuid_at t -> drawn_id uuid_at t'.
Proof. unfold drawn_id. now intros ->. Qed.

Lemma sound_stamp_first_token (t : Turn) (w : World) :
  sound t w ->
  sound (fst (stamp_first_token now_at t w)) (snd (stamp_first_token now_at t w)).
Proof.
  intros [H G]. unfold stamp_first_token.
  destruct (firstTokenTime t); cbn [Date_now fst snd]; [now split|].
  split; [|exact G]. revert H. now apply settled_frame.
Qed.

Lemma sound_open_think_block (t : Turn) (w : World) :
  sound t w ->
  sound (fst (open_think_block now_at t w)) (snd (open_think_block now_at t w)).
Proof.
  intros [H G].
  split; [|apply drawn_same with (t := t);
           [apply (steady_open_think_block now_at chatId t w) | exact G]].
  unfold open_think_block. cbn [Date_now].
  destruct (negb (isInThinkBlock t)); cbn [fst snd]; [|exact H].
  apply settled_start. revert H. now apply settled_frame.
Qed.

Lemma sound_close_think_block (t : Turn) (w : World) :
  sound t w ->
  sound (fst (close_think_block t w)) (snd (close_think_block t w)).
Proof.
  intros [H G].
  split; [|apply drawn_same with (t := t);
           [apply (steady_close_think_block chatId t w) | exact G]].
  unfold close_think_block.
  destruct (usesThinkingField t && isInThinkBlock t); cbn [fst snd];
    [|exact H].
  now apply settled_clear.
Qed.

Lemma sound_updateThinkStateFromChunk (c : jsstring) (t : Turn) (w : World) :
  sound t w ->
  sound (fst (updateThinkStateFromChunk now_at c t w))
        (snd (updateThinkStateFromChunk now_at c t w)).
Proof.
  intros [H G].
  split; [|apply drawn_same with (t := t);
           [apply (steady_updateThinkStateFromChunk now_at chatId c t w)
           | exact G]].
  unfold updateThinkStateFromChunk.
  set (t1 := set_thinkTagBuffer _ t).
  assert (H1 : settled t1 w) by (revert H; now apply settled_frame).
  set (r := if negb (isInThinkBlock t1) && _ then _ else (t1, w)).
  assert (H2 : settled (fst r) (snd r)).
  { unfold r. destruct (_ && _); [|exact H1].
    cbn [Date_now]. apply settled_start.
    revert H1. now apply settled_frame. }
  destruct r as [t2 w2]. cbn [fst snd] in H2.
  destruct (_ && _); cbn [fst snd]; [|exact H2].
  now apply settled_clear.
Qed.

Lemma sound_detect_tags (c : jsstring) (t : Turn) (w : World) :
  sound t w ->
  sound (fst (detect_tags now_at c t w)) (snd (detect_tags now_at c t w)).
Proof.
  intros H. unfold detect_tags. destruct (negb (usesThinkingField t)).
  - now apply sound_updateThinkStateFromChunk.
  - exact H.
Qed.

Lemma sound_create_assistant_content (t : Turn) (w : World) :
  sound t w ->
  let r := create_assistant_content now_at uuid_at chatId requestStartTime
             t w in
  sound (fst r) (snd r).
Proof.
  intros [H G]. unfold create_assistant_content.
  destruct (assistantMessageId t) as [id|] eqn:Ei; [now split|].
  destruct (truthy_num (thinkStartTime t) && isInThinkBlock t);
    cbn [Date_now];
    match goal with
    | |- context [addMessage ?a ?b ?c ?d ?e ?f] =>
        pose proof (same_timers_addMessage d e f) as F;
        pose proof (addMessage_id d e f) as I;
        destruct (addMessage a b c d e f) as [r1 r2]
    end; cbn [fst snd] in *;
    (split; [|exact I]);
    apply settled_frame with (t := t) (w := w);
      try reflexivity; try exact H;
      destruct F as [F1 F2]; now rewrite F1, F2.
Qed.

Lemma sound_create_assistant_thinking (t : Turn) (w : World) :
  sound t w ->
  let r := create_assistant_thinking now_at uuid_at chatId requestStartTime
             t w in
  sound (fst r) (snd r).
Proof.
  intros [H G]. unfold create_assistant_thinking.
  destruct (assistantMessageId t) as [id|] eqn:Ei; [now split|].
  cbn [Date_now].
  match goal with
  | |- context [addMessage ?a ?b ?c ?d ?e ?f] =>
      pose proof (same_timers_addMessage d e f) as F;
      pose proof (addMessage_id d e f) as I;
      destruct (addMessage a b c d e f) as [r1 r2]
  end; cbn [fst snd] in *.
  split; [|exact I].
  apply settled_frame with (t := t) (w := w);
    try reflexivity; try exact H.
  destruct F as [F1 F2]. now rewrite F1, F2.
Qed.

Ltac pass t' w' H lemma :=
  match goal with
  | |- context [let (_, _) := ?e in _] =>
      pose proof lemma as H;
      destruct e as [t' w']; cbn [fst snd] in H
  end.

Lemma sound_onContent (c : jsstring) (t : Turn) (w : World) :
  sound t w ->
  let r := onContent now_at uuid_at chatId requestStartTime c t w in
  sound (fst r) (snd r).
Proof.
  intros H. unfold onContent.
  pass t1 w1 H1 (sound_stamp_first_token t w H).
  pass t2 w2 H2 (sound_close_think_block t1 w1 H1).
  pass t3 w3 H3 (sound_detect_tags c t2 w2 H2).
  pass t4 w4 H4 (sound_create_assistant_content t3 w3 H3).
  cbn [Date_now fst snd]. destruct H4 as [H4 G4]. split; [|exact G4].
  match goal with
  | |- context [updateMessage ?a ?b ?cc ?d ?e ?f ?g ?x] =>
      destruct (same_timers_updateMessage b cc d e f g x) as [E1 E2]
  end.
  apply settled_frame with (t := t4) (w := w4);
    [split; [now rewrite E1 | now rewrite E2] | reflexivity | exact H4].
Qed.

Lemma sound_onThinking (c : jsstring) (t : Turn) (w : World) :
  sound t w ->
  let r := onThinking now_at uuid_at chatId requestStartTime c t w in
  sound (fst r) (snd r).
Proof.
  intros H. unfold onThinking.
  assert (H0 : sound (set_usesThinkingField true t) w) by exact H.
  pass t2 w2 H2 (sound_stamp_first_token (set_usesThinkingField true t) w H0).
  pass t3 w3 H3 (sound_open_think_block t2 w2 H2).
  pass t4 w4 H4 (sound_create_assistant_thinking t3 w3 H3).
  cbn [Date_now fst snd]. destruct H4 as [H4 G4]. split; [|exact G4].
  match goal with
  | |- context [updateMessage ?a ?b ?cc ?d ?e ?f ?g ?x] =>
      destruct (same_timers_updateMessage b cc d e f g x) as [E1 E2]
  end.
  apply settled_frame with (t := t4) (w := w4);
    [split; [now rewrite E1 | now rewrite E2] | reflexivity | exact H4].
Qed.

Lemma same_timers_onInterval (t : Turn) (w : World) :
  same_timers w (onInterval now_at chatId t w).
Proof.
  unfold onInterval. destruct (_ && _); [|now split].
  cbn [Date_now].
  match goal with
  | |- context [updateMessage ?a ?b ?cc ?d ?e ?f ?g ?x] =>
      destruct (same_timers_updateMessage b cc d e f g x) as [E1 E2]
  end.
  now rewrite E1, E2.
Qed.

Lemma sound_onEvent (e : Event) (t : Turn) (w : World) :
  sound t w ->
  let r := onEvent now_at uuid_at chatId requestStartTime isImage (t, w) e in
  sound (fst r) (snd r).
Proof.
  intros H. destruct e as [d|]; cbn [onEvent].
  - unfold onData.
    destruct (truthy_opt (message_thinking d)); [now apply sound_onThinking|].
    destruct (truthy_opt _); [now apply sound_onContent | exact H].
  - cbn [fst snd]. destruct H as [H G]. split; [|exact G].
    destruct (interval_live t w); [|exact H].
    revert H. apply settled_frame; [apply same_timers_onInterval | reflexivity].
Qed.

Lemma sound_processStream (events : list Event) (t : Turn) (w : World) :
  sound t w ->
  let r := processStream now_at uuid_at chatId requestStartTime isImage
             events t w in
  sound (fst r) (snd r).
Proof.
  unfold processStream. revert t w.
  induction events as [|e events IH]; intros t w H; [exact H|].
  cbn [fold_left].
  pose proof (sound_onEvent e t w H) as H1.
  destruct (onEvent now_at uuid_at chatId requestStartTime isImage (t, w) e)
    as [t1 w1].
  now apply IH.
Qed.

(** Where the turn ends. *)
Lemma cleanup_timers (t : Turn) (w : World) :
  settled t w ->
  live_timers (cleanup now_at chatId requestStartTime t w) = before.
Proof.
  intros H. unfold cleanup.
  pose proof (settled_clear t (set_thinkTimeInterval None t) w eq_refl H)
    as [_ H2].
  cbn [thinkTimeInterval set_thinkTimeInterval] in H2.
  destruct (_ && _); [|exact H2].
  cbn [Date_now].
  match goal with
  | |- context [updateMessage ?a ?b ?cc ?d ?e ?f ?g ?x] =>
      destruct (same_timers_updateMessage b cc d e f g x) as [E1 E2]
  end.
  rewrite E1. exact H2.
Qed.

Lemma finalize_timers (t : Turn) (w : World) :
  settled t w ->
  (thinkTimeInterval t <> None -> truthy_opt (assistantMessageId t) = true) ->
  live_timers (finalize now_at chatId requestStartTime t w) = before.
Proof.
  intros H Hq. unfold finalize.
  destruct (truthy_opt (assistantMessageId t)).
  - match goal with
    | |- context [let (_, _) := ?e in _] =>
        assert (A : same_timers w (snd e))
          by (destruct (_ && _); now cbn);
        destruct e as [ftt wa]
    end.
    cbn [snd] in A. cbn [Date_now].
    assert (Ha : settled t wa) by (revert H; now apply settled_frame).
    pose proof (settled_clear t (set_thinkTimeInterval None t) wa eq_refl Ha)
      as [_ H2].
    cbn [thinkTimeInterval set_thinkTimeInterval] in H2.
    unfold persistChatMessages.
    match goal with
    | |- context [updateMessage ?a ?b ?cc ?d ?e ?f ?g ?x] =>
        destruct (same_timers_updateMessage b cc d e f g x) as [E1 E2];
        set (wd := updateMessage a b cc d e f g x) in *
    end.
    destruct (findById chat_id (chats wd) chatId); cbn -[wd];
      rewrite E1; exact H2.
  - destruct H as [_ H2].
    destruct (thinkTimeInterval t) as [h|]; [|exact H2].
    discriminate Hq. discriminate.
Qed.

End Timers.

Lemma sendMessage_try_timers
    (now_at : nat -> Z) (uuid_at : nat -> jsstring)
    (chatId content : jsstring) (att : option Attachment)
    (env : Collaborators) (w : World) (ids : list jsstring) :
  unique_chat_ids (chats w) ->
  message_ids chatId w = Some ids ->
  (forall n, truthy (uuid_at n) = true) ->
  Forall (fun h => (h <= timers_created w)%nat) (live_timers w) ->
  let w' := snd (sendMessage_try now_at uuid_at chatId content att env w) in
  ((forall events e, fetched env <> FetchResponse events (StreamFailed e)) ->
   live_timers w' = live_timers w)
  /\ exists left, live_timers w' = left ++ live_timers w
                  /\ (length left <= 1)%nat.
Proof.
  intros Hu Hm Hid Hl.
  pose proof (turn_state_start chatId w ids Hu Hm) as H0.
  assert (Same : forall w1, live_timers w1 = live_timers w ->
            (((forall events e,
                 fetched env <> FetchResponse events (StreamFailed e)) ->
              live_timers w1 = live_timers w)
             /\ exists left, live_timers w1 = left ++ live_timers w
                             /\ (length left <= 1)%nat)).
  { intros w1 E. split; [auto|]. exists []. split; [exact E | cbn; lia]. }
  cbv zeta. unfold sendMessage_try.
  destruct (findById chat_id (chats w) chatId); [|now apply Same].
  destruct (models (cfg w)); [now apply Same|].
  destruct (_ && _); [now apply Same|].
  set (w2 := emit IoSidePipelines _).
  assert (H2 : turn_state chatId w ids w2).
  { revert H0. apply steady_same; reflexivity. }
  destruct (side env) as [ui model|e]; [|now apply Same].
  cbn [Date_now].
  match goal with
  | |- context [addMessage ?a ?b ?c ?d ?e ?f] =>
      assert (H3 : turn_state chatId w ids f)
        by (revert H2; apply steady_same; reflexivity);
      destruct (turn_state_addMessage a b c d e w f ids H3)
        as (uid & E4 & H4); [discriminate|];
      pose proof (same_timers_addMessage a b c d e f) as [T4 C4];
      destruct (addMessage a b c d e f) as [userMessageId w4]
  end.
  cbn [fst snd] in E4, H4, T4, C4. subst userMessageId.
  change (live_timers (set_clock_reads _ w2)) with (live_timers w) in T4.
  change (timers_created (set_clock_reads _ w2)) with (timers_created w) in C4.
  destruct (negb (truthy_opt (Some uid))); [now apply Same|].
  set (w7 := syncActiveChat _).
  assert (H7 : turn_state chatId w (ids ++ [uid]) w7).
  { revert H4. eapply steady_trans; [apply steady_persistChatMessages|].
    apply steady_same; reflexivity. }
  assert (T7 : live_timers w7 = live_timers w
               /\ timers_created w7 = timers_created w).
  { unfold w7, persistChatMessages.
    destruct (findById chat_id (chats w4) chatId); now cbn. }
  destruct T7 as [T7 C7].
  destruct (buildOllamaRequestBody _ _ _ _ _ _ _ _) as [e|body];
    [now apply Same|].
  set (w9 := emit (IoFetch body) _).
  assert (H9 : turn_state chatId w (ids ++ [uid]) w9).
  { revert H7. apply steady_same; reflexivity. }
  destruct (fetched env) as [e|events ending] eqn:Ef; [now apply Same|].
  assert (S9 : turn_state chatId w
                 ((ids ++ [uid]) ++ assistant_ids initialTurn) w9).
  { cbn [assistant_ids initialTurn assistantMessageId].
    now rewrite app_nil_r. }
  assert (P9 : timers_settled (live_timers w) initialTurn w9
               /\ drawn_id uuid_at initialTurn).
  { split; [|exact I]. split; [|exact T7].
    change (live_timers w9) with (live_timers w7).
    change (timers_created w9) with (timers_created w7).
    now rewrite T7, C7. }
  destruct (standing_processStream now_at uuid_at chatId
              (now_at (clock_reads w7)) (is_image att) w (ids ++ [uid])
              events initialTurn w9 S9) as [_ N10].
  pose proof (sound_processStream now_at uuid_at chatId
                (now_at (clock_reads w7)) (is_image att) (live_timers w)
                events initialTurn w9 P9) as [P10 G10].
  pose proof (processStream_idle now_at uuid_at chatId
                (now_at (clock_reads w7)) (is_image att)
                events initialTurn w9) as Idle.
  destruct (processStream _ _ _ _ _ _ _ _) as [t w10].
  cbn [fst snd] in N10, P10, G10.
  assert (Q : thinkTimeInterval t <> None ->
              truthy_opt (assistantMessageId t) = true).
  { intros Hi. unfold drawn_id in G10.
    destruct (assistantMessageId t) as [id|].
    - destruct G10 as [k ->]. apply Hid.
    - exfalso. apply Hi.
      destruct (proj1 N10 eq_refl) as [_ Hf].
      specialize (Idle Hf eq_refl). inversion Idle. reflexivity. }
  destruct ending as [| |e]; cbn [snd].
  - apply Same.
    destruct (same_timers_followUp chatId (title env)
                (finalize now_at chatId (now_at (clock_reads w7)) t w10))
      as [E _].
    rewrite E. now apply finalize_timers.
  - apply Same.
    apply cleanup_timers.
    refine (settled_frame (live_timers w) t t w10 _ _ eq_refl P10).
    now split.
  - split.
    + intros Hn. exfalso. now apply (Hn events e).
    + destruct P10 as [_ P10].
      destruct (thinkTimeInterval t) as [h|].
      * exists [h]. split; [exact (proj1 P10) | cbn; lia].
      * exists []. split; [exact P10 | cbn; lia].
Qed.

(** X24: no interval of the reasoning timer outlives a turn that ends or is
    stopped.  With the ids of the chats distinct, the chat there, ids from
    [crypto.randomUUID] that are not empty, and no live handle that was not
    given out, sendMessage leaves the store with the intervals it found,
    whenever the stream is read to its end or the user stops it, and on
    every earlier exit.  When the transport fails while the stream is
    read, at most the interval of the turn is left. *)
Theorem X24_no_interval_outlives_the_turn
    (now_at : nat -> Z) (uuid_at : nat -> jsstring)
    (handleError : JsError -> string -> jsstring) (chatId content : jsstring)
    (att : option Attachment) (env : Collaborators) (w : World)
    (ids : list jsstring) :
  unique_chat_ids (chats w) ->
  message_ids chatId w = Some ids ->
  (forall n, truthy (uuid_at n) = true) ->
  Forall (fun h => (h <= timers_created w)%nat) (live_timers w) ->
  let w' := snd (sendMessage now_at uuid_at handleError chatId content att
                   env w) in
  ((forall events e, fetched env <> FetchResponse events (StreamFailed e)) ->
   live_timers w' = live_timers w)
  /\ exists left, live_timers w' = left ++ live_timers w
                  /\ (length left <= 1)%nat.
Proof.
  intros Hu Hm Hid Hl w'. subst w'. unfold sendMessage.
  pose proof (sendMessage_try_timers now_at uuid_at chatId content att env
                w ids Hu Hm Hid Hl) as H.
  cbv zeta in H.
  destruct (sendMessage_try now_at uuid_at chatId content att env w)
    as [res w1].
  cbn [snd] in H. destruct res as [[|m]|[]]; exact H.
Qed.

Lemma sample_uuid_truthy (n : nat) : truthy (sample_uuid n) = true.
Proof. reflexivity. Qed.

Lemma X24_no_interval_outlives_the_turn_witness :
  let w := set_chats [plain_chat SPNull [plain_message "u0" user "hi" 1]]
             sample_world in
  live_timers (snd (sendMessage sample_clock sample_uuid sample_handleError
                      (str "c1") (str "more") None sample_answers w))
  = live_timers w.
Proof.
  intros w.
  pose proof (X24_no_interval_outlives_the_turn
                sample_clock sample_uuid sample_handleError
                (str "c1") (str "more") None sample_answers w [str "u0"]) as H.
  destruct H as (A & _).
  - repeat constructor. cbn. tauto.
  - reflexivity.
  - exact sample_uuid_truthy.
  - constructor.
  - apply A. intros events e. discriminate.
Defined.
